(** * Health-check middleware (server/lib/healthchecks.js)

    A shallow embedding of the health-check engine of the store web
    application: the outcome classifier [Outcome], the probe runner
    [runCheck] with its redirect loop, the same-domain predicate
    [withinSameDomain], the loader [readChecks], the orchestrator
    [checkFunction] and the report built by the middleware.

    Conventions.
    - A JavaScript string is a [string]; each character stands for one
      code unit in the range U+0000..U+00FF.
    - [None] in an optional field stands for [undefined] / [null] / an
      absent property.
    - The network, the clock, the file system and the [url] module of
      the platform are not part of the repository: they are variables
      of the sections below.  [NodeUrl] gives a small executable reading
      of the [url] module, used to run the definitions on concrete
      inputs and to state what becomes of a relative path. *)

From Stdlib Require Import String Ascii List ZArith Lia Bool Arith.
From Stdlib Require Import Sorting.Sorted Sorting.Permutation.
From Stdlib Require Import DecimalString.
From Equations Require Import Equations.
Import ListNotations.

Local Open Scope string_scope.
Local Open Scope list_scope.

Set Implicit Arguments.

(** ** JavaScript primitives used by the module *)

Module JS.

(** Errors that travel through the module: [assert] failures, the
    [TypeError]s raised by the platform on [null] / [undefined], and
    plain [Error] objects, which may carry a [code]. *)
Inductive JsError : Type :=
| AssertionError (message : string)
| TypeError (message : string)
| Error (code : option string) (message : string).

(** [error.code] *)
Definition code (e : JsError) : option string :=
  match e with
  | Error c _ => c
  | AssertionError _ => Some "ERR_ASSERTION"
  | TypeError _ => None
  end.

Definition message (e : JsError) : string :=
  match e with
  | AssertionError m | TypeError m | Error _ m => m
  end.

(** [a === b] on optional strings ([undefined === undefined] holds). *)
Definition strict_eq (a b : option string) : bool :=
  match a, b with
  | None, None => true
  | Some x, Some y => String.eqb x y
  | _, _ => false
  end.

(** Truthiness of a number and of an optional string. *)
Definition truthy_num (z : Z) : bool := negb (Z.eqb z 0).

Definition truthy (v : option string) : bool :=
  match v with
  | None => false
  | Some s => negb (String.eqb s "")
  end.

(** [`${v}`] for a value that is a string or [null]. *)
Definition template (v : option string) : string :=
  match v with
  | Some s => s
  | None => "null"
  end.

(** [body.indexOf(text)]: the first position at which [text] occurs
    in [body], or [-1]. *)
Fixpoint indexOf_from (body text : string) (i : Z) : Z :=
  if String.prefix text body then i
  else match body with
       | EmptyString => (-1)%Z
       | String _ body' => indexOf_from body' text (i + 1)%Z
       end.

Definition indexOf (body text : string) : Z := indexOf_from body text 0.

(** [array.indexOf(x)] on an array of numbers. *)
Fixpoint Array_indexOf_from (l : list Z) (x : Z) (i : Z) : Z :=
  match l with
  | [] => (-1)%Z
  | y :: l' => if Z.eqb y x then i else Array_indexOf_from l' x (i + 1)%Z
  end.

Definition Array_indexOf (l : list Z) (x : Z) : Z := Array_indexOf_from l x 0.

(** [s.endsWith(search)]: the last [search.length] code units of [s]
    are [search]. *)
Definition endsWith (s search : string) : bool :=
  let start := (Z.of_nat (String.length s) - Z.of_nat (String.length search))%Z in
  if (start <? 0)%Z then false
  else String.eqb (String.substring (Z.to_nat start) (String.length search) s) search.

(** [array.every(f)] *)
Definition every {A} (f : A -> bool) (l : list A) : bool := forallb f l.

(** White space as [trim] and the class [\s] see it, within the code
    units modelled: TAB, LF, VT, FF, CR, SPACE and NBSP. *)
Definition is_space (c : ascii) : bool :=
  let n := nat_of_ascii c in
  (((9 <=? n) && (n <=? 13)) || (n =? 32) || (n =? 160))%nat.

(** The class [\w]: letters, digits and the underscore. *)
Definition is_word (c : ascii) : bool :=
  let n := nat_of_ascii c in
  (((48 <=? n) && (n <=? 57)) || ((65 <=? n) && (n <=? 90))
   || (n =? 95) || ((97 <=? n) && (n <=? 122)))%nat.

(** The class [[\n\r]]. *)
Definition is_newline (c : ascii) : bool :=
  let n := nat_of_ascii c in ((n =? 10) || (n =? 13))%nat.

Fixpoint drop_while (p : ascii -> bool) (s : string) : string :=
  match s with
  | EmptyString => EmptyString
  | String c s' => if p c then drop_while p s' else s
  end.

Fixpoint take_while (p : ascii -> bool) (s : string) : string :=
  match s with
  | EmptyString => EmptyString
  | String c s' => if p c then String c (take_while p s') else EmptyString
  end.

Fixpoint rev_string (s : string) : string :=
  match s with
  | EmptyString => EmptyString
  | String c s' => rev_string s' ++ String c EmptyString
  end.

(** [s.trim()] *)
Definition trim (s : string) : string :=
  rev_string (drop_while is_space (rev_string (drop_while is_space s))).

(** [s.split(/[\n\r]+/)]: the pieces between maximal runs of line
    breaks; a run at either end leaves an empty piece there. *)
Fixpoint split_lines_aux (s : string) (cur : string) (in_break : bool) : list string :=
  match s with
  | EmptyString => [rev_string cur]
  | String c s' =>
      if is_newline c then
        if in_break then split_lines_aux s' cur true
        else rev_string cur :: split_lines_aux s' EmptyString true
      else split_lines_aux s' (String c cur) false
  end.

Definition split_lines (s : string) : list string :=
  split_lines_aux s EmptyString false.

(** [a < b] on strings: code unit by code unit, a proper prefix
    first. *)
Fixpoint string_lt (a b : string) : bool :=
  match a, b with
  | _, EmptyString => false
  | EmptyString, String _ _ => true
  | String c a', String d b' =>
      if (nat_of_ascii c <? nat_of_ascii d)%nat then true
      else if (nat_of_ascii d <? nat_of_ascii c)%nat then false
      else string_lt a' b'
  end.

(** [array.sort(comparefn)]: a stable sort driven by the sign of
    [comparefn], here by insertion from the right. *)
Fixpoint sort_insert {A} (comparefn : A -> A -> Z) (x : A) (l : list A) : list A :=
  match l with
  | [] => [x]
  | y :: l' =>
      if (comparefn x y <=? 0)%Z then x :: y :: l'
      else y :: sort_insert comparefn x l'
  end.

Definition Array_sort {A} (comparefn : A -> A -> Z) (l : list A) : list A :=
  fold_right (sort_insert comparefn) [] l.

End JS.
Import JS.

(** ** Data of the module *)

(** Default timeout for checks (['3s'], in milliseconds). *)
Definition DEFAULT_TIMEOUT : Z := 3000.

(** HTTP status codes which are followed as redirects. *)
Definition REDIRECT_STATUSES : list Z := [301; 302; 303; 307]%Z.

(** The maximum amount of redirects followed. *)
Definition MAX_REDIRECT_COUNT : nat := 10.

(** An object with string properties, in insertion order (request and
    response headers). *)
Definition object := list (string * string).

Fixpoint get_prop (o : object) (k : string) : option string :=
  match o with
  | [] => None
  | (k', v) :: o' => if String.eqb k' k then Some v else get_prop o' k
  end.

Fixpoint set_prop (o : object) (k v : string) : object :=
  match o with
  | [] => [(k, v)]
  | (k', v') :: o' =>
      if String.eqb k' k then (k', v) :: o' else (k', v') :: set_prop o' k v
  end.

(** [Object.assign({}, a, b)] *)
Definition Object_assign (a b : object) : object :=
  fold_left (fun o kv => set_prop o (fst kv) (snd kv)) (a ++ b) [].

(** What [URL.parse] returns, as far as the module reads it. *)
Record Url : Type := mkUrl {
  protocol : option string;
  hostname : option string;
  host     : option string;
  port     : option string;
  pathname : option string;
  path     : option string
}.

(** The argument of [HTTP.get]. *)
Record request : Type := mkRequest {
  req_host    : option string;
  req_port    : option string;
  req_path    : option string;
  req_headers : object
}.

(** What [get] resolves with: [{ statusCode, headers, body }]. *)
Record response : Type := mkResponse {
  res_statusCode : Z;
  res_headers    : object;
  res_body       : string
}.

(** A check outcome, with the properties the constructor may set. *)
Record outcome : Type := mkOutcome {
  url             : string;
  elapsed         : string;
  expectedContent : list string;
  reason          : option string;
  timeout         : option bool;
  error           : option JsError;
  statusCode      : option Z;
  body            : option string
}.

Definition set_reason (r : string) (o : outcome) : outcome :=
  mkOutcome (url o) (elapsed o) (expectedContent o) (Some r) (timeout o)
            (error o) (statusCode o) (body o).
Definition set_timeout (t : bool) (o : outcome) : outcome :=
  mkOutcome (url o) (elapsed o) (expectedContent o) (reason o) (Some t)
            (error o) (statusCode o) (body o).
Definition set_error (e : JsError) (o : outcome) : outcome :=
  mkOutcome (url o) (elapsed o) (expectedContent o) (reason o) (timeout o)
            (Some e) (statusCode o) (body o).
Definition set_statusCode (c : Z) (o : outcome) : outcome :=
  mkOutcome (url o) (elapsed o) (expectedContent o) (reason o) (timeout o)
            (error o) (Some c) (body o).
Definition set_body (b : string) (o : outcome) : outcome :=
  mkOutcome (url o) (elapsed o) (expectedContent o) (reason o) (timeout o)
            (error o) (statusCode o) (Some b).
(** [delete item.body] *)
Definition delete_body (o : outcome) : outcome :=
  mkOutcome (url o) (elapsed o) (expectedContent o) (reason o) (timeout o)
            (error o) (statusCode o) None.

(** The argument of the [Outcome] constructor.  [statusCode] and [body]
    are read only when [error] is absent; the call that passes an
    [error] leaves them out, which shows here as values never read. *)
Record OutcomeArgs : Type := mkArgs {
  args_url        : string;
  args_expected   : list string;
  args_statusCode : Z;
  args_body       : string;
  args_error      : option JsError;
  args_elapsed    : Z
}.

(** How a call that returns a promise ends: it throws before returning,
    or the promise it returns is rejected or resolved. *)
Inductive async (A : Type) : Type :=
| Throws (e : JsError)
| Rejects (e : JsError)
| Resolves (a : A).
Arguments Throws {A} e.
Arguments Rejects {A} e.
Arguments Resolves {A} a.

(** A call made inside a [then] callback: what it throws rejects the
    promise of the [then]. *)
Definition in_then {A} (r : async A) : async A :=
  match r with
  | Throws e => Rejects e
  | other => other
  end.

(** What the platform reports for one [HTTP.get] raced against the
    timer: an ['error'] event, a complete response, or nothing before the
    timer fires. *)
Inductive net_event : Type :=
| OnError (e : JsError)
| OnResponse (r : response)
| TimerFirst.

(** ** The same-domain predicate *)

(** [withinSameDomain(from, to)].  A [hostname] that is [null] makes
    [endsWith] throw unless [===] has already answered. *)
Definition withinSameDomain (from to : Url) : JsError + bool :=
  let fromHost := hostname from in
  let toHost := hostname to in
  if strict_eq fromHost toHost then inr true
  else match fromHost with
       | None => inl (TypeError "Cannot read property 'endsWith' of null")
       | Some f =>
           if endsWith f ("." ++ template toHost) then inr true
           else match toHost with
                | None => inl (TypeError "Cannot read property 'endsWith' of null")
                | Some t => inr (endsWith t ("." ++ f))
                end
       end.

(** ** The outcome classifier and the probe runner *)

Section Engine.

(** The platform: a state [World] that the network depends on, the
    race of one request against its timer, and the formatter of elapsed
    times. *)
Variable World : Type.
Variable HTTP_get : request -> Z -> World -> net_event * World.
Variable hrTime : Z -> string.

(** [new Outcome(args)].  The call of [log] that ends the constructor
    only writes a debug line and is left out. *)
Definition Outcome (args : OutcomeArgs) : outcome :=
  let this := mkOutcome (args_url args) (hrTime (args_elapsed args))
                        (args_expected args) None None None None None in
  match args_error args with
  | Some e =>
      if strict_eq (code e) (Some "ETIMEDOUT")
      then set_timeout true (set_reason "timeout" this)
      else set_error e (set_reason "error" this)
  | None =>
      let this := set_body (args_body args)
                           (set_statusCode (args_statusCode args) this) in
      if ((args_statusCode args <? 200) || (args_statusCode args >=? 400))%Z
      then set_reason "statusCode" this
      else
        let expected := args_expected args in
        let allMatching :=
          every (fun text => truthy_num (Z.lnot (indexOf (args_body args) text)))
                expected in
        if negb allMatching then set_reason "body" this else this
  end.

(** [get(request, timeout)]: the promise settles with the first of the
    three events. *)
Definition get (req : request) (timeout : Z) (w : World)
  : (JsError + response) * World :=
  match HTTP_get req timeout w with
  | (OnError e, w') => (inl e, w')
  | (OnResponse r, w') => (inr r, w')
  | (TimerFirst, w') => (inl (Error (Some "ETIMEDOUT") "ETIMEDOUT"), w')
  end.

(** [protocol.replace(/:$/, '')] *)
Definition strip_colon (p : string) : string :=
  match rev_string p with
  | String ":" r => rev_string r
  | _ => p
  end.

(** [args.redirects || 0] *)
Definition redirects_or_0 (r : option nat) : nat :=
  match r with
  | Some n => n
  | None => 0
  end.

(** [runCheck({ url, headers, resolver, timeout, redirects })].  [url]
    is optional because a redirect without a [Location] header hands
    [undefined] to the resolver.  Header values are texts, so a [null]
    host name shows in the [Host] header as the text [null]; what the
    platform makes of such a request is up to [HTTP_get]. *)
Equations? runCheck (url : option string) (headers : object)
           (resolver : option string -> JsError + Url) (timeout : Z)
           (args_redirects : option nat) (w : World)
  : async response * World
  by wf (MAX_REDIRECT_COUNT - redirects_or_0 args_redirects) lt :=
  runCheck url headers resolver timeout args_redirects w :=
    let redirects := redirects_or_0 args_redirects in
    match resolver url with
    | inl e => (Throws e, w)
    | inr loopbackURL =>
    match protocol loopbackURL with
    | None => (Throws (TypeError "Cannot read property 'replace' of null"), w)
    | Some proto =>
    let request :=
      mkRequest (host loopbackURL) (port loopbackURL) (path loopbackURL)
        (Object_assign headers
           [("Host", template (hostname loopbackURL));
            ("X-Forwarded-Proto", strip_colon proto)]) in
    match get request timeout w with
    | (inl e, w1) => (Rejects e, w1)
    | (inr response, w1) =>
        let isRedirect :=
          Z.lnot (Array_indexOf REDIRECT_STATUSES (res_statusCode response)) in
        if truthy_num isRedirect then
          match le_lt_dec MAX_REDIRECT_COUNT redirects with
          | left _ => (Rejects (Error None "too many redirects"), w1)
          | right _ =>
              let redirectURL := get_prop (res_headers response) "location" in
              match resolver redirectURL with
              | inl e => (Rejects e, w1)
              | inr target =>
                  match withinSameDomain target loopbackURL with
                  | inl e => (Rejects e, w1)
                  | inr true =>
                      let (r, w2) :=
                        runCheck redirectURL headers resolver timeout
                                 (Some (redirects + 1)) w1 in
                      (in_then r, w2)
                  | inr false => (Resolves response, w1)
                  end
              end
          end
        else (Resolves response, w1)
    end
    end
    end.
Proof.
  change (MAX_REDIRECT_COUNT - (redirects + 1) < MAX_REDIRECT_COUNT - redirects).
  lia.
Qed.

End Engine.

(** ** The loader, the orchestrator and the report *)

(** One line of the checks file: [{ url, expected }]. *)
Record check : Type := mkCheck {
  check_url      : string;
  check_expected : string
}.

(** The checks of a run: own properties of the [memo] object in
    insertion order, each URL with the texts expected in its response.
    URLs that pass the loader contain a slash, so none of them is an
    index or a member inherited from [Object.prototype]. *)
Definition registry := list (string * list string).

(** [Object.keys(checks)] *)
Definition Object_keys (checks : registry) : list string := map fst checks.

(** [memo[url]] *)
Fixpoint memo_get (memo : registry) (u : string) : option (list string) :=
  match memo with
  | [] => None
  | (k, v) :: memo' => if String.eqb k u then Some v else memo_get memo' u
  end.

(** [memo[url] = v] *)
Fixpoint memo_set (memo : registry) (u : string) (v : list string) : registry :=
  match memo with
  | [] => [(u, v)]
  | (k, v') :: memo' =>
      if String.eqb k u then (k, v) :: memo' else (k, v') :: memo_set memo' u v
  end.

(** What [checkFunction] resolves with. *)
Record passedAndFailed : Type := mkPF {
  passed : list outcome;
  failed : list outcome
}.

(** What the middleware answers: the status of the response and the two
    lists handed to the template or to [JSON.stringify]. *)
Record report : Type := mkReport {
  rep_statusCode : Z;
  rep_passed     : list outcome;
  rep_failed     : list outcome
}.

(** The step of the [reduce] in [readChecks]. *)
Definition add_check (memo : registry) (c : check) : registry :=
  let url := check_url c in
  let arr := match memo_get memo url with
             | Some a => a
             | None => []
             end in
  memo_set memo url
           (if truthy (Some (check_expected c)) then arr ++ [check_expected c]
            else arr).

(** [/^\w+=/.test(line)] *)
Definition is_assignment (line : string) : bool :=
  match line with
  | EmptyString => false
  | String c _ =>
      is_word c &&
      match drop_while is_word line with
      | String "=" _ => true
      | _ => false
      end
  end.

(** [line.match] with the pattern of [readChecks]: a run of characters
    that are not white space (the URL), white space, then the rest of
    the line (the expected text).  [None] when the line does not start
    with a character that is not white space.  The rest of the line
    ends where the dot of the pattern stops: among the code units
    U+0000..U+00FF, at a line feed or a carriage return (the line and
    paragraph separators U+2028 and U+2029, where it stops as well, lie
    beyond them). *)
Definition match_line (line : string) : option check :=
  let not_space := fun c => negb (is_space c) in
  match take_while not_space line with
  | EmptyString => None
  | url =>
      let rest := drop_while is_space (drop_while not_space line) in
      Some (mkCheck url (take_while (fun c => negb (is_newline c)) rest))
  end.

(** [/^https?:$/.test(p)] *)
Definition is_http_or_https (p : string) : bool :=
  String.eqb p "http:" || String.eqb p "https:".

(** [pathname[0] === '/'] *)
Definition starts_with_slash (p : string) : bool :=
  match p with
  | String "/" _ => true
  | _ => false
  end.

(** The comparer built by [compareProperty(propName)]; [a > b] is
    [b < a]. *)
Definition compareProperty (propName : outcome -> string) (a b : outcome) : Z :=
  if string_lt (propName a) (propName b) then (-1)%Z
  else if string_lt (propName b) (propName a) then 1%Z
  else 0%Z.

(** Respond with 200 only if all checks passed, with 500 if any check
    fails, with 404 if there are no checks to run. *)
Definition statusCodeFromOutcomes (passed failed : list outcome) : Z :=
  let anyFailed := (0 <? Z.of_nat (List.length failed))%Z in
  let anyPassed := (0 <? Z.of_nat (List.length passed))%Z in
  if anyFailed then 500%Z
  else if anyPassed then 200%Z
  else 404%Z.

Definition removeBodyProp (outcomes : list outcome) : list outcome :=
  map delete_body outcomes.

(** The callback that splits the outcomes of a run. *)
Definition split_outcomes (outcomes : list outcome) : passedAndFailed :=
  mkPF (filter (fun outcome => negb (truthy (reason outcome))) outcomes)
       (filter (fun outcome => truthy (reason outcome)) outcomes).

(** The body of the middleware once the checks have run. *)
Definition respond (useJSON : bool) (outcomes : passedAndFailed) : report :=
  let passed := Array_sort (compareProperty url) (passed outcomes) in
  let failed := Array_sort (compareProperty url) (failed outcomes) in
  let statusCode := statusCodeFromOutcomes passed failed in
  if useJSON then mkReport statusCode (removeBodyProp passed) (removeBodyProp failed)
  else mkReport statusCode passed failed.

(** The keys [JSON.stringify] writes for an outcome: the properties that
    exist and are not [undefined]. *)
Definition key_if {A} (v : option A) (k : string) : list string :=
  match v with
  | Some _ => [k]
  | None => []
  end.

Definition JSON_keys (o : outcome) : list string :=
  ["url"; "elapsed"; "expectedContent"]
  ++ key_if (reason o) "reason"
  ++ key_if (timeout o) "timeout"
  ++ key_if (error o) "error"
  ++ key_if (statusCode o) "statusCode"
  ++ key_if (body o) "body".

Section Checks.

Variable World : Type.
Variable HTTP_get : request -> Z -> World -> net_event * World.

(** The clock: [process.hrtime()] in nanoseconds, and the formatter of
    elapsed times. *)
Variable hrtime : World -> Z.
Variable hrTime : Z -> string.

(** The [url] module of the platform.  [URL.parse] throws on some
    strings (a [URIError] when the credentials before the host cannot be
    decoded): [URL_parse_throws s] is the error it throws on [s], when
    it throws, and [URL_parse s] is what it returns otherwise. *)
Variable URL_parse : string -> Url.
Variable URL_parse_throws : string -> option JsError.
Variable URL_resolve : string -> string -> string.

(** The file system: the text of a file, or the error of
    [readFileSync]. *)
Variable readFileSync : string -> JsError + string.

(** The lines of the checks file that describe a check. *)
Definition check_lines (content : string) : list string :=
  filter (fun line => negb (is_assignment line))
    (filter (fun line => match line with
                         | String "#" _ => false
                         | _ => true
                         end)
       (filter (fun line => negb (String.length line =? 0)%nat)
          (map trim (split_lines content)))).

(** [const url = URL.parse(check.url)], which may throw, then
    [assert(url.pathname && url.pathname[0] === '/', ...)] and
    [assert(!url.protocol || /^https?:$/.test(url.protocol), ...)] *)
Definition validate (c : check) : JsError + check :=
  match URL_parse_throws (check_url c) with
  | Some e => inl e
  | None =>
      let url := URL_parse (check_url c) in
      if negb (truthy (pathname url) && starts_with_slash (template (pathname url)))
      then inl (AssertionError "Check URL must have absolute pathname")
      else if negb (negb (truthy (protocol url))
                    || is_http_or_https (template (protocol url)))
      then inl (AssertionError "Check URL may only use HTTP/S protocol")
      else inr c
  end.

(** [array.map(f)] for a callback that may throw. *)
Fixpoint map_throwing {A B} (f : A -> JsError + B) (l : list A) : JsError + list B :=
  match l with
  | [] => inr []
  | x :: l' =>
      match f x with
      | inl e => inl e
      | inr y =>
          match map_throwing f l' with
          | inl e => inl e
          | inr ys => inr (y :: ys)
          end
      end
  end.

Definition split_check (line : string) : JsError + check :=
  match match_line line with
  | None => inl (TypeError "Cannot read property '1' of null")
  | Some c => inr c
  end.

(** The context [checkFunction] is bound to. *)
Record context : Type := mkContext {
  ctx_checks  : registry;
  ctx_timeout : Z
}.

(** [readChecks(filename, timeout)] *)
Definition readChecks (filename : string) (timeout : Z) : JsError + context :=
  match readFileSync filename with
  | inl e => inl e
  | inr content =>
      match map_throwing split_check (check_lines content) with
      | inl e => inl e
      | inr split =>
          match map_throwing validate split with
          | inl e => inl e
          | inr valid =>
              inr (mkContext (fold_left add_check valid []) timeout)
          end
      end
  end.

(** [loopbackResolve(relativeURL)] inside [checkFunction(url, ...)];
    [URL.resolve] throws when it is not given a string. *)
Definition loopbackResolve (url : string) (relativeURL : option string)
  : JsError + Url :=
  let protocol' := protocol (URL_parse url) in
  let hostname' := hostname (URL_parse url) in
  let port' := port (URL_parse url) in
  match relativeURL with
  | None => inl (TypeError "Parameter 'url' must be a string, not undefined")
  | Some relativeURL =>
      let absoluteURL :=
        URL_parse (URL_resolve (template protocol' ++ "//localhost/") relativeURL) in
      inr (mkUrl (protocol absoluteURL)
                 (hostname absoluteURL)
                 hostname'
                 port'
                 (pathname absoluteURL)
                 (path absoluteURL))
  end.

(** The checks of [allChecks]: each entry is a key of [Object.keys]
    with its value [checks[checkURL]].  The probes, which the source
    starts together, are taken here one after the other in the order of
    the keys, the order [Promise.all] keeps for the outcomes; each one
    ends in an outcome, unless [runCheck] throws before it returns its
    promise.  The call that passes an [error] fills the two fields it
    leaves out with [0] and the empty text, which are never read. *)
Fixpoint allChecks (url : string) (requestID : option string) (timeout : Z)
         (checks : registry) (w : World) : (JsError + list outcome) * World :=
  match checks with
  | [] => (inr [], w)
  | (checkURL, expected) :: checks' =>
      let headers :=
        [("User-Agent", "Mozilla/5.0 (compatible) Healthchecks http://broadly.com");
         ("X-Request-Id", if truthy requestID then template requestID else "")] in
      let start := hrtime w in
      match runCheck HTTP_get (Some checkURL) headers (loopbackResolve url)
                     timeout None w with
      | (Throws e, w1) => (inl e, w1)
      | (settled, w1) =>
          let elapsed := (hrtime w1 - start)%Z in
          let outcome :=
            match settled with
            | Resolves response =>
                Outcome hrTime
                  (mkArgs checkURL expected (res_statusCode response)
                          (res_body response) None elapsed)
            | Rejects error | Throws error =>
                Outcome hrTime (mkArgs checkURL expected 0 "" (Some error) elapsed)
            end in
          match allChecks url requestID timeout checks' w1 with
          | (inl e, w2) => (inl e, w2)
          | (inr outcomes, w2) => (inr (outcome :: outcomes), w2)
          end
      end
  end.

(** [checkFunction(url, requestID)] bound to a context. *)
Definition checkFunction (this : context) (url : string)
           (requestID : option string) (w : World)
  : (JsError + passedAndFailed) * World :=
  match allChecks url requestID (ctx_timeout this) (ctx_checks this) w with
  | (inl e, w') => (inl e, w')
  | (inr outcomes, w') => (inr (split_outcomes outcomes), w')
  end.

(** The socket and the header of the request the middleware reads. *)
Record incoming : Type := mkIncoming {
  socket_encrypted    : bool;
  socket_localAddress : string;
  socket_localPort    : string;
  x_request_id        : option string
}.

(** [URL.format({ protocol, hostname, port })] *)
Variable URL_format : string -> string -> string -> string.

(** The middleware returned by [healthchecks(options)]: the checks run
    against the local address of the socket, then the answer is built.
    The call of [onFailed] that follows the answer is left out. *)
Definition middleware (runChecks : context) (useJSON : bool)
           (req : incoming) (w : World) : (JsError + report) * World :=
  let requestID := x_request_id req in
  let protocol' := if socket_encrypted req then "https:" else "http:" in
  let hostname' := socket_localAddress req in
  let port' := socket_localPort req in
  let url := URL_format protocol' hostname' port' in
  match checkFunction runChecks url requestID w with
  | (inl e, w') => (inl e, w')
  | (inr outcomes, w') => (inr (respond useJSON outcomes), w')
  end.

End Checks.

(** [`${n}`] for an integer: its decimal digits, with a minus sign
    below zero. *)
Definition number_to_string (n : Z) : string :=
  NilZero.string_of_int (Z.to_int n).

(** [`${this.statusCode}`] *)
Definition template_number (v : option Z) : string :=
  match v with
  | Some n => number_to_string n
  | None => "undefined"
  end.

(** [Outcome.prototype.toString]: the URL and the reason the check
    failed.  The cases of the [switch] exclude one another; reading
    [message] of an absent [error] throws.  The debug line of the
    [undefined] case is left out. *)
Definition toString (this : outcome) : JsError + string :=
  match reason this with
  | None => inr (url this)
  | Some r =>
      if String.eqb r "error" then
        match error this with
        | Some e => inr (url this ++ " => " ++ message e)%string
        | None => inl (TypeError "Cannot read property 'message' of undefined")
        end
      else if String.eqb r "statusCode" then
        inr (url this ++ " => " ++ template_number (statusCode this))%string
      else inr (url this ++ " => " ++ r)%string
  end.

(** The headers [checkFunction] gives every probe of a run. *)
Definition run_headers (requestID : option string) : object :=
  [("User-Agent", "Mozilla/5.0 (compatible) Healthchecks http://broadly.com");
   ("X-Request-Id", if truthy requestID then template requestID else "")].

(** ** An executable reading of the platform's [url] module

    [parse], [resolve] and [format] on plain URLs: an optional scheme,
    an optional [//host[:port]] and a path, without credentials, query,
    fragment, backslashes, white space or dot segments.  This is what
    the checks file and the redirects of the examples below contain.
    The statement on redirects to a relative path is made on this
    reading, for the host names it finds: that of a check URL written
    as [scheme//host] and a path, and that of a relative path resolved
    against the synthetic base.  The other general statements do not
    depend on it. *)

Module NodeUrl.

Definition is_digit (c : ascii) : bool :=
  let n := nat_of_ascii c in ((48 <=? n) && (n <=? 57))%nat.

Definition is_scheme_char (c : ascii) : bool :=
  let n := nat_of_ascii c in
  (((48 <=? n) && (n <=? 57)) || ((65 <=? n) && (n <=? 90))
   || ((97 <=? n) && (n <=? 122))
   || (n =? 43) || (n =? 45) || (n =? 46))%nat.

Definition lower (c : ascii) : ascii :=
  let n := nat_of_ascii c in
  if ((65 <=? n) && (n <=? 90))%nat then ascii_of_nat (n + 32) else c.

Fixpoint toLowerCase (s : string) : string :=
  match s with
  | EmptyString => EmptyString
  | String c s' => String (lower c) (toLowerCase s')
  end.

Definition nonempty (s : string) : option string :=
  match s with
  | EmptyString => None
  | _ => Some s
  end.

(** The scheme with its colon, and what follows it. *)
Definition split_scheme (s : string) : option (string * string) :=
  match take_while is_scheme_char s, drop_while is_scheme_char s with
  | String c p, String ":" rest => Some ((toLowerCase (String c p) ++ ":")%string, rest)
  | _, _ => None
  end.

(** [host] into [hostname] and [port]: the port is the run of digits
    after the last colon. *)
Definition split_port (h : string) : string * option string :=
  let r := rev_string h in
  match drop_while is_digit r with
  | String ":" name => (rev_string name, nonempty (rev_string (take_while is_digit r)))
  | _ => (h, None)
  end.

Definition not_slash (c : ascii) : bool := negb (Ascii.eqb c "/").

(** A URL that starts with its authority: [//host[:port]path]. *)
Definition parse_authority (proto : option string) (after : string) : Url :=
  let h := toLowerCase (take_while not_slash after) in
  let p := drop_while not_slash after in
  let (name, port) := split_port h in
  let pathname := match p, name with
                  | EmptyString, String _ _ => Some "/"
                  | _, _ => nonempty p
                  end in
  mkUrl proto (Some name) (Some h) port pathname pathname.

(** [URL.parse(s)] *)
Definition parse (s : string) : Url :=
  match split_scheme s with
  | Some (proto, String "/" (String "/" after)) =>
      parse_authority (Some proto) after
  | Some (proto, rest) =>
      mkUrl (Some proto) None None None (nonempty rest) (nonempty rest)
  | None => mkUrl None None None None (nonempty s) (nonempty s)
  end.

(** [URL.resolve(from, to)]: an absolute URL stands for itself, [//]
    keeps the scheme of [from], [/] keeps its scheme and host, and
    anything else is appended to the directory of [from]. *)
Definition resolve (from to : string) : string :=
  let base := parse from in
  let origin := (template (protocol base) ++ "//" ++ template (host base))%string in
  match split_scheme to with
  | Some _ => to
  | None =>
      match to with
      | String "/" (String "/" _) => (template (protocol base) ++ to)%string
      | String "/" _ => (origin ++ to)%string
      | _ =>
          let dir := rev_string (drop_while not_slash
                                   (rev_string (template (pathname base)))) in
          (origin ++ dir ++ to)%string
      end
  end.

(** [URL.format({ protocol, hostname, port })] *)
Definition format (protocol hostname port : string) : string :=
  (protocol ++ "//" ++ hostname ++ ":" ++ port)%string.

(** [URL.parse] throws on credentials it cannot decode; the URLs of
    this reading have none. *)
Definition parse_throws (s : string) : option JsError := None.

End NodeUrl.

(** ** Concrete platforms

    Servers whose state is the number of requests answered so far, run
    behind the local address [http://127.0.0.1:5000]. *)

Module Scenario.

Definition local_server : string := NodeUrl.format "http:" "127.0.0.1" "5000".

Definition resolver : option string -> JsError + Url :=
  loopbackResolve NodeUrl.parse NodeUrl.resolve local_server.

Definition clock (n : nat) : Z := Z.of_nat n.

Definition pretty (ns : Z) : string :=
  if (ns <? 1000)%Z then "under 1 microsecond" else "1 microsecond or more".

Definition redirect_to (target : string) : response :=
  mkResponse 302 [("location", target)] "".

Definition ok (body : string) : response := mkResponse 200 [] body.

(** A target that redirects to itself. *)
Definition self_redirect (req : request) (timeout : Z) (n : nat)
  : net_event * nat :=
  (OnResponse (redirect_to "/loop"), S n).

(** Ten redirects to itself, then a redirect to another domain. *)
Definition leaves_after_10 (req : request) (timeout : Z) (n : nat)
  : net_event * nat :=
  (OnResponse (if (n <? 10)%nat then redirect_to "/loop"
               else redirect_to "http://evil.example/"), S n).

(** A redirect to another domain. *)
Definition leaves_at_once (req : request) (timeout : Z) (n : nat)
  : net_event * nat :=
  (OnResponse (redirect_to "http://evil.example/"), S n).

(** A redirect to a URL that has no host. *)
Definition script_redirect (req : request) (timeout : Z) (n : nat)
  : net_event * nat :=
  (OnResponse (redirect_to "javascript:void(0)"), S n).

(** A redirect to a relative path, then a page. *)
Definition relative_redirect (req : request) (timeout : Z) (n : nat)
  : net_event * nat :=
  (OnResponse (if (n =? 0)%nat then redirect_to "/y" else ok "moved here"), S n).

(** A server on which [/status] answers, [/down] is unavailable and
    [/slow] never answers. *)
Definition three_pages (req : request) (timeout : Z) (n : nat)
  : net_event * nat :=
  match req_path req with
  | Some "/status" => (OnResponse (ok "200 OK"), S n)
  | Some "/down" => (OnResponse (mkResponse 503 [] "unavailable"), S n)
  | _ => (TimerFirst, S n)
  end.

Definition LF : string := String "010" EmptyString.

(** A checks file with three checks, and one with a URL of another
    scheme. *)
Definition checks_file : string :=
  ("/status 200 OK" ++ LF ++ "# the pages of the shop" ++ LF ++ "/down" ++ LF
   ++ "timeout=3s" ++ LF ++ "/slow" ++ LF)%string.

Definition bad_checks_file : string :=
  ("/status 200 OK" ++ LF ++ "ftp://files.example.com/status" ++ LF)%string.

(** A check URL whose credentials cannot be decoded, a checks file
    that holds it, and [URL.parse] throwing on it: a [URIError], an
    error without a code, with the message [URI malformed]. *)
Definition undecodable : string := "http://%@example.com/status".

Definition undecodable_checks_file : string :=
  ("/status 200 OK" ++ LF ++ undecodable ++ LF ++ "status" ++ LF)%string.

Definition parse_throws (s : string) : option JsError :=
  if String.eqb s undecodable then Some (Error None "URI malformed") else None.

Definition files (filename : string) : JsError + string :=
  if String.eqb filename "./checks" then inr checks_file
  else if String.eqb filename "./bad" then inr bad_checks_file
  else if String.eqb filename "./undecodable" then inr undecodable_checks_file
  else inl (Error (Some "ENOENT") "no such file or directory").

Definition three_checks : context :=
  mkContext [("/status", ["200 OK"]); ("/down", []); ("/slow", [])]
            DEFAULT_TIMEOUT.

(** One run of the three checks. *)
Definition run : (JsError + passedAndFailed) * nat :=
  checkFunction three_pages clock pretty NodeUrl.parse NodeUrl.resolve
                three_checks local_server None 0.

Definition passing (u : string) : outcome :=
  mkOutcome u "1 ms" [] None None None (Some 200%Z) (Some "").

Definition failing (u : string) : outcome :=
  mkOutcome u "1 ms" [] (Some "statusCode") None None (Some 503%Z) (Some "").

Definition some_outcomes : list outcome :=
  [passing "/b"; failing "/d"; passing "/a"; failing "/c"].

Definition same_outcomes : list outcome :=
  [failing "/c"; passing "/a"; passing "/b"; failing "/d"].

End Scenario.

(** ** Vocabulary of the statements *)

Unset Implicit Arguments.

(** [text] occurs in [body]. *)
Definition contains (body text : string) : Prop :=
  exists pre post, body = (pre ++ text ++ post)%string.

(** [s] ends with [t]. *)
Definition has_suffix (s t : string) : Prop :=
  exists pre, s = (pre ++ t)%string.

(** The decision order of the classifier as its description words it:
    a timeout, else any other error, else a status outside 200..399,
    else an expected text missing from the body, else a pass (no
    reason). *)
Inductive spec_reason (args : OutcomeArgs) : option string -> Prop :=
| reason_timeout e :
    args_error args = Some e -> code e = Some "ETIMEDOUT" ->
    spec_reason args (Some "timeout")
| reason_error e :
    args_error args = Some e -> code e <> Some "ETIMEDOUT" ->
    spec_reason args (Some "error")
| reason_statusCode :
    args_error args = None ->
    (args_statusCode args < 200 \/ args_statusCode args >= 400)%Z ->
    spec_reason args (Some "statusCode")
| reason_body text :
    args_error args = None ->
    (200 <= args_statusCode args < 400)%Z ->
    In text (args_expected args) -> ~ contains (args_body args) text ->
    spec_reason args (Some "body")
| reason_none :
    args_error args = None ->
    (200 <= args_statusCode args < 400)%Z ->
    (forall text, In text (args_expected args) -> contains (args_body args) text) ->
    spec_reason args None.

(** The reasons a constructed outcome can carry. *)
Definition failure_reasons : list string := ["error"; "timeout"; "statusCode"; "body"].

(** The request [runCheck] builds for a resolved URL. *)
Definition probe_request (headers : object) (loopbackURL : Url) (proto : string)
  : request :=
  mkRequest (host loopbackURL) (port loopbackURL) (path loopbackURL)
    (Object_assign headers
       [("Host", template (hostname loopbackURL));
        ("X-Forwarded-Proto", strip_colon proto)]).

(** [headers.location] *)
Definition location (r : response) : option string :=
  get_prop (res_headers r) "location".

Definition too_many_redirects : JsError := Error None "too many redirects".

(** The chain of probes of one check.  [last_probe url k w last k' r w']:
    starting at [url] in the world [w] with [k] redirects followed,
    every probe but the last is answered by a redirect followed below
    the bound to a URL within the domain of the URL probed; the last
    probe, with [k'] redirects followed, is that of a URL that resolves
    to [last], and the network answers it with [r], leaving [w']. *)
Inductive last_probe {World : Type}
          (HTTP_get : request -> Z -> World -> net_event * World)
          (headers : object) (resolver : option string -> JsError + Url)
          (timeout : Z)
  : option string -> nat -> World -> Url -> nat -> response -> World -> Prop :=
| last_probe_here (url : option string) (k : nat) (w : World)
                  (loopbackURL : Url) (proto : string) (r : response) (w1 : World) :
    resolver url = inr loopbackURL ->
    protocol loopbackURL = Some proto ->
    HTTP_get (probe_request headers loopbackURL proto) timeout w
    = (OnResponse r, w1) ->
    last_probe HTTP_get headers resolver timeout url k w loopbackURL k r w1
| last_probe_after (url : option string) (k : nat) (w : World)
                   (loopbackURL : Url) (proto : string) (r0 : response)
                   (w1 : World) (target last : Url) (k' : nat) (r : response)
                   (w2 : World) :
    resolver url = inr loopbackURL ->
    protocol loopbackURL = Some proto ->
    HTTP_get (probe_request headers loopbackURL proto) timeout w
    = (OnResponse r0, w1) ->
    In (res_statusCode r0) REDIRECT_STATUSES ->
    k < MAX_REDIRECT_COUNT ->
    resolver (location r0) = inr target ->
    withinSameDomain target loopbackURL = inr true ->
    last_probe HTTP_get headers resolver timeout (location r0) (k + 1) w1
               last k' r w2 ->
    last_probe HTTP_get headers resolver timeout url k w last k' r w2.

(** The network seen with a log of the requests put to it. *)
Definition logged {World : Type}
           (HTTP_get : request -> Z -> World -> net_event * World)
           (req : request) (timeout : Z) (wl : World * list request)
  : net_event * (World * list request) :=
  let (ev, w') := HTTP_get req timeout (fst wl) in
  (ev, (w', snd wl ++ [req])).

(** Lexicographic order on strings, by code unit. *)
Inductive lex_lt : string -> string -> Prop :=
| lex_lt_nil c s : lex_lt EmptyString (String c s)
| lex_lt_head c d s t :
    nat_of_ascii c < nat_of_ascii d -> lex_lt (String c s) (String d t)
| lex_lt_tail c s t : lex_lt s t -> lex_lt (String c s) (String c t).

Definition lex_le (a b : string) : Prop := lex_lt a b \/ a = b.

(** Outcomes in ascending order of their [url]. *)
Definition url_le (a b : outcome) : Prop := lex_le (url a) (url b).

(** An outcome made by the constructor for a given check. *)
Definition outcome_of (hrTime : Z -> string) (entry : string * list string)
           (o : outcome) : Prop :=
  exists args, o = Outcome hrTime args /\
               args_url args = fst entry /\ args_expected args = snd entry.

(** What the loader asks of a check URL, in the words of its
    description: the URL parses with a pathname that starts with a
    slash, and a scheme, when one is declared, is HTTP or HTTPS. *)
Definition valid_check_url (u : Url) : Prop :=
  (exists rest, pathname u = Some (String "/" rest)) /\
  (forall p, protocol u = Some p -> p <> "" -> p = "http:" \/ p = "https:").

Definition is_assertion (e : JsError) : Prop := exists m, e = AssertionError m.

(** The synthetic base every URL is resolved against, for a server at
    the address [server]. *)
Definition synthetic_base (URL_parse : string -> Url) (server : string) : string :=
  (template (protocol (URL_parse server)) ++ "//localhost/")%string.

(** Every character of a text satisfies [p]. *)
Fixpoint all_chars (p : ascii -> bool) (s : string) : bool :=
  match s with
  | EmptyString => true
  | String c s' => p c && all_chars p s'
  end.






(** The distinct texts of a list, in the order of their first
    occurrence. *)
Fixpoint first_occurrences (l : list string) : list string :=
  match l with
  | [] => []
  | x :: l' => x :: filter (fun y => negb (String.eqb y x)) (first_occurrences l')
  end.

(** The expected texts the lines of the checks file give for one URL:
    those that are not empty, in the order of the lines. *)
Definition texts_of (u : string) (cs : list check) : list string :=
  filter (fun t => negb (String.eqb t ""))
         (map check_expected (filter (fun c => String.eqb (check_url c) u) cs)).

(** The clock of a logged network. *)
Definition logged_clock {World : Type} (hrtime : World -> Z)
           (wl : World * list request) : Z :=
  hrtime (fst wl).

(** A request of a run against the server at [server]: it goes to the
    local address and port, asks for the path of some URL resolved
    against the synthetic base, names the logical host of that URL in
    its [Host] header, and carries the two headers of the run. *)
Definition local_probe (URL_parse : string -> Url)
           (URL_resolve : string -> string -> string)
           (server : string) (requestID : option string) (req : request) : Prop :=
  req_host req = hostname (URL_parse server) /\
  req_port req = port (URL_parse server) /\
  (exists u,
      let absoluteURL :=
        URL_parse (URL_resolve (synthetic_base URL_parse server) u) in
      req_path req = path absoluteURL /\
      get_prop (req_headers req) "Host" = Some (template (hostname absoluteURL))) /\
  get_prop (req_headers req) "User-Agent"
  = Some "Mozilla/5.0 (compatible) Healthchecks http://broadly.com" /\
  get_prop (req_headers req) "X-Request-Id"
  = Some (if truthy requestID then template requestID else "").

(** The outcome [checkFunction] makes of the way a probe ended: from
    the response when the promise of [runCheck] is resolved, from the
    error when it is rejected. *)
Definition probe_outcome (hrTime : Z -> string) (entry : string * list string)
           (res : async response) (o : outcome) : Prop :=
  match res with
  | Resolves r =>
      exists elapsed,
        o = Outcome hrTime (mkArgs (fst entry) (snd entry) (res_statusCode r)
                                   (res_body r) None elapsed)
  | Rejects e =>
      exists elapsed,
        o = Outcome hrTime (mkArgs (fst entry) (snd entry) 0 "" (Some e) elapsed)
  | Throws _ => False
  end.

(** The keys a list of URLs adds to the keys already seen. *)
Fixpoint new_keys (seen l : list string) : list string :=
  match l with
  | [] => []
  | x :: l' =>
      if existsb (fun k => String.eqb k x) seen then new_keys seen l'
      else x :: new_keys (seen ++ [x]) l'
  end.

(** A character that is not a line break. *)
Definition no_newline (c : ascii) : bool := negb (is_newline c).

(** * Properties *)

(** ** Strings: what [indexOf] and [endsWith] decide *)

Section StringFacts.

Lemma append_nil_r (s : string) : (s ++ "")%string = s.
Proof. induction s; simpl; congruence. Qed.

Lemma append_assoc (a b c : string) :
  ((a ++ b) ++ c)%string = (a ++ (b ++ c))%string.
Proof. induction a; simpl; congruence. Qed.

Lemma length_append (a b : string) :
  String.length (a ++ b) = String.length a + String.length b.
Proof. induction a; simpl; congruence. Qed.

Lemma prefix_iff (t b : string) :
  String.prefix t b = true <-> exists post, b = (t ++ post)%string.
Proof.
  revert b; induction t as [|c t IH]; intros b; simpl.
  - destruct b; split; eauto.
  - destruct b as [|d b]; simpl.
    + split; [discriminate | intros [post H]; discriminate].
    + destruct (ascii_dec c d) as [->|Hne].
      * rewrite IH. split; intros [post H]; exists post; congruence.
      * split; [discriminate | intros [post H]; congruence].
Qed.

Lemma contains_cons (c : ascii) (body text : string) :
  contains (String c body) text <->
  String.prefix text (String c body) = true \/ contains body text.
Proof.
  split.
  - intros [pre [post H]]. destruct pre as [|d pre]; simpl in H.
    + left. apply prefix_iff. eauto.
    + right. injection H as _ H. exists pre, post. exact H.
  - intros [H | [pre [post H]]].
    + apply prefix_iff in H as [post H]. exists EmptyString, post. exact H.
    + exists (String c pre), post. simpl. congruence.
Qed.

Lemma contains_nil (text : string) :
  contains EmptyString text <-> String.prefix text EmptyString = true.
Proof.
  split.
  - intros [pre [post H]]. destruct pre; [|discriminate].
    apply prefix_iff. eauto.
  - intros H. apply prefix_iff in H as [post H]. exists EmptyString, post. exact H.
Qed.

(** [indexOf] answers [-1] exactly when the text does not occur. *)
Lemma indexOf_from_spec (text body : string) (i : Z) :
  (0 <= i)%Z ->
  (indexOf_from body text i = (-1)%Z /\ ~ contains body text) \/
  ((i <= indexOf_from body text i)%Z /\ contains body text).
Proof.
  revert i; induction body as [|c body IH]; intros i Hi; cbn [indexOf_from].
  - destruct (String.prefix text EmptyString) eqn:Hp.
    + right. split; [lia | now apply contains_nil].
    + left. split; [reflexivity|]. rewrite contains_nil. congruence.
  - destruct (String.prefix text (String c body)) eqn:Hp.
    + right. split; [lia | apply contains_cons; now left].
    + destruct (IH (i + 1)%Z ltac:(lia)) as [[He Hn] | [Hle Hc]].
      * left. split; [exact He|]. rewrite contains_cons. intros [H|H]; congruence.
      * right. split; [lia | apply contains_cons; now right].
Qed.

Lemma indexOf_truthy (body text : string) :
  truthy_num (Z.lnot (indexOf body text)) = true <-> contains body text.
Proof.
  unfold truthy_num, indexOf, Z.lnot.
  destruct (indexOf_from_spec text body 0%Z ltac:(lia)) as [[He Hn] | [Hle Hc]].
  - rewrite He. simpl. split; [discriminate | tauto].
  - split; [tauto | intros _]. apply negb_true_iff, Z.eqb_neq. lia.
Qed.

Lemma substring_suffix (pre t : string) :
  String.substring (String.length pre) (String.length t) (pre ++ t) = t.
Proof.
  induction pre as [|c pre IH]; simpl.
  - induction t as [|d t IHt]; simpl; congruence.
  - exact IH.
Qed.

Lemma substring_split (n m : nat) (s : string) :
  String.length s = n + m ->
  exists pre, s = (pre ++ String.substring n m s)%string.
Proof.
  revert s; induction n as [|n IH]; intros s Hlen.
  - exists EmptyString. simpl in *. revert m Hlen.
    induction s as [|c s IHs]; intros [|m] Hlen; simpl in *;
      try discriminate; try reflexivity.
    f_equal. apply IHs. lia.
  - destruct s as [|c s]; simpl in *; [discriminate|].
    destruct (IH s ltac:(lia)) as [pre Hpre].
    exists (String c pre). simpl. congruence.
Qed.

(** [endsWith] decides [has_suffix]. *)
Lemma endsWith_iff (s t : string) :
  endsWith s t = true <-> has_suffix s t.
Proof.
  unfold endsWith, has_suffix. split.
  - destruct (Z.ltb_spec (Z.of_nat (String.length s) - Z.of_nat (String.length t)) 0)
      as [Hlt|Hge]; [discriminate|].
    intros H. apply String.eqb_eq in H.
    destruct (substring_split
                (Z.to_nat (Z.of_nat (String.length s) - Z.of_nat (String.length t)))
                (String.length t) s ltac:(lia)) as [pre Hpre].
    exists pre. congruence.
  - intros [pre ->]. rewrite length_append.
    destruct (Z.ltb_spec (Z.of_nat (String.length pre + String.length t)
                          - Z.of_nat (String.length t)) 0) as [Hlt|Hge]; [lia|].
    replace (Z.to_nat (Z.of_nat (String.length pre + String.length t)
                       - Z.of_nat (String.length t))) with (String.length pre) by lia.
    rewrite substring_suffix. apply String.eqb_refl.
Qed.

Lemma all_chars_app (p : ascii -> bool) (a b : string) :
  all_chars p (a ++ b) = all_chars p a && all_chars p b.
Proof.
  induction a as [|c a IH]; simpl; [reflexivity|].
  now rewrite IH, andb_assoc.
Qed.

Lemma all_chars_rev (p : ascii -> bool) (s : string) :
  all_chars p (rev_string s) = all_chars p s.
Proof.
  induction s as [|c s IH]; simpl; [reflexivity|].
  rewrite all_chars_app, IH. simpl. rewrite andb_true_r. apply andb_comm.
Qed.

Lemma all_chars_drop_while (p q : ascii -> bool) (s : string) :
  all_chars p s = true -> all_chars p (drop_while q s) = true.
Proof.
  induction s as [|c s IH]; simpl; [auto|].
  intros H. apply andb_true_iff in H as [Hc Hs].
  destruct (q c); [auto|]. simpl. now rewrite Hc, Hs.
Qed.

End StringFacts.

(** ** The outcome classifier *)

Lemma strict_eq_Some_iff (a : option string) (s : string) :
  strict_eq a (Some s) = true <-> a = Some s.
Proof.
  destruct a as [x|]; simpl.
  - rewrite String.eqb_eq. split; congruence.
  - split; discriminate.
Qed.

Lemma every_matching_iff (body : string) (expected : list string) :
  every (fun text => truthy_num (Z.lnot (indexOf body text))) expected = true <->
  forall text, In text expected -> contains body text.
Proof.
  unfold every. rewrite forallb_forall.
  split; intros H text Hin; apply indexOf_truthy; auto.
Qed.

Lemma some_not_matching (body : string) (expected : list string) :
  every (fun text => truthy_num (Z.lnot (indexOf body text))) expected = false ->
  exists text, In text expected /\ ~ contains body text.
Proof.
  unfold every. induction expected as [|t l IH]; simpl; [discriminate|].
  destruct (truthy_num (Z.lnot (indexOf body t))) eqn:Ht; simpl.
  - intros H. destruct (IH H) as [text [Hin Hn]]. exists text. auto.
  - intros _. exists t. split; [now left|].
    rewrite <- indexOf_truthy. congruence.
Qed.

(** The reason the constructor sets, branch by branch. *)
Lemma Outcome_reason (hrTime : Z -> string) (args : OutcomeArgs) :
  reason (Outcome hrTime args) =
  match args_error args with
  | Some e => if strict_eq (code e) (Some "ETIMEDOUT")
              then Some "timeout" else Some "error"
  | None =>
      if ((args_statusCode args <? 200) || (args_statusCode args >=? 400))%Z
      then Some "statusCode"
      else if every (fun text =>
                       truthy_num (Z.lnot (indexOf (args_body args) text)))
                    (args_expected args)
           then None else Some "body"
  end.
Proof.
  unfold Outcome. destruct (args_error args) as [e|].
  - destruct (strict_eq (code e) (Some "ETIMEDOUT")); reflexivity.
  - destruct ((args_statusCode args <? 200) || (args_statusCode args >=? 400))%Z;
      [reflexivity|].
    destruct (every _ (args_expected args)); reflexivity.
Qed.

Lemma status_out_of_range (c : Z) :
  ((c <? 200) || (c >=? 400))%Z = true <-> (c < 200 \/ c >= 400)%Z.
Proof.
  rewrite orb_true_iff, Z.ltb_lt, Z.geb_le. lia.
Qed.

(** The reason set by the constructor is the one the decision order
    prescribes, and the only one. *)
Lemma Outcome_spec_reason (hrTime : Z -> string) (args : OutcomeArgs) :
  spec_reason args (reason (Outcome hrTime args)) /\
  (forall r, spec_reason args r -> r = reason (Outcome hrTime args)).
Proof.
  rewrite Outcome_reason.
  destruct (args_error args) as [e|] eqn:He.
  - destruct (strict_eq (code e) (Some "ETIMEDOUT")) eqn:Hc.
    + apply strict_eq_Some_iff in Hc. split.
      * eapply reason_timeout; eauto.
      * intros r Hr. inversion Hr; subst; congruence.
    + assert (Hn : code e <> Some "ETIMEDOUT").
      { intros H. apply strict_eq_Some_iff in H. congruence. }
      split.
      * eapply reason_error; eauto.
      * intros r Hr. inversion Hr; subst; congruence.
  - destruct ((args_statusCode args <? 200) || (args_statusCode args >=? 400))%Z eqn:Hs.
    + apply status_out_of_range in Hs. split.
      * now apply reason_statusCode.
      * intros r Hr. inversion Hr; subst; try congruence; lia.
    + assert (Hin : (200 <= args_statusCode args < 400)%Z).
      { destruct (Z.ltb_spec (args_statusCode args) 200);
          destruct (Z.geb_spec (args_statusCode args) 400);
          simpl in Hs; try discriminate; lia. }
      destruct (every _ (args_expected args)) eqn:Hm.
      * rewrite every_matching_iff in Hm. split.
        -- now apply reason_none.
        -- intros r Hr. inversion Hr; subst; try congruence; try lia.
           exfalso. eauto.
      * apply some_not_matching in Hm as Hex. destruct Hex as [text [Ht Hn]].
        split.
        -- eapply reason_body; eauto.
        -- intros r Hr. inversion Hr; subst; try congruence; try lia.
           exfalso. eauto.
Qed.

Lemma Outcome_reason_cases (hrTime : Z -> string) (args : OutcomeArgs) :
  reason (Outcome hrTime args) = None \/
  exists s, reason (Outcome hrTime args) = Some s /\ In s failure_reasons.
Proof.
  rewrite Outcome_reason. unfold failure_reasons.
  destruct (args_error args) as [e|].
  - destruct (strict_eq _ _); right; eexists; split; simpl; eauto.
  - destruct (_ || _)%bool; [right; eexists; split; simpl; eauto|].
    destruct (every _ _); [now left|].
    right; eexists; split; simpl; eauto 6.
Qed.

(** C1.  The classifier is total and follows the decision order: for
    every input the reason set by [Outcome] is the one the order
    prescribes (timeout before any other error, an error before the
    status, the status before the body, no reason for a pass), and it is
    the only one. *)
Theorem Outcome_reason_follows_decision_order :
  forall (hrTime : Z -> string) (args : OutcomeArgs),
    spec_reason args (reason (Outcome hrTime args)) /\
    (forall r, spec_reason args r -> r = reason (Outcome hrTime args)) /\
    In (reason (Outcome hrTime args))
       [None; Some "error"; Some "timeout"; Some "statusCode"; Some "body"].
Proof.
  intros hrTime args.
  destruct (Outcome_spec_reason hrTime args) as [H1 H2].
  split; [exact H1|]. split; [exact H2|].
  destruct (Outcome_reason_cases hrTime args) as [E|[s [E Hs]]]; rewrite E.
  - simpl; auto.
  - unfold failure_reasons in Hs. simpl in Hs.
    destruct Hs as [<-|[<-|[<-|[<-|[]]]]]; simpl; auto 6.
Qed.

(** ** The same-domain predicate *)

Lemma withinSameDomain_hosts (from to : Url) (a b : string) :
  hostname from = Some a -> hostname to = Some b ->
  withinSameDomain from to =
  inr (String.eqb a b || endsWith a ("." ++ b) || endsWith b ("." ++ a)).
Proof.
  intros Ha Hb. unfold withinSameDomain. rewrite Ha, Hb. simpl.
  destruct (String.eqb a b); [reflexivity|].
  destruct (endsWith a _); reflexivity.
Qed.

(** C6.  Two hosts are within the same domain exactly when they are
    equal or one ends with a dot followed by the other; the predicate
    takes the same value in both directions. *)
Theorem withinSameDomain_iff_equal_or_dot_suffix :
  forall (from to : Url) (a b : string),
    hostname from = Some a -> hostname to = Some b ->
    (withinSameDomain from to = inr true <->
     a = b \/ has_suffix a ("." ++ b) \/ has_suffix b ("." ++ a)) /\
    (exists r, withinSameDomain from to = inr r) /\
    withinSameDomain from to = withinSameDomain to from.
Proof.
  intros from to a b Ha Hb.
  rewrite (withinSameDomain_hosts from to a b Ha Hb).
  rewrite (withinSameDomain_hosts to from b a Hb Ha).
  split; [|split].
  - rewrite <- !endsWith_iff, <- String.eqb_eq.
    split.
    + intros H. injection H as H. rewrite !orb_true_iff in H. tauto.
    + intros H. f_equal. rewrite !orb_true_iff. tauto.
  - eauto.
  - f_equal. rewrite (String.eqb_sym b a).
    destruct (String.eqb a b), (endsWith a ("." ++ b)), (endsWith b ("." ++ a));
      reflexivity.
Qed.

Lemma withinSameDomain_iff_equal_or_dot_suffix_witness :
  let from := mkUrl (Some "http:") (Some "a.b.com") None None (Some "/") (Some "/") in
  let to := mkUrl (Some "http:") (Some "b.com") None None (Some "/") (Some "/") in
  withinSameDomain from to = inr true /\
  withinSameDomain from to = withinSameDomain to from.
Proof.
  intros from to.
  destruct (withinSameDomain_iff_equal_or_dot_suffix from to "a.b.com" "b.com"
              eq_refl eq_refl) as [Hiff [_ Hsym]].
  split; [|exact Hsym].
  apply Hiff. right. left. exists "a". reflexivity.
Defined.

(** ** The probe runner *)

Lemma isRedirect_iff (c : Z) :
  truthy_num (Z.lnot (Array_indexOf REDIRECT_STATUSES c)) = true <->
  In c REDIRECT_STATUSES.
Proof.
  unfold REDIRECT_STATUSES, Array_indexOf. cbn [Array_indexOf_from In].
  destruct (Z.eqb_spec 301 c) as [<-|H1]; [split; auto|].
  destruct (Z.eqb_spec 302 c) as [<-|H2]; [split; auto|].
  destruct (Z.eqb_spec 303 c) as [<-|H3]; [split; auto|].
  destruct (Z.eqb_spec 307 c) as [<-|H4]; [split; auto 6|].
  simpl. split; [discriminate | tauto].
Qed.

Section RunCheck.

Variable World : Type.
Variable HTTP_get : request -> Z -> World -> net_event * World.
Variable headers : object.
Variable resolver : option string -> JsError + Url.
Variable timeout : Z.

(** One step of [runCheck] when the URL resolves and the request is
    answered. *)
Lemma runCheck_on_response (url : option string) (redirects : option nat)
      (w w1 : World) (loopbackURL : Url) (proto : string) (r : response) :
  resolver url = inr loopbackURL ->
  protocol loopbackURL = Some proto ->
  get HTTP_get (probe_request headers loopbackURL proto) timeout w = (inr r, w1) ->
  runCheck HTTP_get url headers resolver timeout redirects w =
  if truthy_num (Z.lnot (Array_indexOf REDIRECT_STATUSES (res_statusCode r))) then
    if (MAX_REDIRECT_COUNT <=? redirects_or_0 redirects)%nat
    then (Rejects too_many_redirects, w1)
    else match resolver (location r) with
         | inl e => (Rejects e, w1)
         | inr target =>
             match withinSameDomain target loopbackURL with
             | inl e => (Rejects e, w1)
             | inr true =>
                 let (res, w2) :=
                   runCheck HTTP_get (location r) headers resolver timeout
                            (Some (redirects_or_0 redirects + 1)) w1 in
                 (in_then res, w2)
             | inr false => (Resolves r, w1)
             end
         end
  else (Resolves r, w1).
Proof.
  intros Hres Hproto Hget.
  rewrite runCheck_equation_1. cbv zeta.
  rewrite Hres, Hproto.
  change (mkRequest _ _ _ _) with (probe_request headers loopbackURL proto).
  rewrite Hget.
  destruct (truthy_num _); [|reflexivity].
  destruct (le_lt_dec MAX_REDIRECT_COUNT (redirects_or_0 redirects)) as [Hle|Hlt].
  - apply Nat.leb_le in Hle. rewrite Hle. reflexivity.
  - apply Nat.leb_gt in Hlt. rewrite Hlt. reflexivity.
Qed.

(** C3 (amended).  A redirect whose target is not within the same
    domain is never followed: the world after the call is the world
    right after the one request.  Below the redirect bound the
    redirect response itself is the result; at the bound the call
    fails with "too many redirects". *)
Theorem runCheck_cross_domain_redirect_not_followed :
  forall (url : option string) (redirects : option nat) (w w1 : World)
         (loopbackURL target : Url) (proto : string) (r : response),
    resolver url = inr loopbackURL ->
    protocol loopbackURL = Some proto ->
    get HTTP_get (probe_request headers loopbackURL proto) timeout w = (inr r, w1) ->
    In (res_statusCode r) REDIRECT_STATUSES ->
    resolver (location r) = inr target ->
    withinSameDomain target loopbackURL = inr false ->
    runCheck HTTP_get url headers resolver timeout redirects w =
    if (redirects_or_0 redirects <? MAX_REDIRECT_COUNT)%nat
    then (Resolves r, w1)
    else (Rejects too_many_redirects, w1).
Proof.
  intros url redirects w w1 loopbackURL target proto r
         Hres Hproto Hget Hstatus Htarget Hcross.
  rewrite (runCheck_on_response url redirects w w1 loopbackURL proto r Hres Hproto Hget).
  apply isRedirect_iff in Hstatus. rewrite Hstatus, Htarget, Hcross.
  rewrite Nat.ltb_antisym. destruct (MAX_REDIRECT_COUNT <=? _)%nat; reflexivity.
Qed.

End RunCheck.

Lemma get_logged {World : Type}
      (HTTP_get : request -> Z -> World -> net_event * World)
      (req : request) (timeout : Z) (w : World) (log : list request) :
  get (logged HTTP_get) req timeout (w, log) =
  (fst (get HTTP_get req timeout w),
   (snd (get HTTP_get req timeout w), log ++ [req])).
Proof.
  unfold get, logged. simpl.
  destruct (HTTP_get req timeout w) as [[e|r|] w']; reflexivity.
Qed.

Section LoggedRuns.

Variable World : Type.
Variable HTTP_get : request -> Z -> World -> net_event * World.
Variable headers : object.
Variable resolver : option string -> JsError + Url.
Variable timeout : Z.

(** Keeping a log does not change a run: same result, same world. *)
Lemma runCheck_logged (redirects : option nat) :
  forall (url : option string) (w : World) (log : list request),
    fst (runCheck (logged HTTP_get) url headers resolver timeout redirects (w, log))
    = fst (runCheck HTTP_get url headers resolver timeout redirects w) /\
    fst (snd (runCheck (logged HTTP_get) url headers resolver timeout redirects
                       (w, log)))
    = snd (runCheck HTTP_get url headers resolver timeout redirects w).
Proof.
  remember (MAX_REDIRECT_COUNT - redirects_or_0 redirects) as n eqn:Hn.
  revert redirects Hn.
  induction n as [n IH] using lt_wf_ind. intros redirects Hn url w log.
  rewrite !runCheck_equation_1. cbv zeta.
  destruct (resolver url) as [e|loopbackURL]; [split; reflexivity|].
  destruct (protocol loopbackURL) as [proto|]; [|split; reflexivity].
  rewrite get_logged.
  set (req := mkRequest _ _ _ _).
  destruct (get HTTP_get req timeout w) as [[e|r] w1]; cbn [fst snd];
    [split; reflexivity|].
  destruct (truthy_num _); [|split; reflexivity].
  destruct (le_lt_dec MAX_REDIRECT_COUNT (redirects_or_0 redirects)) as [Hle|Hlt];
    [split; reflexivity|].
  destruct (resolver (get_prop (res_headers r) "location")) as [e|target];
    [split; reflexivity|].
  destruct (withinSameDomain target loopbackURL) as [e|[|]];
    try (split; reflexivity).
  destruct (IH (MAX_REDIRECT_COUNT - (redirects_or_0 redirects + 1))
               ltac:(lia) (Some (redirects_or_0 redirects + 1)) eq_refl
               (get_prop (res_headers r) "location") w1 (log ++ [req]))
    as [Hres Hworld].
  destruct (runCheck (logged HTTP_get) _ _ _ _ _ _) as [res [w2 log2]].
  destruct (runCheck HTTP_get _ _ _ _ _ _) as [res' w2'].
  cbn [fst snd] in *. subst. split; reflexivity.
Qed.

End LoggedRuns.

Section RequestBound.

Variable World : Type.
Variable HTTP_get : request -> Z -> World -> net_event * World.
Variable headers : object.
Variable resolver : option string -> JsError + Url.
Variable timeout : Z.

(** X6.  Whatever the network answers, one call of [runCheck] with
    its counter at [k] puts at most [MAX_REDIRECT_COUNT + 1 - k]
    requests (one when the counter is already past the bound). *)
Lemma runCheck_requests_bounded (redirects : option nat) :
  forall (url : option string) (w : World) (log : list request),
  exists reqs,
    snd (snd (runCheck (logged HTTP_get) url headers resolver timeout redirects
                       (w, log))) = log ++ reqs /\
    length reqs <= S (MAX_REDIRECT_COUNT - redirects_or_0 redirects).
Proof.
  remember (MAX_REDIRECT_COUNT - redirects_or_0 redirects) as n eqn:Hn.
  revert redirects Hn.
  induction n as [n IH] using lt_wf_ind. intros redirects Hn url w log.
  rewrite runCheck_equation_1. cbv zeta.
  destruct (resolver url) as [e|loopbackURL];
    [exists []; rewrite app_nil_r; simpl; split; [reflexivity | lia]|].
  destruct (protocol loopbackURL) as [proto|];
    [|exists []; rewrite app_nil_r; simpl; split; [reflexivity | lia]].
  rewrite get_logged.
  set (req := mkRequest _ _ _ _).
  destruct (get HTTP_get req timeout w) as [[e|r] w1]; cbn [fst snd];
    [exists [req]; simpl; split; [reflexivity | lia]|].
  destruct (truthy_num _);
    [|exists [req]; simpl; split; [reflexivity | lia]].
  destruct (le_lt_dec MAX_REDIRECT_COUNT (redirects_or_0 redirects)) as [Hle|Hlt];
    [exists [req]; simpl; split; [reflexivity | lia]|].
  destruct (resolver (get_prop (res_headers r) "location")) as [e|target];
    [exists [req]; simpl; split; [reflexivity | lia]|].
  destruct (withinSameDomain target loopbackURL) as [e|[|]];
    try (exists [req]; simpl; split; [reflexivity | lia]).
  destruct (IH (MAX_REDIRECT_COUNT - (redirects_or_0 redirects + 1))
               ltac:(lia) (Some (redirects_or_0 redirects + 1)) eq_refl
               (get_prop (res_headers r) "location") w1 (log ++ [req]))
    as [reqs [Hlog Hlen]].
  destruct (runCheck _ _ _ _ _ _ _) as [res [w2 log2]].
  cbn [fst snd] in *. exists (req :: reqs). split.
  - rewrite Hlog, <- app_assoc. reflexivity.
  - cbn [length]. subst n. lia.
Qed.

End RequestBound.

Section RedirectLoop.

Variable World : Type.
Variable HTTP_get : request -> Z -> World -> net_event * World.
Variable headers : object.
Variable resolver : option string -> JsError + Url.
Variable timeout : Z.

(** The URLs of a probe chain made of same-domain redirects only:
    each of them resolves, and each request for one of them is
    answered by a redirect to another of them, within the same
    domain. *)
Variable chain : option string -> Prop.

Hypothesis chain_resolves :
  forall u, chain u ->
    exists loopbackURL proto,
      resolver u = inr loopbackURL /\ protocol loopbackURL = Some proto.

Hypothesis chain_redirects :
  forall u loopbackURL proto w,
    chain u -> resolver u = inr loopbackURL ->
    protocol loopbackURL = Some proto ->
    exists r w1 target,
      HTTP_get (probe_request headers loopbackURL proto) timeout w
      = (OnResponse r, w1) /\
      In (res_statusCode r) REDIRECT_STATUSES /\
      chain (location r) /\
      resolver (location r) = inr target /\
      withinSameDomain target loopbackURL = inr true.

Lemma redirect_loop_from (n : nat) :
  forall (redirects : option nat) (u : option string) (w : World)
         (log : list request),
    MAX_REDIRECT_COUNT - redirects_or_0 redirects = n ->
    redirects_or_0 redirects <= MAX_REDIRECT_COUNT ->
    chain u ->
    exists w' reqs,
      runCheck (logged HTTP_get) u headers resolver timeout redirects (w, log)
      = (Rejects too_many_redirects, (w', log ++ reqs)) /\
      length reqs = S n.
Proof.
  induction n as [|n IH]; intros redirects u w log Hn Hle Hu;
    destruct (chain_resolves u Hu) as [lb [proto [Hres Hproto]]];
    destruct (chain_redirects u lb proto w Hu Hres Hproto)
      as [r [w1 [target [Hget [Hst [Hnext [Htarget Hsame]]]]]]];
    apply isRedirect_iff in Hst;
    rewrite (runCheck_on_response _ (logged HTTP_get) headers resolver timeout
               u redirects (w, log) (w1, log ++ [probe_request headers lb proto])
               lb proto r Hres Hproto)
      by (rewrite get_logged; unfold get; rewrite Hget; reflexivity);
    rewrite Hst.
  - assert (Hb : (MAX_REDIRECT_COUNT <=? redirects_or_0 redirects)%nat = true)
      by (apply Nat.leb_le; lia).
    rewrite Hb. exists w1, [probe_request headers lb proto]. split; reflexivity.
  - assert (Hb : (MAX_REDIRECT_COUNT <=? redirects_or_0 redirects)%nat = false)
      by (apply Nat.leb_gt; lia).
    rewrite Hb, Htarget, Hsame.
    assert (Hn' : MAX_REDIRECT_COUNT
                  - redirects_or_0 (Some (redirects_or_0 redirects + 1)) = n)
      by (cbn [redirects_or_0]; lia).
    assert (Hle' : redirects_or_0 (Some (redirects_or_0 redirects + 1))
                   <= MAX_REDIRECT_COUNT)
      by (cbn [redirects_or_0]; lia).
    destruct (IH (Some (redirects_or_0 redirects + 1)) (location r) w1
                 (log ++ [probe_request headers lb proto]) Hn' Hle' Hnext)
      as [w' [reqs [Hrun Hlen]]].
    cbn [redirects_or_0] in Hrun. rewrite Hrun. cbn [in_then].
    exists w', (probe_request headers lb proto :: reqs). split.
    + rewrite <- app_assoc. reflexivity.
    + simpl. lia.
Qed.

(** C2.  A check whose probe chain consists only of same-domain
    redirects ends: started with its counter at 0, [runCheck] puts
    exactly [MAX_REDIRECT_COUNT + 1 = 11] requests, the first and the
    10 redirects it follows, and the redirect that answers the last one
    makes it fail with "too many redirects". *)
Theorem runCheck_redirect_loop_fails_after_10_hops :
  forall (u : option string) (w : World),
    chain u ->
    exists w' reqs,
      runCheck (logged HTTP_get) u headers resolver timeout None (w, [])
      = (Rejects too_many_redirects, (w', reqs)) /\
      runCheck HTTP_get u headers resolver timeout None w
      = (Rejects too_many_redirects, w') /\
      length reqs = MAX_REDIRECT_COUNT + 1 /\
      MAX_REDIRECT_COUNT = 10.
Proof.
  intros u w Hu.
  destruct (redirect_loop_from MAX_REDIRECT_COUNT None u w [] eq_refl
                               ltac:(simpl; unfold MAX_REDIRECT_COUNT; lia) Hu)
    as [w' [reqs [Hrun Hlen]]].
  exists w', reqs. simpl in Hrun.
  destruct (runCheck_logged World HTTP_get headers resolver timeout None u w [])
    as [Hres Hworld].
  rewrite Hrun in Hres, Hworld. cbn [fst snd] in Hres, Hworld.
  split; [exact Hrun|]. split.
  - destruct (runCheck HTTP_get u headers resolver timeout None w) as [res w2].
    cbn [fst snd] in Hres, Hworld. congruence.
  - split; [|reflexivity].
    rewrite Hlen. unfold MAX_REDIRECT_COUNT. reflexivity.
Qed.

End RedirectLoop.

Lemma runCheck_redirect_loop_fails_after_10_hops_witness :
  exists w' reqs,
    runCheck (logged Scenario.self_redirect) (Some "/loop") []
             Scenario.resolver DEFAULT_TIMEOUT None (0, [])
    = (Rejects too_many_redirects, (w', reqs)) /\
    runCheck Scenario.self_redirect (Some "/loop") []
             Scenario.resolver DEFAULT_TIMEOUT None 0
    = (Rejects too_many_redirects, w') /\
    length reqs = MAX_REDIRECT_COUNT + 1 /\
    MAX_REDIRECT_COUNT = 10.
Proof.
  apply (runCheck_redirect_loop_fails_after_10_hops
           nat Scenario.self_redirect [] Scenario.resolver DEFAULT_TIMEOUT
           (fun u => u = Some "/loop")).
  - intros u ->. eexists. eexists. split; vm_compute; reflexivity.
  - intros u lb proto w -> Hres Hproto.
    exists (Scenario.redirect_to "/loop"), (S w).
    vm_compute in Hres. injection Hres as <-.
    eexists. split; [reflexivity|].
    split; [vm_compute; auto|].
    split; [reflexivity|].
    split; vm_compute; reflexivity.
  - reflexivity.
Defined.

Lemma runCheck_cross_domain_redirect_not_followed_witness :
  runCheck Scenario.leaves_at_once (Some "/status") [] Scenario.resolver
           DEFAULT_TIMEOUT None 0
  = (Resolves (Scenario.redirect_to "http://evil.example/"), 1).
Proof.
  apply (runCheck_cross_domain_redirect_not_followed
           nat Scenario.leaves_at_once [] Scenario.resolver DEFAULT_TIMEOUT
           (Some "/status") None 0 1
           (mkUrl (Some "http:") (Some "localhost") (Some "127.0.0.1") (Some "5000")
                  (Some "/status") (Some "/status"))
           (mkUrl (Some "http:") (Some "evil.example") (Some "127.0.0.1")
                  (Some "5000") (Some "/") (Some "/"))
           "http:" (Scenario.redirect_to "http://evil.example/")).
  - vm_compute. reflexivity.
  - reflexivity.
  - vm_compute. reflexivity.
  - vm_compute. auto.
  - vm_compute. reflexivity.
  - vm_compute. reflexivity.
Defined.

(** C3, as first stated, fails at the redirect bound: after ten
    redirects within the domain, the eleventh response is a redirect to
    another domain, and the check ends with "too many redirects" (an
    outcome of reason [error]) instead of that response. *)
Lemma runCheck_cross_domain_redirect_at_bound_counterexample :
  fst (Scenario.leaves_after_10
         (mkRequest None None None []) DEFAULT_TIMEOUT 10)
  = OnResponse (Scenario.redirect_to "http://evil.example/") /\
  In (res_statusCode (Scenario.redirect_to "http://evil.example/"))
     REDIRECT_STATUSES /\
  (exists target loopbackURL,
      Scenario.resolver (location (Scenario.redirect_to "http://evil.example/"))
      = inr target /\
      Scenario.resolver (Some "/loop") = inr loopbackURL /\
      withinSameDomain target loopbackURL = inr false) /\
  runCheck Scenario.leaves_after_10 (Some "/loop") [] Scenario.resolver
           DEFAULT_TIMEOUT None 0
  = (Rejects too_many_redirects, 11) /\
  fst (runCheck Scenario.leaves_after_10 (Some "/loop") [] Scenario.resolver
                DEFAULT_TIMEOUT None 0)
  <> Resolves (Scenario.redirect_to "http://evil.example/") /\
  option_map (map reason)
    (match fst (checkFunction Scenario.leaves_after_10 Scenario.clock
                  Scenario.pretty NodeUrl.parse NodeUrl.resolve
                  (mkContext [("/loop", [])] DEFAULT_TIMEOUT)
                  Scenario.local_server None 0) with
     | inr pf => Some (failed pf)
     | inl _ => None
     end)
  = Some [Some "error"].
Proof.
  split; [reflexivity|].
  split; [vm_compute; auto|].
  split; [eexists; eexists; repeat split; vm_compute; reflexivity|].
  split; [vm_compute; reflexivity|].
  split; [vm_compute; discriminate|].
  vm_compute; reflexivity.
Qed.

(** ** The loopback resolver and relative redirects *)


Section LoopbackResolve.

Variable World : Type.
Variable HTTP_get : request -> Z -> World -> net_event * World.
Variable URL_parse : string -> Url.
Variable URL_resolve : string -> string -> string.
Variable headers : object.
Variable timeout : Z.

(** The local address of the server, as [checkFunction] receives it. *)
Variable server : string.

Lemma loopbackResolve_string (relativeURL : string) :
  loopbackResolve URL_parse URL_resolve server (Some relativeURL) =
  let absoluteURL :=
    URL_parse (URL_resolve (synthetic_base URL_parse server) relativeURL) in
  inr (mkUrl (protocol absoluteURL) (hostname absoluteURL)
             (hostname (URL_parse server)) (port (URL_parse server))
             (pathname absoluteURL) (path absoluteURL)).
Proof. reflexivity. Qed.



End LoopbackResolve.

(** *** The [url] module on check URLs written in full and on relative
    paths *)

Section UrlFacts.











End UrlFacts.

Section RelativeRedirect.

Variable World : Type.
Variable HTTP_get : request -> Z -> World -> net_event * World.
Variable headers : object.
Variable timeout : Z.

(** The local address of the server, as [checkFunction] receives it
    from the middleware: its scheme is that of the request. *)
Variable server : string.


End RelativeRedirect.



(** ** Order of strings and the sort of the report *)

Section Order.

Lemma nat_of_ascii_inj (c d : ascii) : nat_of_ascii c = nat_of_ascii d -> c = d.
Proof.
  intros H. rewrite <- (ascii_nat_embedding c), <- (ascii_nat_embedding d).
  now rewrite H.
Qed.

Lemma string_lt_iff (a b : string) : string_lt a b = true <-> lex_lt a b.
Proof.
  revert b; induction a as [|c a IH]; intros [|d b]; simpl.
  - split; [discriminate | inversion 1].
  - split; [constructor | reflexivity].
  - split; [discriminate | inversion 1].
  - destruct (Nat.ltb_spec (nat_of_ascii c) (nat_of_ascii d)) as [Hlt|Hge].
    + split; [intros _; now apply lex_lt_head | reflexivity].
    + destruct (Nat.ltb_spec (nat_of_ascii d) (nat_of_ascii c)) as [Hgt|Hle].
      * split; [discriminate|]. inversion 1; subst; lia.
      * assert (c = d) by (apply nat_of_ascii_inj; lia). subst d.
        rewrite IH. split; [apply lex_lt_tail|].
        inversion 1; subst; [lia | assumption].
Qed.

Lemma lex_lt_irrefl (a : string) : ~ lex_lt a a.
Proof. induction a; inversion 1; subst; [lia | auto]. Qed.

Lemma lex_lt_trans (a b c : string) : lex_lt a b -> lex_lt b c -> lex_lt a c.
Proof.
  intros Hab; revert c; induction Hab as [c s|c d s t Hcd|c s t Hst IH];
    intros c' Hbc; inversion Hbc; subst.
  - constructor.
  - constructor.
  - apply lex_lt_head. lia.
  - now apply lex_lt_head.
  - now apply lex_lt_head.
  - apply lex_lt_tail. auto.
Qed.

Lemma lex_total (a b : string) : lex_lt a b \/ a = b \/ lex_lt b a.
Proof.
  revert b; induction a as [|c a IH]; intros [|d b].
  - auto.
  - left; constructor.
  - right; right; constructor.
  - destruct (Nat.lt_trichotomy (nat_of_ascii c) (nat_of_ascii d)) as [H|[H|H]].
    + left; now apply lex_lt_head.
    + apply nat_of_ascii_inj in H; subst d.
      destruct (IH b) as [H|[H|H]].
      * left; now apply lex_lt_tail.
      * right; left; congruence.
      * right; right; now apply lex_lt_tail.
    + right; right; now apply lex_lt_head.
Qed.

Lemma lex_le_trans (a b c : string) : lex_le a b -> lex_le b c -> lex_le a c.
Proof.
  intros [H1| ->] [H2| ->]; unfold lex_le; eauto using lex_lt_trans.
Qed.

Lemma lex_le_antisym (a b : string) : lex_le a b -> lex_le b a -> a = b.
Proof.
  intros [H1| ->] [H2|H2]; auto.
  exfalso. exact (lex_lt_irrefl a (lex_lt_trans a b a H1 H2)).
Qed.

(** The comparer answers at most 0 exactly when the first URL is not
    after the second. *)
Lemma compareProperty_url_le (a b : outcome) :
  (compareProperty url a b <=? 0)%Z = true <-> url_le a b.
Proof.
  unfold compareProperty, url_le, lex_le.
  destruct (string_lt (url a) (url b)) eqn:Hab.
  - apply string_lt_iff in Hab. split; auto.
  - destruct (string_lt (url b) (url a)) eqn:Hba.
    + apply string_lt_iff in Hba. split; [discriminate|].
      intros [H|E].
      * exfalso. exact (lex_lt_irrefl _ (lex_lt_trans _ _ _ H Hba)).
      * exfalso. rewrite E in Hba. exact (lex_lt_irrefl _ Hba).
    + split; [intros _ | reflexivity].
      destruct (lex_total (url a) (url b)) as [H|[H|H]]; auto.
      apply string_lt_iff in H. congruence.
Qed.

Lemma compareProperty_url_gt (a b : outcome) :
  (compareProperty url a b <=? 0)%Z = false -> url_le b a.
Proof.
  intros H. destruct (lex_total (url a) (url b)) as [Hlt|[Heq|Hgt]].
  - assert (url_le a b) by (left; exact Hlt).
    apply compareProperty_url_le in H0. congruence.
  - right. congruence.
  - left. exact Hgt.
Qed.

End Order.

Section Sort.

Variable A : Type.
Variable comparefn : A -> A -> Z.

Lemma sort_insert_perm (x : A) (l : list A) :
  Permutation (sort_insert comparefn x l) (x :: l).
Proof.
  induction l as [|y l IH]; simpl; [reflexivity|].
  destruct (comparefn x y <=? 0)%Z; [reflexivity|].
  rewrite IH. apply perm_swap.
Qed.

Lemma Array_sort_perm (l : list A) : Permutation (Array_sort comparefn l) l.
Proof.
  induction l as [|x l IH]; simpl; [reflexivity|].
  rewrite sort_insert_perm. now constructor.
Qed.

Lemma Array_sort_length (l : list A) : length (Array_sort comparefn l) = length l.
Proof. apply Permutation_length, Array_sort_perm. Qed.

Variable le : A -> A -> Prop.
Hypothesis comparefn_le : forall a b, (comparefn a b <=? 0)%Z = true -> le a b.
Hypothesis comparefn_gt : forall a b, (comparefn a b <=? 0)%Z = false -> le b a.
Hypothesis le_trans : forall a b c, le a b -> le b c -> le a c.

Lemma sort_insert_sorted (x : A) (l : list A) :
  StronglySorted le l -> StronglySorted le (sort_insert comparefn x l).
Proof.
  induction l as [|y l IH]; intros Hs; simpl.
  - constructor; constructor.
  - destruct (comparefn x y <=? 0)%Z eqn:Hc.
    + constructor; [exact Hs|].
      inversion Hs; subst. constructor; [now apply comparefn_le|].
      eapply Forall_impl; [|eassumption]. intros z Hz.
      eapply le_trans; [apply comparefn_le|]; eassumption.
    + inversion Hs; subst. constructor; [now apply IH|].
      eapply Permutation_Forall; [symmetry; apply sort_insert_perm|].
      constructor; [now apply comparefn_gt | assumption].
Qed.

Lemma Array_sort_sorted (l : list A) : StronglySorted le (Array_sort comparefn l).
Proof.
  induction l as [|x l IH]; simpl; [constructor|].
  now apply sort_insert_sorted.
Qed.

(** Two sorted lists with the same elements are equal when the order
    tells the elements apart. *)
Lemma sorted_perm_unique (l1 l2 : list A) :
  (forall x y, In x l1 -> In y l1 -> le x y -> le y x -> x = y) ->
  StronglySorted le l1 -> StronglySorted le l2 -> Permutation l1 l2 ->
  l1 = l2.
Proof.
  revert l2; induction l1 as [|x l1 IH]; intros l2 Hanti S1 S2 P.
  - apply Permutation_nil in P. congruence.
  - destruct l2 as [|y l2].
    + symmetry in P. apply Permutation_nil in P. discriminate.
    + inversion S1 as [|? ? S1' F1]; inversion S2 as [|? ? S2' F2]; subst.
      assert (Hxy : x = y).
      { assert (Hx : In x (y :: l2))
          by (eapply Permutation_in; [exact P | now left]).
        assert (Hy : In y (x :: l1))
          by (eapply Permutation_in; [symmetry; exact P | now left]).
        destruct Hx as [->|Hx]; [reflexivity|].
        destruct Hy as [->|Hy]; [reflexivity|].
        rewrite Forall_forall in F1, F2.
        symmetry. apply Hanti; simpl; auto. }
      subst y. f_equal. apply IH; auto.
      * intros a b Ha Hb. apply Hanti; simpl; auto.
      * eapply Permutation_cons_inv; eassumption.
Qed.

End Sort.

(** ** Outcomes of a run *)

Lemma Outcome_url (hrTime : Z -> string) (args : OutcomeArgs) :
  url (Outcome hrTime args) = args_url args.
Proof.
  unfold Outcome. destruct (args_error args) as [e|].
  - destruct (strict_eq (code e) (Some "ETIMEDOUT")); reflexivity.
  - destruct ((args_statusCode args <? 200) || (args_statusCode args >=? 400))%Z;
      [reflexivity|].
    destruct (negb _); reflexivity.
Qed.

Section Runs.

Variable World : Type.
Variable HTTP_get : request -> Z -> World -> net_event * World.
Variable hrtime : World -> Z.
Variable hrTime : Z -> string.
Variable URL_parse : string -> Url.
Variable URL_resolve : string -> string -> string.

(** A run that ends has made one outcome per check, in the order of
    the registry. *)
Lemma allChecks_outcomes (server : string) (requestID : option string)
      (timeout : Z) :
  forall (checks : registry) (w w' : World) (outcomes : list outcome),
    allChecks HTTP_get hrtime hrTime URL_parse URL_resolve
              server requestID timeout checks w = (inr outcomes, w') ->
    Forall2 (outcome_of hrTime) checks outcomes.
Proof.
  induction checks as [|[checkURL expected] checks IH]; intros w w' outcomes H.
  - simpl in H. injection H as <- _. constructor.
  - cbn [allChecks] in H.
    destruct (runCheck _ _ _ _ _ _ _) as [[e|e|r] w1].
    + discriminate.
    + destruct (allChecks _ _ _ _ _ _ _ _ checks w1) as [[e'|rest] w2] eqn:Hrest;
        [discriminate|].
      injection H as <- _. constructor; [|eapply IH; eassumption].
      eexists; split; [reflexivity|]; split; reflexivity.
    + destruct (allChecks _ _ _ _ _ _ _ _ checks w1) as [[e'|rest] w2] eqn:Hrest;
        [discriminate|].
      injection H as <- _. constructor; [|eapply IH; eassumption].
      eexists; split; [reflexivity|]; split; reflexivity.
Qed.

End Runs.

Section ListFacts.

Variable A : Type.

Lemma filter_perm (f : A -> bool) (l l' : list A) :
  Permutation l l' -> Permutation (filter f l) (filter f l').
Proof.
  induction 1 as [|x l l' _ IH|x y l|l l' l'' _ IH1 _ IH2]; simpl.
  - constructor.
  - destruct (f x); [now constructor | exact IH].
  - destruct (f x), (f y); try reflexivity. apply perm_swap.
  - now rewrite IH1.
Qed.

Lemma filter_split_perm (f : A -> bool) (l : list A) :
  Permutation (filter (fun x => negb (f x)) l ++ filter f l) l.
Proof.
  induction l as [|x l IH]; simpl; [constructor|].
  destruct (f x); simpl.
  - rewrite <- Permutation_middle. now constructor.
  - now constructor.
Qed.

Lemma filter_split_length (f : A -> bool) (l : list A) :
  length (filter (fun x => negb (f x)) l) + length (filter f l) = length l.
Proof.
  rewrite <- length_app. apply Permutation_length, filter_split_perm.
Qed.

Lemma filter_disjoint (f : A -> bool) (l : list A) (x : A) :
  In x (filter (fun x => negb (f x)) l) -> In x (filter f l) -> False.
Proof.
  rewrite !filter_In. intros [_ H1] [_ H2]. rewrite H2 in H1. discriminate.
Qed.

Lemma NoDup_map_filter {B : Type} (g : A -> B) (f : A -> bool) (l : list A) :
  NoDup (map g l) -> NoDup (map g (filter f l)).
Proof.
  induction l as [|x l IH]; simpl; intros H; [constructor|].
  inversion H as [|? ? Hnin Hnd]; subst.
  destruct (f x); simpl; [|now apply IH].
  constructor; [|now apply IH].
  intros Hin. apply Hnin. apply in_map_iff in Hin as [y [Hy Hin]].
  apply filter_In in Hin as [Hin _]. apply in_map_iff. eauto.
Qed.

Lemma NoDup_map_inj {B : Type} (g : A -> B) (l : list A) (x y : A) :
  NoDup (map g l) -> In x l -> In y l -> g x = g y -> x = y.
Proof.
  induction l as [|z l IH]; simpl; intros H Hx Hy E; [contradiction|].
  inversion H as [|? ? Hnin Hnd]; subst.
  destruct Hx as [->|Hx], Hy as [->|Hy]; auto.
  - exfalso. apply Hnin. rewrite E. now apply in_map.
  - exfalso. apply Hnin. rewrite <- E. now apply in_map.
Qed.

Lemma StronglySorted_map (R : A -> A -> Prop) (h : A -> A) (l : list A) :
  (forall a b, R a b -> R (h a) (h b)) ->
  StronglySorted R l -> StronglySorted R (map h l).
Proof.
  intros Hh. induction 1 as [|x l _ IH F]; simpl; constructor; auto.
  rewrite Forall_forall in *. intros y Hy.
  apply in_map_iff in Hy as [z [<- Hz]]. auto.
Qed.

End ListFacts.

Lemma url_le_trans (a b c : outcome) : url_le a b -> url_le b c -> url_le a c.
Proof. unfold url_le. apply lex_le_trans. Qed.

(** The sort of the middleware orders outcomes by URL. *)
Lemma sort_by_url_sorted (l : list outcome) :
  StronglySorted url_le (Array_sort (compareProperty url) l).
Proof.
  apply Array_sort_sorted.
  - intros a b. apply compareProperty_url_le.
  - apply compareProperty_url_gt.
  - apply url_le_trans.
Qed.

(** With URLs all different, the sorted list depends on the outcomes
    only, not on the order they came in. *)
Lemma sort_by_url_unique (l l' : list outcome) :
  NoDup (map url l) -> Permutation l l' ->
  Array_sort (compareProperty url) l = Array_sort (compareProperty url) l'.
Proof.
  intros Hnd Hp.
  apply (sorted_perm_unique outcome url_le).
  - intros x y Hx Hy Hxy Hyx.
    apply (NoDup_map_inj outcome url l); auto.
    + eapply Permutation_in; [apply Array_sort_perm | exact Hx].
    + eapply Permutation_in; [apply Array_sort_perm | exact Hy].
    + now apply lex_le_antisym.
  - apply sort_by_url_sorted.
  - apply sort_by_url_sorted.
  - rewrite !Array_sort_perm. exact Hp.
Qed.

(** ** The report *)

(** C4.  The status of the report is 500 when the failed list is not
    empty, else 200 when the passed list is not empty, else 404; this
    holds of the lists handed to [statusCodeFromOutcomes], of the lists
    [checkFunction] resolved with and of the lists of the report. *)
Theorem statusCode_500_else_200_else_404 :
  forall (World : Type) (HTTP_get : request -> Z -> World -> net_event * World)
         (hrtime : World -> Z) (hrTime : Z -> string)
         (URL_parse : string -> Url) (URL_resolve : string -> string -> string)
         (URL_format : string -> string -> string -> string)
         (timeout : Z) (req : incoming) (w : World)
         (useJSON : bool) (outcomes : passedAndFailed),
    (forall passed failed,
        statusCodeFromOutcomes passed failed =
        match failed, passed with
        | _ :: _, _ => 500
        | [], _ :: _ => 200
        | [], [] => 404
        end%Z) /\
    rep_statusCode (respond useJSON outcomes) =
    match failed outcomes, passed outcomes with
    | _ :: _, _ => 500
    | [], _ :: _ => 200
    | [], [] => 404
    end%Z /\
    rep_statusCode (respond useJSON outcomes) =
    match rep_failed (respond useJSON outcomes),
          rep_passed (respond useJSON outcomes) with
    | _ :: _, _ => 500
    | [], _ :: _ => 200
    | [], [] => 404
    end%Z /\
    middleware HTTP_get hrtime hrTime URL_parse URL_resolve URL_format
               (mkContext [] timeout) useJSON req w
    = (inr (mkReport 404 [] []), w).
Proof.
  intros World HTTP_get hrtime hrTime URL_parse URL_resolve URL_format
         timeout req w useJSON outcomes.
  assert (Hcode : forall passed failed,
             statusCodeFromOutcomes passed failed =
             match failed, passed with
             | _ :: _, _ => 500
             | [], _ :: _ => 200
             | [], [] => 404
             end%Z).
  { intros [|p passed] [|f failed]; reflexivity. }
  assert (Hshape : forall (l : list outcome),
             match Array_sort (compareProperty url) l, l with
             | [], [] | _ :: _, _ :: _ => True
             | _, _ => False
             end).
  { intros l. pose proof (Array_sort_length outcome (compareProperty url) l) as H.
    destruct (Array_sort (compareProperty url) l), l; simpl in H;
      try discriminate; exact I. }
  split; [exact Hcode|].
  rewrite <- and_assoc. split; [|destruct useJSON; reflexivity].
  pose proof (Hshape (passed outcomes)) as Hp.
  pose proof (Hshape (failed outcomes)) as Hf.
  unfold respond. rewrite Hcode.
  destruct (Array_sort (compareProperty url) (passed outcomes)),
           (passed outcomes); try contradiction;
    destruct (Array_sort (compareProperty url) (failed outcomes)),
             (failed outcomes); try contradiction;
    destruct useJSON; split; reflexivity.
Qed.

Lemma Forall2_outcome_urls (hrTime : Z -> string) (checks : registry)
      (outcomes : list outcome) :
  Forall2 (outcome_of hrTime) checks outcomes ->
  map url outcomes = Object_keys checks.
Proof.
  induction 1 as [|entry o checks outcomes Ho _ IH]; simpl; [reflexivity|].
  destruct Ho as [args [-> [Hu _]]].
  rewrite Outcome_url, Hu, IH. reflexivity.
Qed.

Lemma Forall2_outcome_reasons (hrTime : Z -> string) (checks : registry)
      (outcomes : list outcome) :
  Forall2 (outcome_of hrTime) checks outcomes ->
  forall o, In o outcomes ->
    reason o = None \/ exists s, reason o = Some s /\ In s failure_reasons.
Proof.
  induction 1 as [|entry o' checks outcomes Ho _ IH]; simpl; [contradiction|].
  destruct Ho as [args [-> _]].
  intros o [<-|Hin]; auto using Outcome_reason_cases.
Qed.

Lemma failure_reason_truthy (s : string) :
  In s failure_reasons -> truthy (Some s) = true /\ s <> "" /\ s <> "none".
Proof.
  unfold failure_reasons. simpl.
  intros [<-|[<-|[<-|[<-|[]]]]]; repeat split; discriminate.
Qed.

(** On a constructed outcome, [reason] is falsy exactly when it is
    absent. *)
Lemma truthy_reason_iff (o : outcome) :
  (reason o = None \/ exists s, reason o = Some s /\ In s failure_reasons) ->
  (negb (truthy (reason o)) = true <-> reason o = None) /\
  (truthy (reason o) = true <->
   exists s, reason o = Some s /\ In s failure_reasons).
Proof.
  intros [H|[s [H Hs]]]; rewrite H.
  - simpl. split; split; auto; try discriminate.
    intros [s [E _]]. discriminate.
  - destruct (failure_reason_truthy s Hs) as [Ht _]. rewrite Ht. simpl.
    split; split; try discriminate; eauto.
Qed.

Section Reports.

Variable World : Type.
Variable HTTP_get : request -> Z -> World -> net_event * World.
Variable hrtime : World -> Z.
Variable hrTime : Z -> string.
Variable URL_parse : string -> Url.
Variable URL_resolve : string -> string -> string.

Lemma checkFunction_outcomes (this : context) (server : string)
      (requestID : option string) (w w' : World) (pf : passedAndFailed) :
  checkFunction HTTP_get hrtime hrTime URL_parse URL_resolve
                this server requestID w = (inr pf, w') ->
  exists outcomes,
    Forall2 (outcome_of hrTime) (ctx_checks this) outcomes /\
    pf = split_outcomes outcomes.
Proof.
  unfold checkFunction.
  destruct (allChecks _ _ _ _ _ _ _ _ _ _) as [[e|outcomes] w1] eqn:Hall;
    [discriminate|].
  intros H. injection H as <- _. exists outcomes. split; [|reflexivity].
  eapply allChecks_outcomes. exact Hall.
Qed.

(** C5.  In what [checkFunction] resolves with, the passed and the
    failed lists share no outcome, every outcome of the run is in
    exactly one of them (together they are the outcomes of the run,
    one per check of the registry), and their sizes add up to the
    number of checks; passed holds the outcomes without a reason,
    failed those with one of the four failure reasons. *)
Theorem checkFunction_partitions_outcomes :
  forall (this : context) (server : string) (requestID : option string)
         (w w' : World) (pf : passedAndFailed),
    checkFunction HTTP_get hrtime hrTime URL_parse URL_resolve
                  this server requestID w = (inr pf, w') ->
    exists outcomes,
      Forall2 (outcome_of hrTime) (ctx_checks this) outcomes /\
      map url outcomes = Object_keys (ctx_checks this) /\
      Permutation (passed pf ++ failed pf) outcomes /\
      length (passed pf) + length (failed pf)
      = length (Object_keys (ctx_checks this)) /\
      (forall o, In o (passed pf) -> In o (failed pf) -> False) /\
      (forall o, In o outcomes -> In o (passed pf) \/ In o (failed pf)) /\
      (forall o, In o (passed pf) <-> In o outcomes /\ reason o = None) /\
      (forall o, In o (failed pf) <->
                 In o outcomes /\
                 exists s, reason o = Some s /\ In s failure_reasons).
Proof.
  intros this server requestID w w' pf Hrun.
  destruct (checkFunction_outcomes this server requestID w w' pf Hrun)
    as [outcomes [Hall ->]].
  pose proof (Forall2_outcome_reasons hrTime _ _ Hall) as Hreason.
  pose proof (Forall2_outcome_urls hrTime _ _ Hall) as Hurls.
  exists outcomes. unfold split_outcomes; cbn [passed failed].
  split; [exact Hall|]. split; [exact Hurls|].
  split; [apply filter_split_perm|].
  split.
  { rewrite filter_split_length, <- Hurls, length_map. reflexivity. }
  split; [intros o; apply filter_disjoint|].
  split.
  { intros o Hin. rewrite !filter_In.
    destruct (truthy (reason o)); simpl; auto. }
  split; intros o; rewrite filter_In; split.
  - intros [Hin Ht]. split; [exact Hin|].
    now apply (truthy_reason_iff o (Hreason o Hin)).
  - intros [Hin Hr]. split; [exact Hin|].
    now apply (truthy_reason_iff o (Hreason o Hin)).
  - intros [Hin Ht]. split; [exact Hin|].
    now apply (truthy_reason_iff o (Hreason o Hin)).
  - intros [Hin Hr]. split; [exact Hin|].
    now apply (truthy_reason_iff o (Hreason o Hin)).
Qed.

Lemma JSON_keys_reason (o : outcome) :
  In "reason" (JSON_keys o) <-> reason o <> None.
Proof.
  unfold JSON_keys, key_if.
  destruct (reason o), (timeout o), (error o), (statusCode o), (body o);
    simpl; split; intros H; try congruence; try tauto;
    repeat (destruct H as [H|H]; try discriminate); try contradiction.
Qed.

(** C10.  The constructor leaves [reason] absent exactly when the
    check passes and never sets it to ["none"]; [checkFunction] puts an
    outcome in passed exactly when its reason is falsy, which is when
    it is absent, and in failed exactly when it is a non-empty string;
    a passing outcome is written by [JSON.stringify] without a
    [reason] key, a failing one with it. *)
Theorem reason_set_iff_check_failed :
  forall (this : context) (server : string) (requestID : option string)
         (useJSON : bool) (w w' : World) (pf : passedAndFailed),
    checkFunction HTTP_get hrtime hrTime URL_parse URL_resolve
                  this server requestID w = (inr pf, w') ->
    (forall args,
        (reason (Outcome hrTime args) = None <-> spec_reason args None) /\
        reason (Outcome hrTime args) <> Some "none" /\
        reason (Outcome hrTime args) <> Some "") /\
    (exists outcomes,
        Forall2 (outcome_of hrTime) (ctx_checks this) outcomes /\
        passed pf = filter (fun o => negb (truthy (reason o))) outcomes /\
        failed pf = filter (fun o => truthy (reason o)) outcomes) /\
    (forall o, In o (passed pf) ->
               reason o = None /\ truthy (reason o) = false) /\
    (forall o, In o (failed pf) ->
               exists s, reason o = Some s /\ s <> "" /\ truthy (reason o) = true) /\
    (forall o, In o (rep_passed (respond useJSON pf)) ->
               reason o = None /\ ~ In "reason" (JSON_keys o)) /\
    (forall o, In o (rep_failed (respond useJSON pf)) ->
               reason o <> None /\ In "reason" (JSON_keys o)).
Proof.
  intros this server requestID useJSON w w' pf Hrun.
  destruct (checkFunction_outcomes this server requestID w w' pf Hrun)
    as [outcomes [Hall ->]].
  pose proof (Forall2_outcome_reasons hrTime _ _ Hall) as Hreason.
  assert (Hpass : forall o, In o (passed (split_outcomes outcomes)) ->
                            reason o = None /\ truthy (reason o) = false).
  { intros o Hin. cbn [split_outcomes passed] in Hin.
    apply filter_In in Hin as [Hin Ht].
    apply (truthy_reason_iff o (Hreason o Hin)) in Ht as Hr.
    split; [exact Hr|]. now rewrite Hr. }
  assert (Hfail : forall o, In o (failed (split_outcomes outcomes)) ->
              exists s, reason o = Some s /\ s <> "" /\ truthy (reason o) = true).
  { intros o Hin. cbn [split_outcomes failed] in Hin.
    apply filter_In in Hin as [Hin Ht].
    apply (truthy_reason_iff o (Hreason o Hin)) in Ht as Hr.
    destruct Hr as [s [Hs Hin']]. exists s. split; [exact Hs|].
    split; [apply (failure_reason_truthy s Hin') | exact Ht]. }
  split.
  { intros args. split; [|split].
    - destruct (Outcome_spec_reason hrTime args) as [H1 H2].
      split; [intros E; rewrite <- E; exact H1 | intros H; symmetry; now apply H2].
    - destruct (Outcome_reason_cases hrTime args) as [E|[s [E Hs]]]; rewrite E;
        [discriminate|].
      intros H. injection H as ->. now apply failure_reason_truthy in Hs.
    - destruct (Outcome_reason_cases hrTime args) as [E|[s [E Hs]]]; rewrite E;
        [discriminate|].
      intros H. injection H as ->. now apply failure_reason_truthy in Hs. }
  split; [exists outcomes; repeat split; exact Hall|].
  split; [exact Hpass|]. split; [exact Hfail|].
  split; intros o Hin.
  - assert (Hex : exists o', In o' (passed (split_outcomes outcomes)) /\
                            reason o = reason o').
    { unfold respond in Hin. destruct useJSON; cbn [rep_passed] in Hin.
      - unfold removeBodyProp in Hin. apply in_map_iff in Hin as [o' [<- Hin]].
        exists o'. split; [|reflexivity].
        eapply Permutation_in; [apply Array_sort_perm | exact Hin].
      - exists o. split; [|reflexivity].
        eapply Permutation_in; [apply Array_sort_perm | exact Hin]. }
    destruct Hex as [o' [Hin' E]]. destruct (Hpass o' Hin') as [Hr _].
    rewrite JSON_keys_reason, E, Hr. split; [reflexivity | congruence].
  - assert (Hex : exists o', In o' (failed (split_outcomes outcomes)) /\
                            reason o = reason o').
    { unfold respond in Hin. destruct useJSON; cbn [rep_failed] in Hin.
      - unfold removeBodyProp in Hin. apply in_map_iff in Hin as [o' [<- Hin]].
        exists o'. split; [|reflexivity].
        eapply Permutation_in; [apply Array_sort_perm | exact Hin].
      - exists o. split; [|reflexivity].
        eapply Permutation_in; [apply Array_sort_perm | exact Hin]. }
    destruct Hex as [o' [Hin' E]]. destruct (Hfail o' Hin') as [s [Hr _]].
    rewrite JSON_keys_reason, E, Hr. split; discriminate.
Qed.

End Reports.

(** ** The loader *)

Section TrimFacts.

Lemma rev_string_app (a b : string) :
  rev_string (a ++ b) = (rev_string b ++ rev_string a)%string.
Proof.
  induction a as [|c a IH]; simpl.
  - now rewrite append_nil_r.
  - now rewrite IH, append_assoc.
Qed.

Lemma drop_while_head (p : ascii -> bool) (s s' : string) (c : ascii) :
  drop_while p s = String c s' -> p c = false.
Proof.
  induction s as [|d s IH]; simpl; [discriminate|].
  destruct (p d) eqn:Hd; [exact IH|].
  intros H. injection H as <- _. exact Hd.
Qed.

Lemma drop_while_app_last (p : ascii -> bool) (a : string) (c : ascii) :
  p c = false ->
  drop_while p (a ++ String c EmptyString)
  = (drop_while p a ++ String c EmptyString)%string.
Proof.
  intros Hc. induction a as [|d a IH]; simpl.
  - now rewrite Hc.
  - destruct (p d); [exact IH | reflexivity].
Qed.

(** A trimmed line that is not empty starts with a character that is
    not white space. *)
Lemma trim_head (s s' : string) (c : ascii) :
  trim s = String c s' -> is_space c = false.
Proof.
  unfold trim. destruct (drop_while is_space s) as [|d t] eqn:Ht.
  - simpl. discriminate.
  - pose proof (drop_while_head is_space s t d Ht) as Hd.
    cbn [rev_string]. rewrite (drop_while_app_last is_space _ d Hd).
    rewrite rev_string_app. simpl.
    intros H. injection H as <- _. exact Hd.
Qed.

Lemma match_line_head (line : string) (c : ascii) (rest : string) :
  line = String c rest -> is_space c = false ->
  exists chk, match_line line = Some chk.
Proof.
  intros -> Hc. unfold match_line. cbn [take_while]. rewrite Hc. simpl.
  eexists. reflexivity.
Qed.

End TrimFacts.

Section MapThrowing.

Variables A B : Type.
Variable f : A -> JsError + B.

Lemma map_throwing_inr (l : list A) (ys : list B) :
  map_throwing f l = inr ys -> Forall2 (fun x y => f x = inr y) l ys.
Proof.
  revert ys; induction l as [|x l IH]; simpl; intros ys H.
  - injection H as <-. constructor.
  - destruct (f x) as [e|y] eqn:Hx; [discriminate|].
    destruct (map_throwing f l) as [e|ys']; [discriminate|].
    injection H as <-. constructor; auto.
Qed.

Lemma map_throwing_inl (l : list A) (e : JsError) :
  map_throwing f l = inl e -> exists x, In x l /\ f x = inl e.
Proof.
  induction l as [|x l IH]; simpl; [discriminate|].
  destruct (f x) as [e'|y] eqn:Hx.
  - intros H. injection H as <-. eauto.
  - destruct (map_throwing f l) as [e'|ys']; [|discriminate].
    intros H. injection H as <-. destruct (IH eq_refl) as [x' [Hin Hf]]. eauto.
Qed.

Lemma map_throwing_fails (l : list A) (x : A) (e : JsError) :
  In x l -> f x = inl e -> exists e', map_throwing f l = inl e'.
Proof.
  induction l as [|y l IH]; simpl; [contradiction|].
  intros [->|Hin] Hf.
  - rewrite Hf. eauto.
  - destruct (f y); [eauto|].
    destruct (IH Hin Hf) as [e' ->]. eauto.
Qed.

Lemma map_throwing_total (l : list A) :
  (forall x, In x l -> exists y, f x = inr y) ->
  exists ys, map_throwing f l = inr ys.
Proof.
  induction l as [|x l IH]; simpl; intros H; [eauto|].
  destruct (H x (or_introl eq_refl)) as [y ->].
  destruct IH as [ys ->]; eauto.
Qed.

End MapThrowing.

Section Registry.

Lemma memo_set_keys (memo : registry) (u : string) (v : list string) (k : string) :
  In k (Object_keys (memo_set memo u v)) <-> In k (Object_keys memo) \/ k = u.
Proof.
  induction memo as [|[k' v'] memo IH]; simpl.
  - intuition.
  - destruct (String.eqb_spec k' u) as [->|Hne]; simpl.
    + intuition.
    + rewrite IH. intuition.
Qed.

Lemma memo_set_NoDup (memo : registry) (u : string) (v : list string) :
  NoDup (Object_keys memo) -> NoDup (Object_keys (memo_set memo u v)).
Proof.
  induction memo as [|[k' v'] memo IH]; simpl; intros H.
  - constructor; [intros [] | constructor].
  - inversion H as [|? ? Hnin Hnd]; subst.
    destruct (String.eqb_spec k' u) as [->|Hne]; simpl.
    + constructor; assumption.
    + constructor; [|now apply IH].
      rewrite memo_set_keys. intros [Hin|Heq]; [contradiction | congruence].
Qed.

Lemma add_checks_keys (cs : list check) :
  forall (memo : registry) (k : string),
    In k (Object_keys (fold_left add_check cs memo)) <->
    In k (Object_keys memo) \/ In k (map check_url cs).
Proof.
  induction cs as [|c cs IH]; intros memo k; simpl; [intuition|].
  rewrite IH. unfold add_check at 1. rewrite memo_set_keys. intuition.
Qed.

Lemma add_checks_NoDup (cs : list check) :
  forall (memo : registry),
    NoDup (Object_keys memo) -> NoDup (Object_keys (fold_left add_check cs memo)).
Proof.
  induction cs as [|c cs IH]; intros memo H; simpl; [exact H|].
  apply IH. unfold add_check. now apply memo_set_NoDup.
Qed.

End Registry.

Section Errors.

Variable World : Type.
Variable HTTP_get : request -> Z -> World -> net_event * World.
Variable headers : object.
Variable resolver : option string -> JsError + Url.
Variable timeout : Z.

(** A property of errors that holds of what the resolver throws, of
    what the network reports, and of every [TypeError] and [Error]. *)
Variable P : JsError -> Prop.
Hypothesis P_resolver : forall u e, resolver u = inl e -> P e.
Hypothesis P_network :
  forall req t w e w', HTTP_get req t w = (OnError e, w') -> P e.
Hypothesis P_TypeError : forall m, P (TypeError m).
Hypothesis P_Error : forall c m, P (Error c m).

Lemma withinSameDomain_error (a b : Url) (e : JsError) :
  withinSameDomain a b = inl e -> exists m, e = TypeError m.
Proof.
  unfold withinSameDomain. destruct (strict_eq _ _); [discriminate|].
  destruct (hostname a) as [f|]; [|intros H; injection H as <-; eauto].
  destruct (endsWith f _); [discriminate|].
  destruct (hostname b); [discriminate|].
  intros H; injection H as <-; eauto.
Qed.

Lemma get_error (req : request) (w w1 : World) (e : JsError) :
  get HTTP_get req timeout w = (inl e, w1) -> P e.
Proof.
  unfold get. destruct (HTTP_get req timeout w) as [[e'|r|] w'] eqn:H;
    intros E; try discriminate; injection E as <- _; eauto.
Qed.

(** Every error [runCheck] ends with has the property. *)
Lemma runCheck_errors (redirects : option nat) :
  forall (url : option string) (w : World) (e : JsError),
    fst (runCheck HTTP_get url headers resolver timeout redirects w) = Throws e \/
    fst (runCheck HTTP_get url headers resolver timeout redirects w) = Rejects e ->
    P e.
Proof.
  remember (MAX_REDIRECT_COUNT - redirects_or_0 redirects) as n eqn:Hn.
  revert redirects Hn.
  induction n as [n IH] using lt_wf_ind. intros redirects Hn url w e.
  rewrite runCheck_equation_1. cbv zeta.
  destruct (resolver url) as [e0|loopbackURL] eqn:Hres.
  { cbn [fst]. intros [H|H]; [|discriminate]. injection H as <-. eauto. }
  destruct (protocol loopbackURL) as [proto|].
  2:{ cbn [fst]. intros [H|H]; [|discriminate]. injection H as <-. eauto. }
  set (req := mkRequest _ _ _ _).
  destruct (get HTTP_get req timeout w) as [[e0|r] w1] eqn:Hget.
  { cbn [fst]. intros [H|H]; [discriminate|]. injection H as <-.
    eapply get_error; eassumption. }
  destruct (truthy_num _).
  2:{ cbn [fst]. intros [H|H]; discriminate. }
  destruct (le_lt_dec MAX_REDIRECT_COUNT (redirects_or_0 redirects)) as [Hle|Hlt].
  { cbn [fst]. intros [H|H]; [discriminate|]. injection H as <-. eauto. }
  destruct (resolver (get_prop (res_headers r) "location")) as [e0|target] eqn:Ht.
  { cbn [fst]. intros [H|H]; [discriminate|]. injection H as <-. eauto. }
  destruct (withinSameDomain target loopbackURL) as [e0|[|]] eqn:Hsame.
  - cbn [fst]. intros [H|H]; [discriminate|]. injection H as <-.
    apply withinSameDomain_error in Hsame as [m ->]. eauto.
  - pose proof (IH (MAX_REDIRECT_COUNT - (redirects_or_0 redirects + 1))
                   ltac:(lia) (Some (redirects_or_0 redirects + 1)) eq_refl
                   (get_prop (res_headers r) "location") w1) as IH'.
    destruct (runCheck _ _ _ _ _ _ _) as [[e0|e0|r0] w2]; cbn [fst in_then] in *;
      intros [H|H]; try discriminate; injection H as <-; apply IH'; auto.
  - cbn [fst]. intros [H|H]; discriminate.
Qed.

End Errors.

Lemma Outcome_error (hrTime : Z -> string) (args : OutcomeArgs) (e : JsError) :
  error (Outcome hrTime args) = Some e -> args_error args = Some e.
Proof.
  unfold Outcome. destruct (args_error args) as [e0|].
  - destruct (strict_eq _ _); simpl; [discriminate | auto].
  - destruct (_ || _)%bool; simpl; [discriminate|].
    destruct (negb _); simpl; discriminate.
Qed.

Lemma is_http_or_https_iff (p : string) :
  is_http_or_https p = true <-> p = "http:" \/ p = "https:".
Proof.
  unfold is_http_or_https. rewrite orb_true_iff, !String.eqb_eq. reflexivity.
Qed.

Lemma starts_with_slash_iff (p : string) :
  starts_with_slash p = true <-> exists rest, p = String "/" rest.
Proof.
  destruct p as [|c p]; simpl.
  - split; [discriminate | intros [rest H]; discriminate].
  - destruct (Ascii.eqb_spec c "/") as [->|Hne].
    + split; eauto.
    + split.
      * destruct c as [[] [] [] [] [] [] [] []]; try discriminate.
        congruence.
      * intros [rest H]. congruence.
Qed.

Lemma Forall2_In_l {A B : Type} (R : A -> B -> Prop) (l : list A) (l' : list B)
      (x : A) :
  Forall2 R l l' -> In x l -> exists y, In y l' /\ R x y.
Proof.
  induction 1 as [|a b l l' Hab _ IH]; simpl; [contradiction|].
  intros [->|Hin]; [eauto|]. destruct (IH Hin) as [y [Hy Hr]]. eauto.
Qed.

Lemma Forall2_In_r {A B : Type} (R : A -> B -> Prop) (l : list A) (l' : list B)
      (y : B) :
  Forall2 R l l' -> In y l' -> exists x, In x l /\ R x y.
Proof.
  induction 1 as [|a b l l' Hab _ IH]; simpl; [contradiction|].
  intros [->|Hin]; [eauto|]. destruct (IH Hin) as [x [Hx Hr]]. eauto.
Qed.

Section Loader.

Variable World : Type.
Variable HTTP_get : request -> Z -> World -> net_event * World.
Variable hrtime : World -> Z.
Variable hrTime : Z -> string.
Variable URL_parse : string -> Url.
Variable URL_parse_throws : string -> option JsError.
Variable URL_resolve : string -> string -> string.
Variable readFileSync : string -> JsError + string.

Lemma check_lines_match (content line : string) :
  In line (check_lines content) -> exists c, split_check line = inr c.
Proof.
  unfold check_lines. rewrite !filter_In, in_map_iff.
  intros [[[[s [<- _]] Hlen] _] _]. unfold split_check.
  destruct (trim s) as [|c rest] eqn:Ht; [discriminate|].
  destruct (match_line_head (String c rest) c rest eq_refl
                            (trim_head s rest c Ht)) as [chk ->].
  eauto.
Qed.

Lemma split_check_inr (line : string) (c : check) :
  split_check line = inr c <-> match_line line = Some c.
Proof.
  unfold split_check. destruct (match_line line); split; congruence.
Qed.

Lemma validate_cases (c : check) :
  (exists e, URL_parse_throws (check_url c) = Some e /\
             validate URL_parse URL_parse_throws c = inl e) \/
  (URL_parse_throws (check_url c) = None /\
   ((validate URL_parse URL_parse_throws c = inr c /\
     valid_check_url (URL_parse (check_url c))) \/
    ((validate URL_parse URL_parse_throws c
      = inl (AssertionError "Check URL must have absolute pathname") \/
      validate URL_parse URL_parse_throws c
      = inl (AssertionError "Check URL may only use HTTP/S protocol")) /\
     ~ valid_check_url (URL_parse (check_url c))))).
Proof.
  unfold validate, valid_check_url.
  destruct (URL_parse_throws (check_url c)) as [e|]; [left; eauto|].
  right. split; [reflexivity|].
  destruct (pathname (URL_parse (check_url c))) as [p|] eqn:Hp; simpl.
  2:{ right. split; [now left|]. intros [[rest H] _]. discriminate. }
  destruct (starts_with_slash p) eqn:Hs.
  2:{ rewrite andb_false_r. simpl. right. split; [now left|].
      intros [[rest H] _]. injection H as ->. simpl in Hs. discriminate. }
  apply starts_with_slash_iff in Hs as [rest ->]. simpl.
  destruct (protocol (URL_parse (check_url c))) as [q|] eqn:Hq; simpl.
  2:{ left. split; [reflexivity|]. split; [eauto | discriminate]. }
  destruct (String.eqb_spec q "") as [->|Hne]; simpl.
  { left. split; [reflexivity|]. split; [eauto|].
    intros p' H. injection H as <-. congruence. }
  destruct (is_http_or_https q) eqn:Hh; simpl.
  - left. split; [reflexivity|]. split; [eauto|].
    intros p' H _. injection H as <-. now apply is_http_or_https_iff.
  - right. split; [now right|]. intros [_ H].
    specialize (H q eq_refl Hne). apply is_http_or_https_iff in H. congruence.
Qed.

(** What [validate] says of a check it lets through, and of one it
    does not. *)
Lemma validate_inr (c c' : check) :
  validate URL_parse URL_parse_throws c = inr c' ->
  c' = c /\ URL_parse_throws (check_url c) = None /\
  valid_check_url (URL_parse (check_url c)).
Proof.
  intros H.
  destruct (validate_cases c) as [[e [_ He]]|[Hn [[Hok Hv]|[[He|He] _]]]];
    try congruence.
  split; [congruence | auto].
Qed.

Lemma validate_inl (c : check) (e : JsError) :
  validate URL_parse URL_parse_throws c = inl e ->
  URL_parse_throws (check_url c) = Some e \/
  (URL_parse_throws (check_url c) = None /\
   ~ valid_check_url (URL_parse (check_url c)) /\
   (e = AssertionError "Check URL must have absolute pathname" \/
    e = AssertionError "Check URL may only use HTTP/S protocol")).
Proof.
  intros H.
  destruct (validate_cases c) as [[e' [Ht He]]|[Hn [[Hok Hv]|[[He|He] Hbad]]]];
    try congruence.
  - left. congruence.
  - right. split; [exact Hn|]. split; [exact Hbad|]. left. congruence.
  - right. split; [exact Hn|]. split; [exact Hbad|]. right. congruence.
Qed.

Lemma validate_fails (c : check) :
  URL_parse_throws (check_url c) <> None \/
  ~ valid_check_url (URL_parse (check_url c)) ->
  exists e, validate URL_parse URL_parse_throws c = inl e.
Proof.
  intros H.
  destruct (validate_cases c) as [[e [_ He]]|[Hn [[Hok Hv]|[[He|He] _]]]];
    eauto.
  destruct H as [H|H]; contradiction.
Qed.

(** Every error of a run of [checkFunction] has a property that
    holds of what the network reports and of every [TypeError] and
    [Error]. *)
Lemma allChecks_errors (P : JsError -> Prop) (server : string)
      (requestID : option string) (timeout : Z) :
  (forall req t w e w', HTTP_get req t w = (OnError e, w') -> P e) ->
  (forall m, P (TypeError m)) ->
  (forall c m, P (Error c m)) ->
  forall (checks : registry) (w : World),
    match allChecks HTTP_get hrtime hrTime URL_parse URL_resolve
                    server requestID timeout checks w with
    | (inl e, _) => P e
    | (inr outcomes, _) =>
        forall o e, In o outcomes -> error o = Some e -> P e
    end.
Proof.
  intros Pnet Ptype Perr.
  induction checks as [|[checkURL expected] checks IH]; intros w.
  - simpl. intros o e [].
  - cbn [allChecks].
    set (headers := [("User-Agent", _); ("X-Request-Id", _)]).
    pose proof (runCheck_errors World HTTP_get headers
                  (loopbackResolve URL_parse URL_resolve server) timeout P)
      as Hrun.
    assert (Hres : forall u e,
               loopbackResolve URL_parse URL_resolve server u = inl e -> P e).
    { intros [u|] e; simpl; [discriminate|]. intros H. injection H as <-. auto. }
    specialize (Hrun Hres Pnet Ptype Perr None (Some checkURL) w).
    destruct (runCheck _ _ _ _ _ _ _) as [[e|e|r] w1]; cbn [fst] in Hrun.
    + apply Hrun. now left.
    + specialize (IH w1).
      destruct (allChecks _ _ _ _ _ _ _ _ checks w1) as [[e'|rest] w2];
        [exact IH|].
      intros o e0 [<-|Hin] He; [|eapply IH; eassumption].
      apply Outcome_error in He. simpl in He. injection He as <-.
      apply Hrun. now right.
    + specialize (IH w1).
      destruct (allChecks _ _ _ _ _ _ _ _ checks w1) as [[e'|rest] w2];
        [exact IH|].
      intros o e0 [<-|Hin] He; [|eapply IH; eassumption].
      apply Outcome_error in He. simpl in He. discriminate.
Qed.

(** What loading a file that could be read comes to. *)
Lemma readChecks_content (filename content : string) (timeout : Z) :
  readFileSync filename = inr content ->
  exists split,
    Forall2 (fun line c => match_line line = Some c) (check_lines content) split /\
    readChecks URL_parse URL_parse_throws readFileSync filename timeout =
    match map_throwing (validate URL_parse URL_parse_throws) split with
    | inl e => inl e
    | inr valid => inr (mkContext (fold_left add_check valid []) timeout)
    end.
Proof.
  intros Hfile. unfold readChecks. rewrite Hfile.
  destruct (map_throwing_total _ _ split_check (check_lines content))
    as [split Hsplit].
  { intros line. apply check_lines_match. }
  rewrite Hsplit. exists split. split; [|reflexivity].
  apply map_throwing_inr in Hsplit.
  eapply Forall2_impl; [|exact Hsplit].
  intros line c. apply split_check_inr.
Qed.

(** C7 (amended).  Loading the checks file fails exactly when the
    file cannot be read, or [URL.parse] throws on the URL of some check
    line, or that URL does not parse with a pathname that starts with a
    slash or declares a scheme other than HTTP or HTTPS; the error is
    then the one of the file read, the one [URL.parse] threw, or that of
    one of the two assertions.  When loading succeeds, [URL.parse]
    returns on every key of the registry and the key meets both
    conditions (and the keys are all different).  A run of
    [checkFunction] never ends with an assertion error, neither thrown
    nor in an outcome, unless the network reports one. *)
Theorem readChecks_fails_iff_some_url_invalid :
  forall (filename : string) (timeout : Z),
    ((exists e, readChecks URL_parse URL_parse_throws readFileSync
                           filename timeout = inl e) <->
     ((exists e, readFileSync filename = inl e) \/
      (exists content line c,
          readFileSync filename = inr content /\
          In line (check_lines content) /\ match_line line = Some c /\
          (URL_parse_throws (check_url c) <> None \/
           ~ valid_check_url (URL_parse (check_url c)))))) /\
    (forall e,
        readChecks URL_parse URL_parse_throws readFileSync filename timeout
        = inl e ->
        readFileSync filename = inl e \/
        (exists content line c,
            readFileSync filename = inr content /\
            In line (check_lines content) /\ match_line line = Some c /\
            URL_parse_throws (check_url c) = Some e) \/
        e = AssertionError "Check URL must have absolute pathname" \/
        e = AssertionError "Check URL may only use HTTP/S protocol") /\
    (forall this,
        readChecks URL_parse URL_parse_throws readFileSync filename timeout
        = inr this ->
        NoDup (Object_keys (ctx_checks this)) /\
        forall key, In key (Object_keys (ctx_checks this)) ->
                    URL_parse_throws key = None /\
                    valid_check_url (URL_parse key)) /\
    (forall (this : context) (server : string) (requestID : option string)
            (w : World),
        (forall req t w0 e w1,
            HTTP_get req t w0 = (OnError e, w1) -> ~ is_assertion e) ->
        match checkFunction HTTP_get hrtime hrTime URL_parse URL_resolve
                            this server requestID w with
        | (inl e, _) => ~ is_assertion e
        | (inr pf, _) =>
            forall o e, In o (passed pf ++ failed pf) ->
                        error o = Some e -> ~ is_assertion e
        end).
Proof.
  intros filename timeout.
  assert (Hunread : forall e, readFileSync filename = inl e ->
            readChecks URL_parse URL_parse_throws readFileSync filename timeout
            = inl e).
  { intros e He. unfold readChecks. now rewrite He. }
  split; [|split; [|split]].
  - destruct (readFileSync filename) as [e0|content] eqn:Hfile.
    { split; [intros _; left; eauto | intros _; eauto]. }
    destruct (readChecks_content filename content timeout Hfile)
      as [split [Hsplit Hread]].
    rewrite Hread. clear Hread. split.
    + intros [e He]. right.
      destruct (map_throwing (validate URL_parse URL_parse_throws) split)
        as [e'|valid] eqn:Hv; [|discriminate].
      apply map_throwing_inl in Hv as [c [Hin Hc]].
      destruct (Forall2_In_r _ _ _ c Hsplit Hin) as [line [Hline Hm]].
      exists content, line, c. split; [reflexivity|].
      split; [exact Hline|]. split; [exact Hm|].
      apply validate_inl in Hc as [Hc|[_ [Hc _]]]; [left; congruence | now right].
    + intros [[e He]|[content' [line [c [Hc' [Hline [Hm Hbad]]]]]]];
        [discriminate|].
      injection Hc' as <-.
      destruct (Forall2_In_l _ _ _ line Hsplit Hline) as [c' [Hin Hm']].
      assert (c' = c) by congruence. subst c'.
      destruct (validate_fails c Hbad) as [e He].
      destruct (map_throwing_fails _ _ (validate URL_parse URL_parse_throws)
                                   split c _ Hin He) as [e' ->].
      eauto.
  - intros e He.
    destruct (readFileSync filename) as [e0|content] eqn:Hfile.
    { left. rewrite (Hunread e0 eq_refl) in He. congruence. }
    destruct (readChecks_content filename content timeout Hfile)
      as [split [Hsplit Hread]].
    rewrite Hread in He. clear Hread. right.
    destruct (map_throwing (validate URL_parse URL_parse_throws) split)
      as [e'|valid] eqn:Hv; [|discriminate].
    injection He as <-.
    apply map_throwing_inl in Hv as [c [Hin Hc]].
    destruct (Forall2_In_r _ _ _ c Hsplit Hin) as [line [Hline Hm]].
    apply validate_inl in Hc as [Hc|[_ [_ Hc]]]; [left | right; exact Hc].
    exists content, line, c. auto.
  - intros this Hthis.
    destruct (readFileSync filename) as [e0|content] eqn:Hfile.
    { rewrite (Hunread e0 eq_refl) in Hthis. discriminate. }
    destruct (readChecks_content filename content timeout Hfile)
      as [split [Hsplit Hread]].
    rewrite Hread in Hthis. clear Hread.
    destruct (map_throwing (validate URL_parse URL_parse_throws) split)
      as [e'|valid] eqn:Hv; [discriminate|].
    injection Hthis as <-. cbn [ctx_checks].
    split; [apply add_checks_NoDup; constructor|].
    intros key Hkey. apply add_checks_keys in Hkey as [[]|Hkey].
    apply in_map_iff in Hkey as [c [<- Hin]].
    apply map_throwing_inr in Hv.
    destruct (Forall2_In_r _ _ _ c Hv Hin) as [c0 [_ Hc0]].
    apply validate_inr in Hc0 as [-> [Hn Hvalid]]. auto.
  - intros this server requestID w Hnet.
    pose proof (allChecks_errors (fun e => ~ is_assertion e) server requestID
                  (ctx_timeout this) Hnet) as Herr.
    assert (Ht : forall m, ~ is_assertion (TypeError m))
      by (intros m [m' H]; discriminate).
    assert (He : forall c m, ~ is_assertion (Error c m))
      by (intros c m [m' H]; discriminate).
    specialize (Herr Ht He (ctx_checks this) w).
    unfold checkFunction.
    destruct (allChecks _ _ _ _ _ _ _ _ _ _) as [[e|outcomes] w1]; [exact Herr|].
    intros o e Hin. apply Herr.
    eapply Permutation_in; [apply filter_split_perm|]. exact Hin.
Qed.

(** C8.  Both lists of the report are in ascending lexicographic
    order of [url], in either format.  Outcomes with URLs all
    different, in whatever order they come, give the same report; and
    the outcomes of a run have URLs all different when the registry
    comes from the loader. *)
Theorem report_lists_sorted_by_url :
  forall (useJSON : bool) (pf : passedAndFailed),
    StronglySorted url_le (rep_passed (respond useJSON pf)) /\
    StronglySorted url_le (rep_failed (respond useJSON pf)) /\
    (forall outcomes outcomes',
        NoDup (map url outcomes) -> Permutation outcomes outcomes' ->
        respond useJSON (split_outcomes outcomes)
        = respond useJSON (split_outcomes outcomes')) /\
    (forall filename timeout this server requestID w w' result,
        readChecks URL_parse URL_parse_throws readFileSync filename timeout = inr this ->
        checkFunction HTTP_get hrtime hrTime URL_parse URL_resolve
                      this server requestID w = (inr result, w') ->
        exists outcomes,
          result = split_outcomes outcomes /\ NoDup (map url outcomes)).
Proof.
  intros useJSON pf.
  assert (Hdel : forall l, StronglySorted url_le l ->
                           StronglySorted url_le (removeBodyProp l)).
  { intros l. apply StronglySorted_map. intros a b H. exact H. }
  split; [|split; [|split]].
  - unfold respond. destruct useJSON; cbn [rep_passed];
      [apply Hdel|]; apply sort_by_url_sorted.
  - unfold respond. destruct useJSON; cbn [rep_failed];
      [apply Hdel|]; apply sort_by_url_sorted.
  - intros outcomes outcomes' Hnd Hperm.
    unfold respond, split_outcomes. cbn [passed failed].
    rewrite (sort_by_url_unique
               (filter (fun o => negb (truthy (reason o))) outcomes)
               (filter (fun o => negb (truthy (reason o))) outcomes'))
      by (try apply NoDup_map_filter; try apply filter_perm; assumption).
    rewrite (sort_by_url_unique
               (filter (fun o => truthy (reason o)) outcomes)
               (filter (fun o => truthy (reason o)) outcomes'))
      by (try apply NoDup_map_filter; try apply filter_perm; assumption).
    reflexivity.
  - intros filename timeout this server requestID w w' result Hload Hrun.
    unfold checkFunction in Hrun.
    destruct (allChecks _ _ _ _ _ _ _ _ _ _) as [[e|outcomes] w1] eqn:Hall;
      [discriminate|].
    injection Hrun as <- _. exists outcomes. split; [reflexivity|].
    apply allChecks_outcomes in Hall.
    rewrite (Forall2_outcome_urls hrTime _ _ Hall).
    unfold readChecks in Hload.
    destruct (readFileSync filename); [discriminate|].
    destruct (map_throwing split_check _); [discriminate|].
    destruct (map_throwing (validate URL_parse URL_parse_throws) _); [discriminate|].
    injection Hload as <-. cbn [ctx_checks].
    apply add_checks_NoDup. constructor.
Qed.

End Loader.

(** ** The statements on concrete runs *)

Example readChecks_three_checks :
  readChecks NodeUrl.parse NodeUrl.parse_throws Scenario.files "./checks" DEFAULT_TIMEOUT
  = inr Scenario.three_checks.
Proof. vm_compute. reflexivity. Qed.

Example run_three_checks :
  option_map (fun pf => (map url (passed pf), map reason (passed pf),
                         map url (failed pf), map reason (failed pf)))
             (match fst Scenario.run with inr pf => Some pf | inl _ => None end)
  = Some (["/status"], [None],
          ["/down"; "/slow"], [Some "statusCode"; Some "timeout"]).
Proof. vm_compute. reflexivity. Qed.

Lemma checkFunction_partitions_outcomes_witness :
  exists pf w',
    Scenario.run = (inr pf, w') /\
    length (passed pf) + length (failed pf) = 3 /\
    (forall o, In o (passed pf) -> In o (failed pf) -> False).
Proof.
  destruct Scenario.run as [[e|pf] w'] eqn:Hrun;
    [vm_compute in Hrun; discriminate|].
  exists pf, w'. split; [reflexivity|].
  destruct (checkFunction_partitions_outcomes
              nat Scenario.three_pages Scenario.clock Scenario.pretty
              NodeUrl.parse NodeUrl.resolve Scenario.three_checks
              Scenario.local_server None 0 w' pf Hrun)
    as [outcomes [_ [_ [_ [Hlen [Hdisj _]]]]]].
  split; [exact Hlen | exact Hdisj].
Defined.

Lemma reason_set_iff_check_failed_witness :
  exists pf w',
    Scenario.run = (inr pf, w') /\
    (forall o, In o (passed pf) -> reason o = None /\ truthy (reason o) = false) /\
    (forall o, In o (rep_passed (respond true pf)) ->
               reason o = None /\ ~ In "reason" (JSON_keys o)).
Proof.
  destruct Scenario.run as [[e|pf] w'] eqn:Hrun;
    [vm_compute in Hrun; discriminate|].
  exists pf, w'. split; [reflexivity|].
  destruct (reason_set_iff_check_failed
              nat Scenario.three_pages Scenario.clock Scenario.pretty
              NodeUrl.parse NodeUrl.resolve Scenario.three_checks
              Scenario.local_server None true 0 w' pf Hrun)
    as [_ [_ [Hpass [_ [Hjson _]]]]].
  split; [exact Hpass | exact Hjson].
Defined.

Lemma readChecks_fails_iff_some_url_invalid_witness :
  (exists e, readChecks NodeUrl.parse NodeUrl.parse_throws Scenario.files
                        "./bad" DEFAULT_TIMEOUT = inl e) /\
  (exists e, readChecks NodeUrl.parse Scenario.parse_throws Scenario.files
                        "./undecodable" DEFAULT_TIMEOUT = inl e) /\
  (forall key, In key (Object_keys (ctx_checks Scenario.three_checks)) ->
               NodeUrl.parse_throws key = None /\
               valid_check_url (NodeUrl.parse key)).
Proof.
  split; [|split].
  - apply (proj1 (readChecks_fails_iff_some_url_invalid
                    nat Scenario.three_pages Scenario.clock Scenario.pretty
                    NodeUrl.parse NodeUrl.parse_throws NodeUrl.resolve
                    Scenario.files "./bad" DEFAULT_TIMEOUT)).
    right.
    exists Scenario.bad_checks_file, "ftp://files.example.com/status",
           (mkCheck "ftp://files.example.com/status" "").
    split; [reflexivity|].
    split; [vm_compute; auto|]. split; [vm_compute; reflexivity|].
    right.
    intros [_ H]. destruct (H "ftp:" eq_refl ltac:(discriminate)); discriminate.
  - apply (proj1 (readChecks_fails_iff_some_url_invalid
                    nat Scenario.three_pages Scenario.clock Scenario.pretty
                    NodeUrl.parse Scenario.parse_throws NodeUrl.resolve
                    Scenario.files "./undecodable" DEFAULT_TIMEOUT)).
    right.
    exists Scenario.undecodable_checks_file, Scenario.undecodable,
           (mkCheck Scenario.undecodable "").
    split; [reflexivity|].
    split; [vm_compute; auto|]. split; [vm_compute; reflexivity|].
    left. vm_compute. discriminate.
  - apply (proj1 (proj2 (proj2 (readChecks_fails_iff_some_url_invalid
                    nat Scenario.three_pages Scenario.clock Scenario.pretty
                    NodeUrl.parse NodeUrl.parse_throws NodeUrl.resolve
                    Scenario.files "./checks" DEFAULT_TIMEOUT)))
                 Scenario.three_checks).
    vm_compute. reflexivity.
Defined.

(** C7, as first stated, fails on a file that cannot be read: loading
    fails, with the error of the file system and not with an assertion
    error, and no check line has an invalid URL, there being none. *)
Lemma readChecks_unreadable_file_counterexample :
  readChecks NodeUrl.parse NodeUrl.parse_throws Scenario.files
             "./missing" DEFAULT_TIMEOUT
  = inl (Error (Some "ENOENT") "no such file or directory") /\
  ~ is_assertion (Error (Some "ENOENT") "no such file or directory") /\
  ~ (exists content line c,
        Scenario.files "./missing" = inr content /\
        In line (check_lines content) /\ match_line line = Some c /\
        ~ valid_check_url (NodeUrl.parse (check_url c))).
Proof.
  split; [vm_compute; reflexivity|]. split.
  - intros [m H]. discriminate.
  - intros [content [line [c [H _]]]]. vm_compute in H. discriminate.
Qed.

Lemma report_lists_sorted_by_url_witness :
  respond false (split_outcomes Scenario.some_outcomes)
  = respond false (split_outcomes Scenario.same_outcomes) /\
  map url (rep_passed (respond false (split_outcomes Scenario.some_outcomes)))
  = ["/a"; "/b"] /\
  map url (rep_failed (respond false (split_outcomes Scenario.some_outcomes)))
  = ["/c"; "/d"].
Proof.
  split; [|split; vm_compute; reflexivity].
  apply (proj1 (proj2 (proj2 (report_lists_sorted_by_url
                    nat Scenario.three_pages Scenario.clock Scenario.pretty
                    NodeUrl.parse NodeUrl.parse_throws NodeUrl.resolve
                    Scenario.files false (split_outcomes [])))) ).
  - repeat constructor; simpl; intuition discriminate.
  - unfold Scenario.some_outcomes, Scenario.same_outcomes.
    set (a := Scenario.passing "/a"). set (b := Scenario.passing "/b").
    set (c := Scenario.failing "/c"). set (d := Scenario.failing "/d").
    apply (perm_trans (l' := [d; b; a; c])); [apply perm_swap|].
    apply (perm_trans (l' := [d; a; b; c])); [apply perm_skip, perm_swap|].
    apply (perm_trans (l' := [a; d; b; c])); [apply perm_swap|].
    apply (perm_trans (l' := [a; b; d; c])); [apply perm_skip, perm_swap|].
    apply (perm_trans (l' := [a; b; c; d])); [do 2 apply perm_skip; apply perm_swap|].
    apply (perm_trans (l' := [a; c; b; d])); [apply perm_skip, perm_swap|].
    apply (perm_trans (l' := [c; a; b; d])); [apply perm_swap|].
    reflexivity.
Defined.

(** ** Further facts about runs *)

Section Returns.

Variable World : Type.
Variable HTTP_get : request -> Z -> World -> net_event * World.
Variable headers : object.
Variable resolver : option string -> JsError + Url.
Variable timeout : Z.

(** A call whose URL resolves with a protocol returns its promise. *)
Lemma runCheck_returns (redirects : option nat) (url : option string)
      (w : World) (loopbackURL : Url) (proto : string) :
  resolver url = inr loopbackURL -> protocol loopbackURL = Some proto ->
  forall e,
    fst (runCheck HTTP_get url headers resolver timeout redirects w) <> Throws e.
Proof.
  intros Hres Hproto e.
  rewrite runCheck_equation_1. cbv zeta. rewrite Hres, Hproto.
  destruct (get HTTP_get _ timeout w) as [[e0|r] w1]; [discriminate|].
  destruct (truthy_num _); [|discriminate].
  destruct (le_lt_dec _ _); [discriminate|].
  destruct (resolver (get_prop (res_headers r) "location")) as [e0|target];
    [discriminate|].
  destruct (withinSameDomain target loopbackURL) as [e0|[|]]; try discriminate.
  destruct (runCheck _ _ _ _ _ _ _) as [[e0|e0|r0] w2]; discriminate.
Qed.

End Returns.

Section RunsResolve.

Variable World : Type.
Variable HTTP_get : request -> Z -> World -> net_event * World.
Variable hrtime : World -> Z.
Variable hrTime : Z -> string.
Variable URL_parse : string -> Url.
Variable URL_resolve : string -> string -> string.

(** X18.  A run resolves with its two lists, rather than throwing, as
    soon as every check URL, resolved against the synthetic base, has a
    protocol: rejections and responses of the probes all end in
    outcomes. *)
Lemma checkFunction_resolves (this : context) (server : string)
      (requestID : option string) (w : World) :
  (forall key, In key (Object_keys (ctx_checks this)) ->
     exists proto,
       protocol (URL_parse (URL_resolve (synthetic_base URL_parse server) key))
       = Some proto) ->
  exists pf w',
    checkFunction HTTP_get hrtime hrTime URL_parse URL_resolve
                  this server requestID w = (inr pf, w').
Proof.
  unfold checkFunction. destruct this as [checks timeout]. cbn [ctx_checks ctx_timeout].
  revert w. induction checks as [|[checkURL expected] checks IH]; intros w Hkeys.
  - simpl. eauto.
  - cbn [allChecks].
    destruct (Hkeys checkURL (or_introl eq_refl)) as [proto Hproto].
    set (headers := [("User-Agent", _); ("X-Request-Id", _)]).
    pose proof (runCheck_returns World HTTP_get headers
                  (loopbackResolve URL_parse URL_resolve server) timeout
                  None (Some checkURL) w _ proto
                  (loopbackResolve_string URL_parse URL_resolve server checkURL)
                  Hproto) as Hret.
    destruct (runCheck _ _ _ _ _ _ _) as [[e|e|r] w1]; cbn [fst] in Hret;
      [now contradiction (Hret e)| |];
      (destruct (IH w1) as [pf [w' Hrun]];
       [intros key Hin; apply Hkeys; now right|]);
      destruct (allChecks _ _ _ _ _ _ _ _ checks w1) as [[e'|rest] w2];
      try discriminate; eauto.
Qed.

End RunsResolve.

(** Whatever stable or unstable sort the platform uses, a list of the
    same outcomes in ascending order of URL is the list the model of
    [sort] gives, when the URLs are all different. *)
Lemma sort_by_url_any_sort (l sorted : list outcome) :
  NoDup (map url l) -> Permutation sorted l -> StronglySorted url_le sorted ->
  sorted = Array_sort (compareProperty url) l.
Proof.
  intros Hnd Hperm Hsorted.
  apply (sorted_perm_unique outcome url_le).
  - intros x y Hx Hy Hxy Hyx.
    apply (NoDup_map_inj outcome url l); auto.
    + eapply Permutation_in; [exact Hperm | exact Hx].
    + eapply Permutation_in; [exact Hperm | exact Hy].
    + now apply lex_le_antisym.
  - exact Hsorted.
  - apply sort_by_url_sorted.
  - rewrite Array_sort_perm. exact Hperm.
Qed.

(** * More properties of the module *)

(** ** Outcomes *)

(** X1.  The properties of a constructed outcome go with its reason:
    [timeout] is set (to [true]) exactly on a timeout, [error] exactly
    on an error that is not a timeout and then it is the error given,
    [statusCode] and [body] exactly when a response was classified and
    then they are those of the response; [url], [expectedContent] and
    [elapsed] are always those of the arguments. *)
Theorem Outcome_properties_by_reason :
  forall (hrTime : Z -> string) (args : OutcomeArgs),
    (timeout (Outcome hrTime args) = Some true <->
     reason (Outcome hrTime args) = Some "timeout") /\
    (timeout (Outcome hrTime args) = None <->
     reason (Outcome hrTime args) <> Some "timeout") /\
    (forall e, error (Outcome hrTime args) = Some e <->
               reason (Outcome hrTime args) = Some "error" /\
               args_error args = Some e) /\
    (error (Outcome hrTime args) = None <->
     reason (Outcome hrTime args) <> Some "error") /\
    (reason (Outcome hrTime args) = Some "timeout" \/
     reason (Outcome hrTime args) = Some "error" ->
     args_error args <> None /\
     statusCode (Outcome hrTime args) = None /\
     body (Outcome hrTime args) = None) /\
    (reason (Outcome hrTime args) = None \/
     reason (Outcome hrTime args) = Some "statusCode" \/
     reason (Outcome hrTime args) = Some "body" ->
     args_error args = None /\
     statusCode (Outcome hrTime args) = Some (args_statusCode args) /\
     body (Outcome hrTime args) = Some (args_body args)) /\
    url (Outcome hrTime args) = args_url args /\
    expectedContent (Outcome hrTime args) = args_expected args /\
    elapsed (Outcome hrTime args) = hrTime (args_elapsed args).
Proof.
  intros hrTime args. unfold Outcome.
  destruct (args_error args) as [e|].
  - destruct (strict_eq (code e) (Some "ETIMEDOUT")); cbn;
      repeat split; intros; try discriminate; try congruence;
      repeat match goal with
             | H : _ /\ _ |- _ => destruct H
             | H : _ \/ _ |- _ => destruct H
             end; try discriminate; try congruence.
  - destruct ((args_statusCode args <? 200) || (args_statusCode args >=? 400))%Z;
      [|destruct (negb _)]; cbn;
      repeat split; intros; try discriminate; try congruence;
      repeat match goal with
             | H : _ /\ _ |- _ => destruct H
             | H : _ \/ _ |- _ => destruct H
             end; try discriminate; try congruence.
Qed.

Lemma redirect_status_in_range (c : Z) :
  In c REDIRECT_STATUSES -> ((c <? 200) || (c >=? 400))%Z = false.
Proof.
  unfold REDIRECT_STATUSES. simpl.
  intros [<-|[<-|[<-|[<-|[]]]]]; reflexivity.
Qed.

(** X2.  A redirect response that ends a check (one that was not
    followed) is never failed for its status: the outcome passes exactly
    when every expected text occurs in the body of the redirect
    response, so it passes when no text is expected; otherwise the
    reason is [body]. *)
Theorem Outcome_of_redirect_response :
  forall (hrTime : Z -> string) (checkURL : string) (expected : list string)
         (r : response) (elapsed : Z),
    In (res_statusCode r) REDIRECT_STATUSES ->
    (reason (Outcome hrTime (mkArgs checkURL expected (res_statusCode r)
                                    (res_body r) None elapsed)) = None <->
     forall text, In text expected -> contains (res_body r) text) /\
    (reason (Outcome hrTime (mkArgs checkURL expected (res_statusCode r)
                                    (res_body r) None elapsed)) = None \/
     reason (Outcome hrTime (mkArgs checkURL expected (res_statusCode r)
                                    (res_body r) None elapsed)) = Some "body") /\
    (expected = [] ->
     reason (Outcome hrTime (mkArgs checkURL expected (res_statusCode r)
                                    (res_body r) None elapsed)) = None).
Proof.
  intros hrTime checkURL expected r elapsed Hst.
  rewrite Outcome_reason. cbn [args_error args_statusCode args_body args_expected].
  rewrite (redirect_status_in_range _ Hst).
  destruct (every _ expected) eqn:Hm.
  - split; [|split; auto]. split; [intros _|reflexivity].
    now apply every_matching_iff.
  - split; [|split; auto].
    + split; [discriminate|]. intros H. apply every_matching_iff in H. congruence.
    + intros ->. simpl in Hm. discriminate.
Qed.

Lemma Outcome_of_redirect_response_witness :
  reason (Outcome Scenario.pretty
            (mkArgs "/moved" [] 302 "" None 5)) = None.
Proof.
  apply (proj2 (proj2 (Outcome_of_redirect_response
                         Scenario.pretty "/moved" []
                         (Scenario.redirect_to "http://evil.example/") 5
                         ltac:(vm_compute; auto)))).
  reflexivity.
Defined.

Lemma append_cancel_l (s t : string) : (s ++ t)%string = s -> t = EmptyString.
Proof.
  induction s as [|c s IH]; simpl; [auto|].
  intros H. injection H as H. auto.
Qed.

Example number_to_string_503 : number_to_string 503 = "503".
Proof. reflexivity. Qed.

(** X3.  [toString] never throws on a constructed outcome (an outcome
    of reason [error] always carries its error).  The text is the URL
    alone exactly when the check passed; otherwise it is the URL, [" => "]
    and a detail: the message of the error, the status code in decimal,
    or the reason itself for a timeout or a missing text. *)
Theorem toString_of_constructed_outcome :
  forall (hrTime : Z -> string) (args : OutcomeArgs),
  exists s,
    toString (Outcome hrTime args) = inr s /\
    (s = args_url args <-> reason (Outcome hrTime args) = None) /\
    match reason (Outcome hrTime args) with
    | None => s = args_url args
    | Some r =>
        exists detail,
          s = (args_url args ++ " => " ++ detail)%string /\
          (r = "error" ->
           exists e, args_error args = Some e /\ detail = message e) /\
          (r = "statusCode" ->
           detail = number_to_string (args_statusCode args)) /\
          (r = "timeout" \/ r = "body" -> detail = r)
    end.
Proof.
  intros hrTime args.
  assert (Hno : forall d, (args_url args ++ " => " ++ d)%string <> args_url args).
  { intros d H. apply append_cancel_l in H. discriminate. }
  unfold toString, Outcome.
  destruct (args_error args) as [e|].
  - destruct (strict_eq (code e) (Some "ETIMEDOUT")); cbn.
    + eexists. split; [reflexivity|]. split.
      * split; [intros H; now apply Hno in H | discriminate].
      * eexists. split; [reflexivity|].
        repeat split; intros; try discriminate; auto.
    + eexists. split; [reflexivity|]. split.
      * split; [intros H; now apply Hno in H | discriminate].
      * eexists. split; [reflexivity|].
        repeat split; intros; try discriminate; eauto.
        destruct H; discriminate.
  - destruct ((args_statusCode args <? 200) || (args_statusCode args >=? 400))%Z;
      [|destruct (negb _)]; cbn.
    + eexists. split; [reflexivity|]. split.
      * split; [intros H; now apply Hno in H | discriminate].
      * eexists. split; [reflexivity|].
        repeat split; intros; try discriminate; auto.
        destruct H; discriminate.
    + eexists. split; [reflexivity|]. split.
      * split; [intros H; now apply Hno in H | discriminate].
      * eexists. split; [reflexivity|].
        repeat split; intros; try discriminate; auto.
    + eexists. split; [reflexivity|]. split; [|reflexivity].
      split; reflexivity.
Qed.

(** ** The probe runner, whatever the server answers *)

Lemma get_response {World : Type}
      (HTTP_get : request -> Z -> World -> net_event * World)
      (req : request) (timeout : Z) (w w1 : World) (r : response) :
  get HTTP_get req timeout w = (inr r, w1) ->
  HTTP_get req timeout w = (OnResponse r, w1).
Proof.
  unfold get. destruct (HTTP_get req timeout w) as [[e|r'|] w'];
    intros H; try discriminate. injection H as <- <-. reflexivity.
Qed.

Section FinalResponses.

Variable World : Type.
Variable HTTP_get : request -> Z -> World -> net_event * World.
Variable headers : object.
Variable resolver : option string -> JsError + Url.
Variable timeout : Z.

(** X4.  A redirect whose [Location] resolves to a URL without a
    host name (while the URL of the probe has one) is neither followed
    nor returned: below the redirect bound the call fails with a
    [TypeError], after the one request. *)
Theorem runCheck_redirect_without_host_fails :
  forall (url : option string) (redirects : option nat) (w w1 : World)
         (loopbackURL target : Url) (proto h : string) (r : response),
    resolver url = inr loopbackURL ->
    protocol loopbackURL = Some proto ->
    hostname loopbackURL = Some h ->
    get HTTP_get (probe_request headers loopbackURL proto) timeout w = (inr r, w1) ->
    In (res_statusCode r) REDIRECT_STATUSES ->
    redirects_or_0 redirects < MAX_REDIRECT_COUNT ->
    resolver (location r) = inr target ->
    hostname target = None ->
    exists m,
      runCheck HTTP_get url headers resolver timeout redirects w
      = (Rejects (TypeError m), w1).
Proof.
  intros url redirects w w1 loopbackURL target proto h r
         Hres Hproto Hhost Hget Hst Hlt Htarget Hnull.
  rewrite (runCheck_on_response World HTTP_get headers resolver timeout
             url redirects w w1 loopbackURL proto r Hres Hproto Hget).
  apply isRedirect_iff in Hst. rewrite Hst.
  assert (Hb : (MAX_REDIRECT_COUNT <=? redirects_or_0 redirects)%nat = false)
    by (apply Nat.leb_gt; exact Hlt).
  rewrite Hb, Htarget. unfold withinSameDomain. rewrite Hnull, Hhost. cbn.
  eexists. reflexivity.
Qed.

(** X5.  [runCheck] resolves with a response exactly when the chain
    of its probes, each redirect followed below the bound to a URL
    within the domain of the URL probed, ends with a probe that the
    network answers with that response, and the response is final for
    the URL of that last probe: its status is not a redirect status, or
    fewer than ten redirects were followed and its [Location] resolves
    outside the domain of that URL.  So a redirect within the domain of
    the URL it answers is never handed back. *)
Theorem runCheck_resolves_with_final_response :
  forall (url : option string) (redirects : option nat) (w w' : World)
         (r : response),
    runCheck HTTP_get url headers resolver timeout redirects w = (Resolves r, w')
    <->
    exists (last : Url) (k' : nat),
      last_probe HTTP_get headers resolver timeout
                 url (redirects_or_0 redirects) w last k' r w' /\
      (~ In (res_statusCode r) REDIRECT_STATUSES \/
       (k' < MAX_REDIRECT_COUNT /\
        exists target,
          resolver (location r) = inr target /\
          withinSameDomain target last = inr false)).
Proof.
  intros url redirects w w' r. split.
  - remember (MAX_REDIRECT_COUNT - redirects_or_0 redirects) as n eqn:Hn.
    revert redirects Hn url w.
    induction n as [n IH] using lt_wf_ind. intros redirects Hn url w.
    rewrite runCheck_equation_1. cbv zeta.
    destruct (resolver url) as [e|loopbackURL] eqn:Hres; [discriminate|].
    destruct (protocol loopbackURL) as [proto|] eqn:Hproto; [|discriminate].
    change (mkRequest _ _ _ _) with (probe_request headers loopbackURL proto).
    destruct (get HTTP_get _ timeout w) as [[e|r0] w1] eqn:Hget; [discriminate|].
    apply get_response in Hget.
    destruct (truthy_num _) eqn:Hredir.
    2:{ intros H. injection H as <- <-. exists loopbackURL, (redirects_or_0 redirects).
        split; [eapply last_probe_here; eassumption|].
        left. rewrite <- isRedirect_iff. congruence. }
    apply isRedirect_iff in Hredir.
    destruct (le_lt_dec MAX_REDIRECT_COUNT (redirects_or_0 redirects)) as [Hle|Hlt];
      [discriminate|].
    change (get_prop (res_headers r0) "location") with (location r0).
    destruct (resolver (location r0)) as [e|target] eqn:Ht; [discriminate|].
    destruct (withinSameDomain target loopbackURL) as [e|[|]] eqn:Hsame;
      [discriminate| |].
    + pose proof (IH (MAX_REDIRECT_COUNT - (redirects_or_0 redirects + 1))
                     ltac:(lia) (Some (redirects_or_0 redirects + 1)) eq_refl
                     (location r0) w1) as IH'.
      destruct (runCheck _ _ _ _ _ _ _) as [[e0|e0|r1] w2]; cbn [in_then];
        intros H; try discriminate.
      injection H as <- <-.
      destruct (IH' eq_refl) as [last [k' [Hchain Hfinal]]].
      exists last, k'. split; [|exact Hfinal].
      eapply last_probe_after; eassumption.
    + intros H. injection H as <- <-.
      exists loopbackURL, (redirects_or_0 redirects).
      split; [eapply last_probe_here; eassumption|].
      right. split; [exact Hlt|]. exists target. auto.
  - intros [last [k' [Hchain Hfinal]]].
    remember (redirects_or_0 redirects) as k eqn:Hk.
    revert redirects Hk.
    induction Hchain
      as [url k w loopbackURL proto r w1 Hres Hproto Hnet
         |url k w loopbackURL proto r0 w1 target last k' r w2
              Hres Hproto Hnet Hst Hlt Ht Hsame Hchain IH];
      intros redirects Hk.
    + assert (Hget : get HTTP_get (probe_request headers loopbackURL proto)
                         timeout w = (inr r, w1))
        by (unfold get; now rewrite Hnet).
      rewrite (runCheck_on_response World HTTP_get headers resolver timeout
                 url redirects w w1 loopbackURL proto r Hres Hproto Hget).
      destruct Hfinal as [Hno|[Hlt [target [Ht Hsame]]]].
      * rewrite <- isRedirect_iff in Hno.
        destruct (truthy_num _); [congruence | reflexivity].
      * destruct (truthy_num _); [|reflexivity].
        rewrite <- Hk. apply Nat.leb_gt in Hlt. rewrite Hlt, Ht, Hsame.
        reflexivity.
    + assert (Hget : get HTTP_get (probe_request headers loopbackURL proto)
                         timeout w = (inr r0, w1))
        by (unfold get; now rewrite Hnet).
      rewrite (runCheck_on_response World HTTP_get headers resolver timeout
                 url redirects w w1 loopbackURL proto r0 Hres Hproto Hget).
      apply isRedirect_iff in Hst. rewrite Hst.
      rewrite <- Hk. apply Nat.leb_gt in Hlt. rewrite Hlt, Ht, Hsame.
      rewrite (IH Hfinal (Some (k + 1)) eq_refl). reflexivity.
Qed.

End FinalResponses.

Lemma runCheck_redirect_without_host_fails_witness :
  exists m,
    runCheck Scenario.script_redirect (Some "/x") [] Scenario.resolver
             DEFAULT_TIMEOUT None 0
    = (Rejects (TypeError m), 1).
Proof.
  apply (runCheck_redirect_without_host_fails
           nat Scenario.script_redirect [] Scenario.resolver DEFAULT_TIMEOUT
           (Some "/x") None 0 1
           (mkUrl (Some "http:") (Some "localhost") (Some "127.0.0.1") (Some "5000")
                  (Some "/x") (Some "/x"))
           (mkUrl (Some "javascript:") None (Some "127.0.0.1") (Some "5000")
                  (Some "void(0)") (Some "void(0)"))
           "http:" "localhost" (Scenario.redirect_to "javascript:void(0)")).
  - vm_compute. reflexivity.
  - reflexivity.
  - reflexivity.
  - vm_compute. reflexivity.
  - vm_compute. auto.
  - vm_compute. lia.
  - vm_compute. reflexivity.
  - reflexivity.
Defined.

Lemma runCheck_resolves_with_final_response_witness :
  (exists last k',
      last_probe Scenario.leaves_at_once [] Scenario.resolver DEFAULT_TIMEOUT
                 (Some "/status") 0 0 last k'
                 (Scenario.redirect_to "http://evil.example/") 1 /\
      (~ In (res_statusCode (Scenario.redirect_to "http://evil.example/"))
            REDIRECT_STATUSES \/
       (k' < MAX_REDIRECT_COUNT /\
        exists target,
          Scenario.resolver (location (Scenario.redirect_to "http://evil.example/"))
          = inr target /\
          withinSameDomain target last = inr false))) /\
  runCheck Scenario.relative_redirect (Some "/x") [] Scenario.resolver
           DEFAULT_TIMEOUT None 0
  = (Resolves (Scenario.ok "moved here"), 2).
Proof.
  split.
  - apply (proj1 (runCheck_resolves_with_final_response
                    nat Scenario.leaves_at_once [] Scenario.resolver
                    DEFAULT_TIMEOUT (Some "/status") None 0 1
                    (Scenario.redirect_to "http://evil.example/"))).
    vm_compute. reflexivity.
  - apply (proj2 (runCheck_resolves_with_final_response
                    nat Scenario.relative_redirect [] Scenario.resolver
                    DEFAULT_TIMEOUT (Some "/x") None 0 2
                    (Scenario.ok "moved here"))).
    exists (mkUrl (Some "http:") (Some "localhost") (Some "127.0.0.1")
                  (Some "5000") (Some "/y") (Some "/y")), 1.
    split; [|left; vm_compute; intuition discriminate].
    eapply (last_probe_after Scenario.relative_redirect [] Scenario.resolver
              DEFAULT_TIMEOUT (Some "/x") 0 0
              (mkUrl (Some "http:") (Some "localhost") (Some "127.0.0.1")
                     (Some "5000") (Some "/x") (Some "/x"))
              "http:" (Scenario.redirect_to "/y") 1
              (mkUrl (Some "http:") (Some "localhost") (Some "127.0.0.1")
                     (Some "5000") (Some "/y") (Some "/y"))).
    + vm_compute. reflexivity.
    + reflexivity.
    + vm_compute. reflexivity.
    + vm_compute. auto.
    + vm_compute. lia.
    + vm_compute. reflexivity.
    + vm_compute. reflexivity.
    + eapply (last_probe_here Scenario.relative_redirect [] Scenario.resolver
                DEFAULT_TIMEOUT _ 1 1 _ "http:").
      * vm_compute. reflexivity.
      * reflexivity.
      * vm_compute. reflexivity.
Defined.

(** ** Where the requests of a run go *)

Section Probes.

Variable World : Type.
Variable HTTP_get : request -> Z -> World -> net_event * World.
Variable headers : object.
Variable resolver : option string -> JsError + Url.
Variable timeout : Z.

(** The requests of one call of [runCheck] are built from URLs the
    resolver resolved, and there are at most
    [MAX_REDIRECT_COUNT + 1 - k] of them. *)
Lemma runCheck_requests (redirects : option nat) :
  forall (url : option string) (w : World) (log : list request),
  exists reqs,
    snd (snd (runCheck (logged HTTP_get) url headers resolver timeout redirects
                       (w, log))) = log ++ reqs /\
    Forall (fun req =>
              exists u loopbackURL proto,
                resolver u = inr loopbackURL /\
                protocol loopbackURL = Some proto /\
                req = probe_request headers loopbackURL proto) reqs /\
    length reqs <= S (MAX_REDIRECT_COUNT - redirects_or_0 redirects).
Proof.
  remember (MAX_REDIRECT_COUNT - redirects_or_0 redirects) as n eqn:Hn.
  revert redirects Hn.
  induction n as [n IH] using lt_wf_ind. intros redirects Hn url w log.
  rewrite runCheck_equation_1. cbv zeta.
  destruct (resolver url) as [e|loopbackURL] eqn:Hres;
    [exists []; rewrite app_nil_r; simpl; split; [reflexivity | split; [constructor | lia]]|].
  destruct (protocol loopbackURL) as [proto|] eqn:Hproto;
    [|exists []; rewrite app_nil_r; simpl; split; [reflexivity | split; [constructor | lia]]].
  rewrite get_logged.
  change (mkRequest _ _ _ _) with (probe_request headers loopbackURL proto).
  set (req := probe_request headers loopbackURL proto).
  assert (Hreq : Forall (fun req =>
              exists u loopbackURL proto,
                resolver u = inr loopbackURL /\
                protocol loopbackURL = Some proto /\
                req = probe_request headers loopbackURL proto) [req]).
  { constructor; [|constructor]. exists url, loopbackURL, proto. auto. }
  destruct (get HTTP_get req timeout w) as [[e|r] w1]; cbn [fst snd];
    [exists [req]; simpl; split; [reflexivity | split; [exact Hreq | lia]]|].
  destruct (truthy_num _);
    [|exists [req]; simpl; split; [reflexivity | split; [exact Hreq | lia]]].
  destruct (le_lt_dec MAX_REDIRECT_COUNT (redirects_or_0 redirects)) as [Hle|Hlt];
    [exists [req]; simpl; split; [reflexivity | split; [exact Hreq | lia]]|].
  destruct (resolver (get_prop (res_headers r) "location")) as [e|target];
    [exists [req]; simpl; split; [reflexivity | split; [exact Hreq | lia]]|].
  destruct (withinSameDomain target loopbackURL) as [e|[|]];
    try (exists [req]; simpl; split; [reflexivity | split; [exact Hreq | lia]]).
  destruct (IH (MAX_REDIRECT_COUNT - (redirects_or_0 redirects + 1))
               ltac:(lia) (Some (redirects_or_0 redirects + 1)) eq_refl
               (get_prop (res_headers r) "location") w1 (log ++ [req]))
    as [reqs [Hlog [Hall Hlen]]].
  destruct (runCheck _ _ _ _ _ _ _) as [res [w2 log2]].
  cbn [fst snd] in *. exists (req :: reqs). split; [|split].
  - rewrite Hlog, <- app_assoc. reflexivity.
  - constructor; [|exact Hall]. exists url, loopbackURL, proto. auto.
  - cbn [length]. subst n. cbn [redirects_or_0] in Hlen. lia.
Qed.

End Probes.

Section LocalProbes.

Variable World : Type.
Variable HTTP_get : request -> Z -> World -> net_event * World.
Variable hrtime : World -> Z.
Variable hrTime : Z -> string.
Variable URL_parse : string -> Url.
Variable URL_resolve : string -> string -> string.

Lemma probe_request_local (server : string) (requestID : option string)
      (u : option string) (loopbackURL : Url) (proto : string) :
  loopbackResolve URL_parse URL_resolve server u = inr loopbackURL ->
  local_probe URL_parse URL_resolve server requestID
              (probe_request (run_headers requestID) loopbackURL proto).
Proof.
  destruct u as [u|]; [|discriminate].
  rewrite loopbackResolve_string. cbv zeta. intros H. injection H as <-.
  unfold local_probe. cbn [probe_request req_host req_port req_path req_headers
                           host port path hostname].
  split; [reflexivity|]. split; [reflexivity|].
  split; [exists u; split; reflexivity|].
  split; reflexivity.
Qed.

(** X7.  Every request of a run of [checkFunction] goes to the local
    address and port of the server, whatever host the check URL or a
    redirect names; that host only shows in the [Host] header.  Every
    request carries the [User-Agent] of the module and the request id of
    the run (or the empty text).  A run puts at most
    [MAX_REDIRECT_COUNT + 1 = 11] requests per check. *)
Theorem checkFunction_requests_are_local :
  forall (this : context) (server : string) (requestID : option string)
         (w : World) (log : list request),
  exists reqs,
    snd (snd (checkFunction (logged HTTP_get) (logged_clock hrtime) hrTime
                            URL_parse URL_resolve this server requestID (w, log)))
    = log ++ reqs /\
    Forall (local_probe URL_parse URL_resolve server requestID) reqs /\
    length reqs <= (MAX_REDIRECT_COUNT + 1) * length (Object_keys (ctx_checks this)).
Proof.
  intros [checks timeout] server requestID. unfold checkFunction.
  cbn [ctx_checks ctx_timeout].
  assert (Hall : forall (w : World) (log : list request),
             exists reqs,
               snd (snd (allChecks (logged HTTP_get) (logged_clock hrtime) hrTime
                                   URL_parse URL_resolve server requestID timeout
                                   checks (w, log))) = log ++ reqs /\
               Forall (local_probe URL_parse URL_resolve server requestID) reqs /\
               length reqs
               <= (MAX_REDIRECT_COUNT + 1) * length (Object_keys checks)).
  { induction checks as [|[checkURL expected] checks IH]; intros w log.
    - exists []. rewrite app_nil_r. simpl. split; [reflexivity|]. split; [constructor | lia].
    - cbn [allChecks].
      change [("User-Agent", _); ("X-Request-Id", _)] with (run_headers requestID).
      destruct (runCheck_requests World HTTP_get (run_headers requestID)
                  (loopbackResolve URL_parse URL_resolve server) timeout None
                  (Some checkURL) w log) as [reqs1 [Hlog1 [Hall1 Hlen1]]].
      assert (Hlocal1 : Forall (local_probe URL_parse URL_resolve server requestID)
                               reqs1).
      { eapply Forall_impl; [|exact Hall1].
        intros req [u [lb [proto [Hres [_ ->]]]]].
        eapply probe_request_local. exact Hres. }
      cbn [redirects_or_0] in Hlen1.
      destruct (runCheck _ _ _ _ _ _ _) as [res [w1 log1]].
      cbn [snd] in Hlog1. subst log1.
      assert (Hlen : length (Object_keys ((checkURL, expected) :: checks))
                     = S (length (Object_keys checks))) by reflexivity.
      destruct res as [e|e|r].
      + exists reqs1. cbn [snd]. split; [reflexivity|]. split; [exact Hlocal1|].
        rewrite Hlen. unfold MAX_REDIRECT_COUNT in *. lia.
      + destruct (IH w1 (log ++ reqs1)) as [reqs2 [Hlog2 [Hall2 Hlen2]]].
        destruct (allChecks _ _ _ _ _ _ _ _ checks _) as [[e'|rest] [w2 log2]];
          cbn [snd] in *; subst log2; exists (reqs1 ++ reqs2);
          (split; [now rewrite app_assoc|]);
          (split; [now apply Forall_app|]);
          rewrite length_app, Hlen; unfold MAX_REDIRECT_COUNT in *; lia.
      + destruct (IH w1 (log ++ reqs1)) as [reqs2 [Hlog2 [Hall2 Hlen2]]].
        destruct (allChecks _ _ _ _ _ _ _ _ checks _) as [[e'|rest] [w2 log2]];
          cbn [snd] in *; subst log2; exists (reqs1 ++ reqs2);
          (split; [now rewrite app_assoc|]);
          (split; [now apply Forall_app|]);
          rewrite length_app, Hlen; unfold MAX_REDIRECT_COUNT in *; lia. }
  intros w log. destruct (Hall w log) as [reqs [Hlog [Hloc Hlen]]].
  exists reqs.
  destruct (allChecks _ _ _ _ _ _ _ _ checks _) as [[e'|rest] [w2 log2]];
    cbn [snd] in *; auto.
Qed.

End LocalProbes.

(** ** What the lists of a run say about the probes *)

Lemma Outcome_response_fields (hrTime : Z -> string) (args : OutcomeArgs) :
  args_error args = None ->
  statusCode (Outcome hrTime args) = Some (args_statusCode args) /\
  body (Outcome hrTime args) = Some (args_body args) /\
  error (Outcome hrTime args) = None /\
  expectedContent (Outcome hrTime args) = args_expected args.
Proof.
  intros He. unfold Outcome. rewrite He.
  destruct ((args_statusCode args <? 200) || (args_statusCode args >=? 400))%Z;
    [|destruct (negb _)]; repeat split; reflexivity.
Qed.

Lemma Outcome_error_fields (hrTime : Z -> string) (args : OutcomeArgs)
      (e : JsError) :
  args_error args = Some e ->
  (code e = Some "ETIMEDOUT" ->
   reason (Outcome hrTime args) = Some "timeout" /\
   timeout (Outcome hrTime args) = Some true) /\
  (code e <> Some "ETIMEDOUT" ->
   reason (Outcome hrTime args) = Some "error" /\
   error (Outcome hrTime args) = Some e).
Proof.
  intros He. unfold Outcome. rewrite He.
  destruct (strict_eq (code e) (Some "ETIMEDOUT")) eqn:Hc.
  - apply strict_eq_Some_iff in Hc. split; [split; reflexivity | congruence].
  - split; [|split; reflexivity].
    intros H. apply strict_eq_Some_iff in H. congruence.
Qed.

Section ProbedRuns.

Variable World : Type.
Variable HTTP_get : request -> Z -> World -> net_event * World.
Variable hrtime : World -> Z.
Variable hrTime : Z -> string.
Variable URL_parse : string -> Url.
Variable URL_resolve : string -> string -> string.

(** Each outcome of a run is made of the way the probe of its check
    ended, started in some state of the world. *)
Lemma allChecks_outcomes_probed (server : string) (requestID : option string)
      (timeout : Z) :
  forall (checks : registry) (w w' : World) (outcomes : list outcome),
    allChecks HTTP_get hrtime hrTime URL_parse URL_resolve
              server requestID timeout checks w = (inr outcomes, w') ->
    Forall2 (fun entry o =>
               exists w0,
                 probe_outcome hrTime entry
                   (fst (runCheck HTTP_get (Some (fst entry))
                                  (run_headers requestID)
                                  (loopbackResolve URL_parse URL_resolve server)
                                  timeout None w0)) o)
            checks outcomes.
Proof.
  induction checks as [|[checkURL expected] checks IH]; intros w w' outcomes H.
  - simpl in H. injection H as <- _. constructor.
  - cbn [allChecks] in H.
    change [("User-Agent", _); ("X-Request-Id", _)] with (run_headers requestID) in H.
    destruct (runCheck HTTP_get (Some checkURL) (run_headers requestID)
                       (loopbackResolve URL_parse URL_resolve server)
                       timeout None w) as [res w1] eqn:Hrun.
    destruct res as [e|e|r]; [discriminate| |];
      (destruct (allChecks _ _ _ _ _ _ _ _ checks w1) as [[e'|rest] w2] eqn:Hrest;
       [discriminate|]);
      injection H as <- _;
      (constructor; [|eapply IH; eassumption]);
      exists w; cbn [fst snd]; rewrite Hrun; cbn [fst probe_outcome];
      eexists; reflexivity.
Qed.

Lemma Forall2_entry_of {A : Type} (R : string * list string -> A -> Prop)
      (checks : registry) (l : list A) (x : A) :
  Forall2 R checks l -> In x l ->
  exists entry, In entry checks /\ R entry x.
Proof. apply Forall2_In_r. Qed.

(** X8.  An outcome is in the passed list only if the probe of its
    check was resolved with a response whose status is in 200..399 and
    whose body holds every text the registry expects for that URL; the
    outcome carries that status, that body and those texts, and no
    error. *)
Theorem passed_outcome_comes_from_good_response :
  forall (this : context) (server : string) (requestID : option string)
         (w w' : World) (pf : passedAndFailed) (o : outcome),
    checkFunction HTTP_get hrtime hrTime URL_parse URL_resolve
                  this server requestID w = (inr pf, w') ->
    In o (passed pf) ->
    exists expected r w0,
      In (url o, expected) (ctx_checks this) /\
      fst (runCheck HTTP_get (Some (url o)) (run_headers requestID)
                    (loopbackResolve URL_parse URL_resolve server)
                    (ctx_timeout this) None w0) = Resolves r /\
      (200 <= res_statusCode r < 400)%Z /\
      (forall text, In text expected -> contains (res_body r) text) /\
      statusCode o = Some (res_statusCode r) /\
      body o = Some (res_body r) /\
      expectedContent o = expected /\
      error o = None.
Proof.
  intros this server requestID w w' pf o Hrun Hin.
  unfold checkFunction in Hrun.
  destruct (allChecks _ _ _ _ _ _ _ _ _ _) as [[e|outcomes] w1] eqn:Hall;
    [discriminate|].
  injection Hrun as <- _. cbn [split_outcomes passed] in Hin.
  apply filter_In in Hin as [Hin Ht]. cbv beta in Ht.
  apply allChecks_outcomes_probed in Hall.
  destruct (Forall2_entry_of _ _ _ o Hall Hin) as [[u expected] [Hentry [w0 Hp]]].
  cbn [fst snd] in Hp.
  destruct (fst (runCheck HTTP_get (Some u) _ _ _ None w0)) as [e|e|r] eqn:Hres;
    cbn [probe_outcome fst snd] in Hp; [contradiction| |]; destruct Hp as [el ->].
  - exfalso. rewrite Outcome_reason in Ht. cbn [args_error] in Ht.
    destruct (strict_eq _ _); discriminate.
  - assert (Hnone : reason (Outcome hrTime (mkArgs u expected (res_statusCode r)
                                               (res_body r) None el)) = None).
    { destruct (Outcome_reason_cases hrTime
                  (mkArgs u expected (res_statusCode r) (res_body r) None el))
        as [E|[s [E Hs]]]; [exact E|].
      rewrite E in Ht. apply failure_reason_truthy in Hs as [Hs _].
      rewrite Hs in Ht. discriminate. }
    destruct (Outcome_spec_reason hrTime
                (mkArgs u expected (res_statusCode r) (res_body r) None el))
      as [Hspec _].
    rewrite Hnone in Hspec. inversion Hspec as [| | | |_ Hrange Htexts].
    cbn [args_statusCode args_body args_expected] in *.
    destruct (Outcome_response_fields hrTime
                (mkArgs u expected (res_statusCode r) (res_body r) None el) eq_refl)
      as [Hsc [Hb [Herr Hexp]]].
    rewrite Outcome_url. cbn [args_url].
    exists expected, r, w0. repeat split; auto; try lia.
Qed.

(** X9.  An outcome in the failed list tells how the probe of its
    check ended.  When the promise was rejected, the reason is [timeout]
    for an error of code [ETIMEDOUT] and [error] otherwise, with the
    error kept.  When it was resolved with a response, the reason is
    [statusCode] for a status outside 200..399, else [body] and some
    expected text is missing from the body. *)
Theorem failed_outcome_explains_the_probe :
  forall (this : context) (server : string) (requestID : option string)
         (w w' : World) (pf : passedAndFailed) (o : outcome),
    checkFunction HTTP_get hrtime hrTime URL_parse URL_resolve
                  this server requestID w = (inr pf, w') ->
    In o (failed pf) ->
    exists expected w0,
      In (url o, expected) (ctx_checks this) /\
      match fst (runCheck HTTP_get (Some (url o)) (run_headers requestID)
                          (loopbackResolve URL_parse URL_resolve server)
                          (ctx_timeout this) None w0) with
      | Rejects e =>
          (code e = Some "ETIMEDOUT" /\ reason o = Some "timeout" /\
           timeout o = Some true) \/
          (code e <> Some "ETIMEDOUT" /\ reason o = Some "error" /\
           error o = Some e)
      | Resolves r =>
          statusCode o = Some (res_statusCode r) /\
          body o = Some (res_body r) /\
          (((res_statusCode r < 200 \/ res_statusCode r >= 400)%Z /\
            reason o = Some "statusCode") \/
           ((200 <= res_statusCode r < 400)%Z /\ reason o = Some "body" /\
            exists text, In text expected /\ ~ contains (res_body r) text))
      | Throws _ => False
      end.
Proof.
  intros this server requestID w w' pf o Hrun Hin.
  unfold checkFunction in Hrun.
  destruct (allChecks _ _ _ _ _ _ _ _ _ _) as [[e|outcomes] w1] eqn:Hall;
    [discriminate|].
  injection Hrun as <- _. cbn [split_outcomes failed] in Hin.
  apply filter_In in Hin as [Hin Ht]. cbv beta in Ht.
  apply allChecks_outcomes_probed in Hall.
  destruct (Forall2_entry_of _ _ _ o Hall Hin) as [[u expected] [Hentry [w0 Hp]]].
  cbn [fst snd] in Hp.
  exists expected, w0.
  destruct (fst (runCheck HTTP_get (Some u) _ _ _ None w0)) as [e|e|r] eqn:Hres;
    cbn [probe_outcome fst snd] in Hp; [contradiction| |]; destruct Hp as [el ->];
    rewrite Outcome_url; cbn [args_url]; rewrite Hres; (split; [exact Hentry|]).
  - destruct (Outcome_error_fields hrTime (mkArgs u expected 0 "" (Some e) el) e
                                   eq_refl) as [Htime Herr].
    destruct (strict_eq (code e) (Some "ETIMEDOUT")) eqn:Hc.
    + apply strict_eq_Some_iff in Hc. left. destruct (Htime Hc). auto.
    + assert (Hn : code e <> Some "ETIMEDOUT").
      { intros H. apply strict_eq_Some_iff in H. congruence. }
      right. destruct (Herr Hn). auto.
  - destruct (Outcome_response_fields hrTime
                (mkArgs u expected (res_statusCode r) (res_body r) None el) eq_refl)
      as [Hsc [Hb _]].
    split; [exact Hsc|]. split; [exact Hb|].
    destruct (Outcome_spec_reason hrTime
                (mkArgs u expected (res_statusCode r) (res_body r) None el))
      as [Hspec _].
    inversion Hspec as [e He|e He|_ Hout Hr|text _ Hrange Htext Hmiss Hr
                        |_ Hrange Htexts Hr]; cbn [args_error] in *;
      try discriminate; cbn [args_statusCode args_body args_expected] in *.
    + left. split; [exact Hout | reflexivity].
    + right. split; [exact Hrange|]. split; [reflexivity|]. eauto.
    + rewrite <- Hr in Ht. discriminate.
Qed.

End ProbedRuns.

Lemma passed_outcome_comes_from_good_response_witness :
  exists pf w' o,
    Scenario.run = (inr pf, w') /\ In o (passed pf) /\
    exists expected r w0,
      In (url o, expected) (ctx_checks Scenario.three_checks) /\
      fst (runCheck Scenario.three_pages (Some (url o)) (run_headers None)
                    (loopbackResolve NodeUrl.parse NodeUrl.resolve
                                     Scenario.local_server)
                    (ctx_timeout Scenario.three_checks) None w0) = Resolves r /\
      (200 <= res_statusCode r < 400)%Z.
Proof.
  destruct Scenario.run as [[e|pf] w'] eqn:Hrun;
    [vm_compute in Hrun; discriminate|].
  assert (Hin : exists o, In o (passed pf)).
  { vm_compute in Hrun. injection Hrun as <- _. eexists. left. reflexivity. }
  destruct Hin as [o Hin]. exists pf, w', o.
  split; [reflexivity|]. split; [exact Hin|].
  destruct (passed_outcome_comes_from_good_response
              nat Scenario.three_pages Scenario.clock Scenario.pretty
              NodeUrl.parse NodeUrl.resolve Scenario.three_checks
              Scenario.local_server None 0 w' pf o Hrun Hin)
    as [expected [r [w0 [H1 [H2 [H3 _]]]]]].
  exists expected, r, w0. auto.
Defined.

Lemma failed_outcome_explains_the_probe_witness :
  exists pf w' o,
    Scenario.run = (inr pf, w') /\ In o (failed pf) /\
    exists expected w0,
      In (url o, expected) (ctx_checks Scenario.three_checks) /\
      match fst (runCheck Scenario.three_pages (Some (url o)) (run_headers None)
                          (loopbackResolve NodeUrl.parse NodeUrl.resolve
                                           Scenario.local_server)
                          (ctx_timeout Scenario.three_checks) None w0) with
      | Rejects e => reason o = Some "timeout" \/ reason o = Some "error"
      | Resolves r => reason o = Some "statusCode" \/ reason o = Some "body"
      | Throws _ => False
      end.
Proof.
  destruct Scenario.run as [[e|pf] w'] eqn:Hrun;
    [vm_compute in Hrun; discriminate|].
  assert (Hin : exists o, In o (failed pf)).
  { vm_compute in Hrun. injection Hrun as <- _. eexists. left. reflexivity. }
  destruct Hin as [o Hin]. exists pf, w', o.
  split; [reflexivity|]. split; [exact Hin|].
  destruct (failed_outcome_explains_the_probe
              nat Scenario.three_pages Scenario.clock Scenario.pretty
              NodeUrl.parse NodeUrl.resolve Scenario.three_checks
              Scenario.local_server None 0 w' pf o Hrun Hin)
    as [expected [w0 [H1 H2]]].
  exists expected, w0. split; [exact H1|].
  destruct (fst (runCheck _ _ _ _ _ _ w0)) as [e|e|r]; [exact H2| |];
    intuition.
Defined.

(** ** The answer of the middleware *)

Lemma delete_body_keeps (o : outcome) :
  url (delete_body o) = url o /\ reason (delete_body o) = reason o /\
  elapsed (delete_body o) = elapsed o /\
  expectedContent (delete_body o) = expectedContent o /\
  timeout (delete_body o) = timeout o /\ error (delete_body o) = error o /\
  statusCode (delete_body o) = statusCode o /\ body (delete_body o) = None.
Proof. repeat split. Qed.

(** X10.  The two formats of the answer differ by the bodies only.
    The JSON answer has the status of the HTML answer and the same
    outcomes in the same order, each without its [body] and otherwise
    unchanged; the lists of the HTML answer are the lists of the run,
    reordered: no outcome is lost, added or changed. *)
Theorem JSON_answer_is_HTML_answer_without_bodies :
  forall (pf : passedAndFailed),
    rep_statusCode (respond true pf) = rep_statusCode (respond false pf) /\
    rep_passed (respond true pf) = map delete_body (rep_passed (respond false pf)) /\
    rep_failed (respond true pf) = map delete_body (rep_failed (respond false pf)) /\
    (forall o, In o (rep_passed (respond true pf) ++ rep_failed (respond true pf)) ->
               body o = None /\
               exists o', In o' (passed pf ++ failed pf) /\
                          url o = url o' /\ reason o = reason o' /\
                          statusCode o = statusCode o' /\ error o = error o' /\
                          timeout o = timeout o' /\ elapsed o = elapsed o' /\
                          expectedContent o = expectedContent o') /\
    Permutation (rep_passed (respond false pf)) (passed pf) /\
    Permutation (rep_failed (respond false pf)) (failed pf).
Proof.
  intros pf. unfold respond. cbn [rep_statusCode rep_passed rep_failed].
  split; [reflexivity|]. split; [reflexivity|]. split; [reflexivity|].
  split; [|split; apply Array_sort_perm].
  intros o Hin. unfold removeBodyProp in Hin. rewrite <- map_app in Hin.
  apply in_map_iff in Hin as [o' [<- Hin]].
  split; [reflexivity|]. exists o'. split; [|repeat split].
  apply in_app_or in Hin. apply in_or_app.
  destruct Hin as [Hin|Hin]; [left|right];
    (eapply Permutation_in; [apply Array_sort_perm | exact Hin]).
Qed.

Section Answers.

Variable World : Type.
Variable HTTP_get : request -> Z -> World -> net_event * World.
Variable hrtime : World -> Z.
Variable hrTime : Z -> string.
Variable URL_parse : string -> Url.
Variable URL_parse_throws : string -> option JsError.
Variable URL_resolve : string -> string -> string.
Variable URL_format : string -> string -> string -> string.
Variable readFileSync : string -> JsError + string.

Lemma respond_lengths (useJSON : bool) (pf : passedAndFailed) :
  length (rep_passed (respond useJSON pf)) = length (passed pf) /\
  length (rep_failed (respond useJSON pf)) = length (failed pf) /\
  rep_statusCode (respond useJSON pf) =
  (if (0 <? Z.of_nat (length (failed pf)))%Z then 500
   else if (0 <? Z.of_nat (length (passed pf)))%Z then 200 else 404)%Z.
Proof.
  unfold respond, statusCodeFromOutcomes.
  destruct useJSON; cbn [rep_passed rep_failed rep_statusCode];
    unfold removeBodyProp; rewrite ?length_map, !Array_sort_length; auto.
Qed.

(** X11.  The status of an answer tells what the run did: 404 exactly
    when the registry has no check, 500 exactly when some check failed,
    200 exactly when there is a check and none failed; the two lists of
    the answer hold one outcome per check of the registry. *)
Theorem middleware_status_tells_the_run :
  forall (this : context) (useJSON : bool) (req : incoming) (w w' : World)
         (rep : report),
    middleware HTTP_get hrtime hrTime URL_parse URL_resolve URL_format
               this useJSON req w = (inr rep, w') ->
    (rep_statusCode rep = 404%Z <-> ctx_checks this = []) /\
    (rep_statusCode rep = 500%Z <-> rep_failed rep <> []) /\
    (rep_statusCode rep = 200%Z <-> ctx_checks this <> [] /\ rep_failed rep = []) /\
    In (rep_statusCode rep) [200; 404; 500]%Z /\
    length (rep_passed rep) + length (rep_failed rep)
    = length (Object_keys (ctx_checks this)).
Proof.
  intros this useJSON req w w' rep Hrun. unfold middleware in Hrun.
  destruct (checkFunction _ _ _ _ _ _ _ _ _) as [[e|pf] w1] eqn:Hcheck;
    [discriminate|].
  injection Hrun as <- _.
  destruct (checkFunction_outcomes World HTTP_get hrtime hrTime URL_parse
              URL_resolve this _ _ w w1 pf Hcheck) as [outcomes [Hall ->]].
  pose proof (Forall2_length Hall) as Hlen.
  pose proof (filter_split_length outcome (fun o => truthy (reason o)) outcomes)
    as Hsplit.
  destruct (respond_lengths useJSON (split_outcomes outcomes)) as [Hp [Hf Hs]].
  cbn [split_outcomes passed failed] in Hp, Hf, Hs.
  unfold Object_keys. rewrite length_map, Hp, Hf, Hs.
  assert (Hnil : forall (A : Type) (l : list A), l = [] <-> length l = 0).
  { intros A l. destruct l; simpl; split; intros; try discriminate; auto. }
  assert (Hnnil : forall (A : Type) (l : list A), l <> [] <-> 0 < length l).
  { intros A l. destruct l; simpl; split; intros; try lia; try congruence. }
  rewrite (Hnnil _ (ctx_checks this)), (Hnil _ (ctx_checks this)),
          (Hnnil _ (rep_failed _)), (Hnil _ (rep_failed _)), Hf.
  destruct (Z.ltb_spec 0 (Z.of_nat (length
              (filter (fun o => truthy (reason o)) outcomes)))) as [H1|H1];
    [|destruct (Z.ltb_spec 0 (Z.of_nat (length
              (filter (fun o => negb (truthy (reason o))) outcomes)))) as [H2|H2]];
    (split; [split; intros; try discriminate; lia|]);
    (split; [split; intros; try discriminate; try reflexivity; lia|]);
    (split; [split; intros; try discriminate; try reflexivity; lia|]);
    (split; [simpl; auto | lia]).
Qed.

(** X12.  A registry the loader returns is empty exactly when the
    file has no check line (it is empty, or made of blank lines,
    comments and [name=value] lines); the middleware then answers every
    request with 404 and two empty lists, without a single probe. *)
Theorem file_without_checks_answers_404 :
  forall (filename content : string) (timeout : Z) (this : context),
    readFileSync filename = inr content ->
    readChecks URL_parse URL_parse_throws readFileSync filename timeout = inr this ->
    (ctx_checks this = [] <-> check_lines content = []) /\
    (check_lines content = [] ->
     forall (useJSON : bool) (req : incoming) (w : World) (log : list request),
       middleware (logged HTTP_get) (logged_clock hrtime) hrTime
                  URL_parse URL_resolve URL_format this useJSON req (w, log)
       = (inr (mkReport 404 [] []), (w, log))).
Proof.
  intros filename content timeout this Hfile Hload.
  destruct (readChecks_content URL_parse URL_parse_throws readFileSync filename content timeout Hfile)
    as [split [Hsplit Hread]].
  rewrite Hread in Hload.
  destruct (map_throwing (validate URL_parse URL_parse_throws) split) as [e|valid] eqn:Hv;
    [discriminate|].
  injection Hload as <-. cbn [ctx_checks].
  apply map_throwing_inr in Hv.
  pose proof (Forall2_length Hsplit) as Hlen1.
  pose proof (Forall2_length Hv) as Hlen2.
  assert (Hempty : fold_left add_check valid [] = [] <-> check_lines content = []).
  { split.
    - intros Hnil. destruct valid as [|c valid].
      + destruct split; [|discriminate]. destruct (check_lines content);
          [reflexivity | discriminate].
      + exfalso.
        assert (Hin : In (check_url c)
                         (Object_keys (fold_left add_check (c :: valid) [])))
          by (apply add_checks_keys; right; simpl; auto).
        rewrite Hnil in Hin. contradiction.
    - intros Hnil. rewrite Hnil in Hlen1. destruct split; [|discriminate].
      destruct valid; [reflexivity | discriminate]. }
  split; [exact Hempty|].
  intros Hnil useJSON req w log. apply Hempty in Hnil. rewrite Hnil.
  destruct useJSON; reflexivity.
Qed.

End Answers.

Lemma middleware_status_tells_the_run_witness :
  exists rep w',
    middleware Scenario.three_pages Scenario.clock Scenario.pretty
               NodeUrl.parse NodeUrl.resolve NodeUrl.format
               Scenario.three_checks true
               (mkIncoming false "127.0.0.1" "5000" None) 0 = (inr rep, w') /\
    rep_statusCode rep = 500%Z /\
    length (rep_passed rep) + length (rep_failed rep) = 3.
Proof.
  destruct (middleware Scenario.three_pages Scenario.clock Scenario.pretty
              NodeUrl.parse NodeUrl.resolve NodeUrl.format
              Scenario.three_checks true
              (mkIncoming false "127.0.0.1" "5000" None) 0)
    as [[e|rep] w'] eqn:Hrun; [vm_compute in Hrun; discriminate|].
  exists rep, w'. split; [reflexivity|].
  destruct (middleware_status_tells_the_run
              nat Scenario.three_pages Scenario.clock Scenario.pretty
              NodeUrl.parse NodeUrl.resolve NodeUrl.format
              Scenario.three_checks true
              (mkIncoming false "127.0.0.1" "5000" None) 0 w' rep Hrun)
    as [_ [H500 [_ [_ Hlen]]]].
  split; [|exact Hlen].
  apply H500. vm_compute in Hrun. injection Hrun as <- _. discriminate.
Defined.

Lemma file_without_checks_answers_404_witness :
  middleware (logged Scenario.three_pages) (logged_clock Scenario.clock)
             Scenario.pretty NodeUrl.parse NodeUrl.resolve NodeUrl.format
             (mkContext [] DEFAULT_TIMEOUT) true
             (mkIncoming false "127.0.0.1" "5000" None) (0, [])
  = (inr (mkReport 404 [] []), (0, [])).
Proof.
  apply (proj2 (file_without_checks_answers_404
                  nat Scenario.three_pages Scenario.clock Scenario.pretty
                  NodeUrl.parse NodeUrl.parse_throws NodeUrl.resolve
                  NodeUrl.format
                  (fun _ => inr ("# no check yet" ++ Scenario.LF ++ Scenario.LF
                                 ++ "timeout=3s" ++ Scenario.LF)%string)
                  "./checks" _ DEFAULT_TIMEOUT (mkContext [] DEFAULT_TIMEOUT)
                  eq_refl ltac:(vm_compute; reflexivity))).
  vm_compute. reflexivity.
Defined.

(** ** A redirect loop, seen from the answer *)

Section LoopOutcome.

Variable World : Type.
Variable HTTP_get : request -> Z -> World -> net_event * World.
Variable hrtime : World -> Z.
Variable hrTime : Z -> string.
Variable URL_parse : string -> Url.
Variable URL_resolve : string -> string -> string.
Variable server : string.
Variable requestID : option string.
Variable timeout : Z.

(** URLs whose probes are always answered by a redirect, within the
    same domain, to another of them. *)
Variable chain : option string -> Prop.

Hypothesis chain_resolves :
  forall u, chain u ->
    exists loopbackURL proto,
      loopbackResolve URL_parse URL_resolve server u = inr loopbackURL /\
      protocol loopbackURL = Some proto.

Hypothesis chain_redirects :
  forall u loopbackURL proto w,
    chain u ->
    loopbackResolve URL_parse URL_resolve server u = inr loopbackURL ->
    protocol loopbackURL = Some proto ->
    exists r w1 target,
      HTTP_get (probe_request (run_headers requestID) loopbackURL proto) timeout w
      = (OnResponse r, w1) /\
      In (res_statusCode r) REDIRECT_STATUSES /\
      chain (location r) /\
      loopbackResolve URL_parse URL_resolve server (location r) = inr target /\
      withinSameDomain target loopbackURL = inr true.

Lemma redirect_loop_rejects (u : option string) (w : World) :
  chain u ->
  exists w',
    runCheck HTTP_get u (run_headers requestID)
             (loopbackResolve URL_parse URL_resolve server) timeout None w
    = (Rejects too_many_redirects, w').
Proof.
  intros Hu.
  destruct (redirect_loop_from World HTTP_get (run_headers requestID)
              (loopbackResolve URL_parse URL_resolve server) timeout chain
              chain_resolves chain_redirects
              MAX_REDIRECT_COUNT None u w [] eq_refl
              ltac:(simpl; unfold MAX_REDIRECT_COUNT; lia) Hu)
    as [w' [reqs [Hrun _]]].
  destruct (runCheck_logged World HTTP_get (run_headers requestID)
              (loopbackResolve URL_parse URL_resolve server) timeout None u w [])
    as [Hres Hworld].
  rewrite Hrun in Hres, Hworld. cbn [fst snd] in Hres, Hworld.
  exists w'.
  destruct (runCheck HTTP_get u _ _ timeout None w) as [res w2].
  cbn [fst snd] in Hres, Hworld. congruence.
Qed.

(** X13.  When every check of the registry sits on a redirect loop
    within its domain, the run still ends: it resolves with an empty
    passed list and one failed outcome per check, each of reason [error]
    and carrying the error "too many redirects". *)
Theorem redirect_loops_end_in_error_outcomes :
  forall (checks : registry) (w : World),
    (forall key, In key (Object_keys checks) -> chain (Some key)) ->
    exists pf w',
      checkFunction HTTP_get hrtime hrTime URL_parse URL_resolve
                    (mkContext checks timeout) server requestID w = (inr pf, w') /\
      passed pf = [] /\
      map url (failed pf) = Object_keys checks /\
      forall o, In o (failed pf) ->
                reason o = Some "error" /\ error o = Some too_many_redirects /\
                statusCode o = None /\ body o = None.
Proof.
  intros checks w Hkeys. unfold checkFunction. cbn [ctx_checks ctx_timeout].
  assert (Hall : exists outcomes w',
             allChecks HTTP_get hrtime hrTime URL_parse URL_resolve
                       server requestID timeout checks w = (inr outcomes, w') /\
             map url outcomes = Object_keys checks /\
             Forall (fun o => reason o = Some "error" /\
                              error o = Some too_many_redirects /\
                              statusCode o = None /\ body o = None) outcomes).
  { revert w. induction checks as [|[checkURL expected] checks IH]; intros w.
    - exists [], w. repeat split. constructor.
    - cbn [allChecks].
      change [("User-Agent", _); ("X-Request-Id", _)] with (run_headers requestID).
      destruct (redirect_loop_rejects (Some checkURL) w
                  (Hkeys checkURL (or_introl eq_refl))) as [w1 ->].
      destruct (IH (fun key Hin => Hkeys key (or_intror Hin)) w1)
        as [outcomes [w' [-> [Hurls Hall]]]].
      eexists. exists w'. split; [reflexivity|]. split.
      + cbn [map]. rewrite Hurls, Outcome_url. reflexivity.
      + constructor; [|exact Hall]. repeat split. }
  destruct Hall as [outcomes [w' [-> [Hurls Hall]]]].
  exists (split_outcomes outcomes), w'. split; [reflexivity|].
  assert (Hfail : filter (fun o => truthy (reason o)) outcomes = outcomes).
  { clear Hurls. induction Hall as [|o l [Hr _] _ IH]; simpl; [reflexivity|].
    rewrite Hr. simpl. now rewrite IH. }
  assert (Hpass : filter (fun o => negb (truthy (reason o))) outcomes = []).
  { clear Hurls Hfail. induction Hall as [|o l [Hr _] _ IH]; simpl; [reflexivity|].
    rewrite Hr. simpl. exact IH. }
  cbn [split_outcomes passed failed]. rewrite Hfail, Hpass.
  split; [reflexivity|]. split; [exact Hurls|].
  now apply Forall_forall.
Qed.

End LoopOutcome.

Lemma redirect_loops_end_in_error_outcomes_witness :
  exists pf w',
    checkFunction Scenario.self_redirect Scenario.clock Scenario.pretty
                  NodeUrl.parse NodeUrl.resolve
                  (mkContext [("/loop", ["never seen"])] DEFAULT_TIMEOUT)
                  Scenario.local_server None 0 = (inr pf, w') /\
    passed pf = [] /\
    map url (failed pf) = ["/loop"].
Proof.
  destruct (redirect_loops_end_in_error_outcomes
              nat Scenario.self_redirect Scenario.clock Scenario.pretty
              NodeUrl.parse NodeUrl.resolve Scenario.local_server None
              DEFAULT_TIMEOUT (fun u => u = Some "/loop"))
    with (checks := [("/loop", ["never seen"])]) (w := 0)
    as [pf [w' [Hrun [Hp [Hf _]]]]].
  - intros u ->. eexists. eexists. split; vm_compute; reflexivity.
  - intros u lb proto w -> Hres Hproto.
    exists (Scenario.redirect_to "/loop"), (S w).
    vm_compute in Hres. injection Hres as <-.
    eexists. split; [reflexivity|].
    split; [vm_compute; auto|].
    split; [reflexivity|].
    split; vm_compute; reflexivity.
  - intros key [<-|[]]. reflexivity.
  - exists pf, w'. auto.
Defined.

(** ** The registry the loader builds *)

Section RegistryContent.

Lemma memo_get_set (memo : registry) (u k : string) (v : list string) :
  memo_get (memo_set memo u v) k =
  if String.eqb u k then Some v else memo_get memo k.
Proof.
  induction memo as [|[k' v'] memo IH]; simpl.
  - rewrite String.eqb_sym. destruct (String.eqb k u) eqn:E; [|reflexivity].
    reflexivity.
  - destruct (String.eqb_spec k' u) as [->|Hne]; simpl.
    + destruct (String.eqb u k); reflexivity.
    + rewrite IH. destruct (String.eqb_spec k' k) as [->|Hne'].
      * destruct (String.eqb_spec u k) as [->|_]; [congruence | reflexivity].
      * reflexivity.
Qed.

Lemma memo_set_keys_list (memo : registry) (u : string) (v : list string) :
  Object_keys (memo_set memo u v) =
  if existsb (fun k => String.eqb k u) (Object_keys memo)
  then Object_keys memo else Object_keys memo ++ [u].
Proof.
  induction memo as [|[k' v'] memo IH]; simpl; [reflexivity|].
  destruct (String.eqb k' u); simpl; [reflexivity|].
  rewrite IH. destruct (existsb _ (Object_keys memo)); reflexivity.
Qed.

Lemma add_checks_keys_list (cs : list check) :
  forall (memo : registry),
    Object_keys (fold_left add_check cs memo) =
    Object_keys memo ++ new_keys (Object_keys memo) (map check_url cs).
Proof.
  induction cs as [|c cs IH]; intros memo; simpl.
  - now rewrite app_nil_r.
  - rewrite IH. unfold add_check at 1 2. rewrite memo_set_keys_list.
    destruct (existsb _ (Object_keys memo)); [reflexivity|].
    now rewrite <- app_assoc.
Qed.

Lemma filter_filter {A : Type} (f g : A -> bool) (l : list A) :
  filter f (filter g l) = filter (fun x => g x && f x) l.
Proof.
  induction l as [|x l IH]; simpl; [reflexivity|].
  destruct (g x); simpl; [destruct (f x); simpl; congruence | exact IH].
Qed.

Lemma new_keys_first_occurrences (l : list string) :
  forall (seen : list string),
    new_keys seen l =
    filter (fun y => negb (existsb (fun k => String.eqb k y) seen))
           (first_occurrences l).
Proof.
  induction l as [|x l IH]; intros seen; simpl; [reflexivity|].
  destruct (existsb (fun k => String.eqb k x) seen) eqn:Hx; simpl.
  - rewrite IH, filter_filter. apply filter_ext_in. intros y _.
    destruct (String.eqb_spec y x) as [->|Hne]; simpl; [now rewrite Hx | reflexivity].
  - f_equal. rewrite IH, filter_filter. apply filter_ext. intros y.
    rewrite existsb_app. simpl. rewrite orb_false_r, negb_orb.
    rewrite (String.eqb_sym x y). apply andb_comm.
Qed.

Lemma add_checks_get (cs : list check) (u : string) :
  forall (memo : registry),
    memo_get (fold_left add_check cs memo) u =
    match memo_get memo u, existsb (fun c => String.eqb (check_url c) u) cs with
    | None, false => None
    | Some old, _ => Some (old ++ texts_of u cs)
    | None, true => Some (texts_of u cs)
    end.
Proof.
  induction cs as [|c cs IH]; intros memo; simpl.
  - destruct (memo_get memo u); [now rewrite app_nil_r | reflexivity].
  - rewrite IH. unfold add_check at 1. rewrite memo_get_set.
    unfold texts_of. cbn [filter].
    destruct (String.eqb_spec (check_url c) u) as [->|Hne]; cbn [orb map filter].
    + unfold truthy.
      destruct (memo_get memo u) as [old|];
        destruct (String.eqb (check_expected c) ""); cbn [negb app];
        rewrite <- ?app_assoc; reflexivity.
    + reflexivity.
Qed.

Lemma registry_by_keys (memo : registry) :
  NoDup (Object_keys memo) ->
  memo = map (fun k => (k, match memo_get memo k with
                           | Some v => v
                           | None => []
                           end)) (Object_keys memo).
Proof.
  induction memo as [|[k v] memo IH]; simpl; intros H; [reflexivity|].
  inversion H as [|? ? Hnin Hnd]; subst.
  rewrite String.eqb_refl. f_equal. rewrite (IH Hnd) at 1.
  apply map_ext_in. intros k' Hin.
  destruct (String.eqb_spec k k') as [->|_]; [contradiction | reflexivity].
Qed.

(** The registry made of a list of checks: every URL once, in the order
    of its first line, with the non-empty expected texts of all its
    lines, in their order. *)
Lemma add_checks_registry (cs : list check) :
  fold_left add_check cs [] =
  map (fun u => (u, texts_of u cs)) (first_occurrences (map check_url cs)).
Proof.
  rewrite (registry_by_keys (fold_left add_check cs []))
    by (apply add_checks_NoDup; constructor).
  rewrite add_checks_keys_list. cbn [Object_keys map app].
  rewrite new_keys_first_occurrences. cbn [existsb negb].
  assert (Hid : forall l : list string, filter (fun _ => true) l = l).
  { induction l; simpl; congruence. }
  rewrite Hid. apply map_ext_in. intros u Hu. f_equal.
  rewrite add_checks_get. cbn [memo_get].
  destruct (existsb (fun c => String.eqb (check_url c) u) cs) eqn:Hex; [reflexivity|].
  exfalso.
  assert (Hin : In u (map check_url cs)).
  { clear Hex. revert Hu. generalize (map check_url cs). intros l.
    induction l as [|x l IH]; simpl; [auto|].
    intros [->|Hin]; [auto|]. apply filter_In in Hin as [Hin _]. auto. }
  apply in_map_iff in Hin as [c [Hc Hin]].
  assert (Ht : existsb (fun c => String.eqb (check_url c) u) cs = true).
  { apply existsb_exists. exists c. split; [exact Hin|]. now apply String.eqb_eq. }
  congruence.
Qed.

End RegistryContent.

Section LoadedRegistry.

Variable URL_parse : string -> Url.
Variable URL_parse_throws : string -> option JsError.
Variable readFileSync : string -> JsError + string.

(** X14.  A registry the loader returns lists every check URL of the
    file once, in the order of its first line, each with the expected
    texts of all the lines of that URL, in the order of the lines and
    without the empty ones; the timeout is the one given. *)
Theorem readChecks_merges_lines_by_url :
  forall (filename content : string) (timeout : Z) (this : context),
    readFileSync filename = inr content ->
    readChecks URL_parse URL_parse_throws readFileSync filename timeout = inr this ->
    exists cs,
      Forall2 (fun line c => match_line line = Some c) (check_lines content) cs /\
      ctx_checks this =
      map (fun u => (u, texts_of u cs)) (first_occurrences (map check_url cs)) /\
      ctx_timeout this = timeout.
Proof.
  intros filename content timeout this Hfile Hload.
  destruct (readChecks_content URL_parse URL_parse_throws readFileSync filename content timeout Hfile)
    as [split [Hsplit Hread]].
  rewrite Hread in Hload.
  destruct (map_throwing (validate URL_parse URL_parse_throws) split) as [e|valid] eqn:Hv;
    [discriminate|].
  injection Hload as <-. exists split. split; [exact Hsplit|].
  assert (Hsame : valid = split).
  { apply map_throwing_inr in Hv. clear Hsplit Hread.
    induction Hv as [|c c' l l' Hc _ IH]; [reflexivity|].
    f_equal; [|exact IH].
    now destruct (validate_inr URL_parse URL_parse_throws c c' Hc). }
  subst valid. cbn [ctx_checks ctx_timeout]. split; [|reflexivity].
  apply add_checks_registry.
Qed.

End LoadedRegistry.

Lemma readChecks_merges_lines_by_url_witness :
  exists cs,
    Forall2 (fun line c => match_line line = Some c)
            (check_lines Scenario.checks_file) cs /\
    ctx_checks Scenario.three_checks =
    map (fun u => (u, texts_of u cs)) (first_occurrences (map check_url cs)).
Proof.
  destruct (readChecks_merges_lines_by_url
              NodeUrl.parse NodeUrl.parse_throws Scenario.files
              "./checks" Scenario.checks_file
              DEFAULT_TIMEOUT Scenario.three_checks eq_refl
              ltac:(vm_compute; reflexivity)) as [cs [H1 [H2 _]]].
  exists cs. split; [exact H1 | exact H2].
Defined.

(** ** The lines of the checks file *)

Section LineFacts.

Lemma all_chars_take_while (p : ascii -> bool) (s : string) :
  all_chars p (take_while p s) = true.
Proof.
  induction s as [|c s IH]; simpl; [reflexivity|].
  destruct (p c) eqn:Hc; simpl; [now rewrite Hc|reflexivity].
Qed.

Lemma take_while_all (p : ascii -> bool) (s : string) :
  all_chars p s = true -> take_while p s = s.
Proof.
  induction s as [|c s IH]; simpl; [reflexivity|].
  intros H. apply andb_true_iff in H as [Hc Hs]. rewrite Hc. f_equal. auto.
Qed.

Lemma take_drop_while (p : ascii -> bool) (s : string) :
  s = (take_while p s ++ drop_while p s)%string.
Proof.
  induction s as [|c s IH]; simpl; [reflexivity|].
  destruct (p c); simpl; [f_equal; exact IH | reflexivity].
Qed.

Lemma rev_string_involutive (s : string) : rev_string (rev_string s) = s.
Proof.
  induction s as [|c s IH]; simpl; [reflexivity|].
  rewrite rev_string_app, IH. reflexivity.
Qed.

Lemma split_lines_aux_no_newline (s : string) :
  forall (cur : string) (in_break : bool),
    all_chars no_newline cur = true ->
    Forall (fun piece => all_chars no_newline piece = true)
           (split_lines_aux s cur in_break).
Proof.
  induction s as [|c s IH]; intros cur in_break Hcur; simpl.
  - constructor; [|constructor]. now rewrite all_chars_rev.
  - destruct (is_newline c) eqn:Hc.
    + destruct in_break; [now apply IH|].
      constructor; [now rewrite all_chars_rev | now apply IH].
    + apply IH. simpl. unfold no_newline at 1. now rewrite Hc.
Qed.

Lemma trim_no_newline (s : string) :
  all_chars no_newline s = true -> all_chars no_newline (trim s) = true.
Proof.
  intros H. unfold trim. rewrite all_chars_rev.
  apply all_chars_drop_while. rewrite all_chars_rev.
  now apply all_chars_drop_while.
Qed.

Lemma trim_last (s pre : string) (c : ascii) :
  trim s = (pre ++ String c EmptyString)%string -> is_space c = false.
Proof.
  intros H.
  assert (Hrev : rev_string (trim s) = String c (rev_string pre)).
  { rewrite H, rev_string_app. reflexivity. }
  unfold trim in Hrev. rewrite rev_string_involutive in Hrev.
  eapply drop_while_head. exact Hrev.
Qed.

(** What the filters of the loader leave of a file: pieces between
    line breaks, trimmed, not empty, not comments, not assignments. *)
Lemma check_line_shape (content line : string) :
  In line (check_lines content) ->
  (exists piece, In piece (split_lines content) /\ line = trim piece) /\
  all_chars no_newline line = true /\
  (exists c rest, line = String c rest /\ is_space c = false /\ c <> "#"%char) /\
  is_assignment line = false.
Proof.
  unfold check_lines. rewrite !filter_In, in_map_iff.
  intros [[[[piece [<- Hpiece]] Hlen] Hhash] Hassign].
  split; [eauto|]. split.
  - apply trim_no_newline.
    pose proof (split_lines_aux_no_newline content EmptyString false eq_refl) as Hall.
    rewrite Forall_forall in Hall. now apply Hall.
  - split; [|now apply negb_true_iff].
    destruct (trim piece) as [|c rest] eqn:Ht; [discriminate|].
    exists c, rest. split; [reflexivity|]. split; [eapply trim_head; eassumption|].
    intros ->. discriminate.
Qed.

End LineFacts.

(** X15.  Every check line of a file is a piece between two line
    breaks, trimmed: it is not empty, holds no line break, neither
    starts nor ends with white space, does not start with [#] and is not
    of the form [name=...]. *)
Theorem check_lines_are_trimmed_lines :
  forall (content line : string),
    In line (check_lines content) ->
    (exists piece, In piece (split_lines content) /\ line = trim piece) /\
    line <> EmptyString /\
    all_chars (fun c => negb (is_newline c)) line = true /\
    (forall c rest, line = String c rest -> is_space c = false /\ c <> "#"%char) /\
    (forall pre c, line = (pre ++ String c EmptyString)%string -> is_space c = false) /\
    is_assignment line = false.
Proof.
  intros content line Hin.
  destruct (check_line_shape content line Hin)
    as [[piece [Hpiece Htrim]] [Hnl [[c [rest [Hline [Hsp Hhash]]]] Hassign]]].
  split; [eauto|]. split; [rewrite Hline; discriminate|].
  split; [exact Hnl|]. split; [|split; [|exact Hassign]].
  - intros c' rest' H. rewrite Hline in H. injection H as <- <-. auto.
  - intros pre c' H. rewrite Htrim in H. eapply trim_last. exact H.
Qed.

Lemma check_lines_are_trimmed_lines_witness :
  all_chars (fun c => negb (is_newline c)) "/status 200 OK" = true /\
  is_assignment "/status 200 OK" = false.
Proof.
  destruct (check_lines_are_trimmed_lines Scenario.checks_file "/status 200 OK"
              ltac:(vm_compute; auto)) as [_ [_ [H1 [_ [_ H2]]]]].
  split; [exact H1 | exact H2].
Defined.

(** X16.  A check line made of code units U+0000..U+00FF (so without
    the separators U+2028 and U+2029) splits into its URL, white space
    and its expected text, and nothing else: the URL is the longest
    start of the line without white space and is not empty; the
    expected text is the rest of the line after the white space, so it
    neither starts nor ends with white space, and it is empty exactly
    when the line is the URL alone. *)
Theorem match_line_splits_check_line :
  forall (content line : string),
    In line (check_lines content) ->
    exists c ws,
      match_line line = Some c /\
      line = (check_url c ++ ws ++ check_expected c)%string /\
      check_url c <> EmptyString /\
      all_chars (fun ch => negb (is_space ch)) (check_url c) = true /\
      all_chars is_space ws = true /\
      (forall ch rest, check_expected c = String ch rest -> is_space ch = false) /\
      (forall pre ch, check_expected c = (pre ++ String ch EmptyString)%string ->
                      is_space ch = false) /\
      (check_expected c = EmptyString <-> line = check_url c).
Proof.
  intros content line Hin.
  destruct (check_line_shape content line Hin)
    as [[piece [Hpiece Htrim]] [Hnl [[c0 [rest0 [Hline [Hsp Hhash]]]] Hassign]]].
  set (not_space := fun ch => negb (is_space ch)).
  set (u := take_while not_space line).
  set (after := drop_while not_space line).
  set (ws := take_while is_space after).
  set (e := drop_while is_space after).
  assert (Hsplit : line = (u ++ ws ++ e)%string).
  { unfold u, ws, e, after. rewrite <- take_drop_while. apply take_drop_while. }
  assert (He_nl : all_chars no_newline e = true).
  { unfold e, after. now do 2 apply all_chars_drop_while. }
  assert (Hu : u <> EmptyString).
  { unfold u. rewrite Hline. simpl. unfold not_space at 1. rewrite Hsp. discriminate. }
  assert (Hmatch : match_line line = Some (mkCheck u e)).
  { unfold match_line. fold not_space. fold u. fold after. fold e.
    change (fun c : ascii => negb (is_newline c)) with no_newline.
    rewrite (take_while_all no_newline e He_nl).
    destruct u; [congruence | reflexivity]. }
  assert (Hlast : forall pre ch, e = (pre ++ String ch EmptyString)%string ->
                                 is_space ch = false).
  { intros pre ch He. rewrite Htrim in Hsplit.
    apply (trim_last piece (u ++ ws ++ pre) ch).
    rewrite Hsplit, He, !append_assoc. reflexivity. }
  exists (mkCheck u e), ws. cbn [check_url check_expected].
  split; [exact Hmatch|]. split; [exact Hsplit|]. split; [exact Hu|].
  split; [apply all_chars_take_while|]. split; [apply all_chars_take_while|].
  split; [intros ch rest He; eapply drop_while_head; exact He|].
  split; [exact Hlast|].
  split.
  - intros He. rewrite He in Hsplit. rewrite append_nil_r in Hsplit.
    destruct (rev_string ws) as [|ch r] eqn:Hws.
    + assert (ws = EmptyString).
      { rewrite <- (rev_string_involutive ws), Hws. reflexivity. }
      subst ws. rewrite H in Hsplit. now rewrite append_nil_r in Hsplit.
    + exfalso.
      assert (Hw : ws = (rev_string r ++ String ch EmptyString)%string).
      { rewrite <- (rev_string_involutive ws), Hws. reflexivity. }
      assert (Hch : is_space ch = true).
      { pose proof (all_chars_take_while is_space after) as Hall.
        fold ws in Hall. rewrite Hw, all_chars_app in Hall.
        apply andb_true_iff in Hall as [_ Hall]. simpl in Hall.
        now rewrite andb_true_r in Hall. }
      rewrite Htrim, Hw in Hsplit. rewrite <- append_assoc in Hsplit.
      apply trim_last in Hsplit. congruence.
  - intros Hl.
    assert (Hrest : (ws ++ e)%string = EmptyString).
    { apply (append_cancel_l u). rewrite <- Hsplit. exact Hl. }
    destruct ws; [exact Hrest | discriminate].
Qed.

Lemma match_line_splits_check_line_witness :
  exists c ws,
    match_line "/status 200 OK" = Some c /\
    "/status 200 OK" = (check_url c ++ ws ++ check_expected c)%string /\
    check_url c <> EmptyString.
Proof.
  destruct (match_line_splits_check_line Scenario.checks_file "/status 200 OK"
              ltac:(vm_compute; auto)) as [c [ws [H1 [H2 [H3 _]]]]].
  exists c, ws. auto.
Defined.

(** ** Which assertion stops the loader *)

Lemma map_throwing_first_failure {A B : Type} (f : A -> JsError + B)
      (pre post : list A) (x : A) (e : JsError) :
  (forall y, In y pre -> exists z, f y = inr z) ->
  f x = inl e ->
  map_throwing f (pre ++ x :: post) = inl e.
Proof.
  induction pre as [|y pre IH]; simpl; intros Hpre Hx.
  - now rewrite Hx.
  - destruct (Hpre y (or_introl eq_refl)) as [z ->].
    rewrite IH; auto.
Qed.

Lemma match_lines_unique (lines : list string) (cs1 cs2 : list check) :
  Forall2 (fun line c => match_line line = Some c) lines cs1 ->
  Forall2 (fun line c => match_line line = Some c) lines cs2 ->
  cs1 = cs2.
Proof.
  intros H1. revert cs2.
  induction H1 as [|line c lines cs1 Hc _ IH]; intros cs2 H2;
    inversion H2; subst; [reflexivity|].
  f_equal; [congruence | auto].
Qed.

Section FirstInvalid.

Variable URL_parse : string -> Url.
Variable URL_parse_throws : string -> option JsError.
Variable readFileSync : string -> JsError + string.

(** X17.  Loading stops at the first check line, in the order of the
    file, on which [URL.parse] throws or whose URL is not valid,
    whatever follows it: the error is the one [URL.parse] threw there,
    or else the pathname assertion when the URL of that line does not
    parse with a pathname that starts with a slash, and the protocol
    assertion otherwise. *)
Theorem readChecks_stops_at_first_invalid_line :
  forall (filename content : string) (timeout : Z)
         (before after : list check) (c : check),
    readFileSync filename = inr content ->
    Forall2 (fun line chk => match_line line = Some chk)
            (check_lines content) (before ++ c :: after) ->
    (forall c', In c' before ->
                URL_parse_throws (check_url c') = None /\
                valid_check_url (URL_parse (check_url c'))) ->
    (forall e,
        URL_parse_throws (check_url c) = Some e ->
        readChecks URL_parse URL_parse_throws readFileSync filename timeout
        = inl e) /\
    (URL_parse_throws (check_url c) = None ->
     ~ valid_check_url (URL_parse (check_url c)) ->
     ((exists rest, pathname (URL_parse (check_url c)) = Some (String "/" rest)) ->
      readChecks URL_parse URL_parse_throws readFileSync filename timeout
      = inl (AssertionError "Check URL may only use HTTP/S protocol")) /\
     (~ (exists rest, pathname (URL_parse (check_url c)) = Some (String "/" rest)) ->
      readChecks URL_parse URL_parse_throws readFileSync filename timeout
      = inl (AssertionError "Check URL must have absolute pathname"))).
Proof.
  intros filename content timeout before after c Hfile Hlines Hbefore.
  destruct (readChecks_content URL_parse URL_parse_throws readFileSync
                               filename content timeout Hfile)
    as [split [Hsplit Hread]].
  rewrite Hread. clear Hread.
  rewrite (match_lines_unique _ _ _ Hsplit Hlines).
  assert (Hpre : forall y, In y before ->
                           exists z, validate URL_parse URL_parse_throws y = inr z).
  { intros y Hy. destruct (Hbefore y Hy) as [Hn Hv].
    destruct (validate_cases URL_parse URL_parse_throws y)
      as [[e [Ht _]]|[_ [[Hok _]|[_ Hno]]]];
      [congruence | eauto | contradiction]. }
  split.
  { intros e He.
    rewrite (map_throwing_first_failure (validate URL_parse URL_parse_throws)
               before after c e Hpre); [reflexivity|].
    unfold validate. now rewrite He. }
  intros Hreturns Hbad.
  assert (Hpath : (exists rest, pathname (URL_parse (check_url c))
                                = Some (String "/" rest)) <->
                  truthy (pathname (URL_parse (check_url c)))
                  && starts_with_slash (template (pathname (URL_parse (check_url c))))
                  = true).
  { destruct (pathname (URL_parse (check_url c))) as [p|]; cbn [truthy template].
    - split.
      + intros [rest H]. injection H as ->. reflexivity.
      + intros H. apply andb_true_iff in H as [_ H].
        apply starts_with_slash_iff in H as [rest ->]. eauto.
    - split; [intros [rest H]; discriminate | discriminate]. }
  split; intros Hp.
  - apply Hpath in Hp.
    rewrite (map_throwing_first_failure (validate URL_parse URL_parse_throws)
               before after c
               (AssertionError "Check URL may only use HTTP/S protocol") Hpre);
      [reflexivity|].
    destruct (validate_cases URL_parse URL_parse_throws c)
      as [[e [Ht _]]|[_ [[_ Hok]|[[H|H] _]]]];
      [congruence | contradiction | | exact H].
    unfold validate in H. rewrite Hreturns in H. cbv zeta in H.
    rewrite Hp in H. cbn [negb] in H.
    destruct (negb _); discriminate.
  - assert (Hf : truthy (pathname (URL_parse (check_url c)))
                 && starts_with_slash
                      (template (pathname (URL_parse (check_url c)))) = false).
    { apply not_true_is_false. intros E. apply Hpath in E. contradiction. }
    rewrite (map_throwing_first_failure (validate URL_parse URL_parse_throws)
               before after c
               (AssertionError "Check URL must have absolute pathname") Hpre);
      [reflexivity|].
    unfold validate. rewrite Hreturns. cbv zeta. rewrite Hf. reflexivity.
Qed.

End FirstInvalid.

Lemma readChecks_stops_at_first_invalid_line_witness :
  readChecks NodeUrl.parse NodeUrl.parse_throws Scenario.files
             "./bad" DEFAULT_TIMEOUT
  = inl (AssertionError "Check URL may only use HTTP/S protocol") /\
  readChecks NodeUrl.parse Scenario.parse_throws Scenario.files
             "./undecodable" DEFAULT_TIMEOUT
  = inl (Error None "URI malformed").
Proof.
  assert (Hstatus : forall c', In c' [mkCheck "/status" "200 OK"] ->
                               valid_check_url (NodeUrl.parse (check_url c'))).
  { intros c' [<-|[]]. split;
      [exists "status"; reflexivity | intros p H; discriminate]. }
  assert (Hreturns : forall c', In c' [mkCheck "/status" "200 OK"] ->
                                Scenario.parse_throws (check_url c') = None).
  { intros c' [<-|[]]. reflexivity. }
  split.
  - apply (proj2 (readChecks_stops_at_first_invalid_line
                    NodeUrl.parse NodeUrl.parse_throws Scenario.files
                    "./bad" Scenario.bad_checks_file DEFAULT_TIMEOUT
                    [mkCheck "/status" "200 OK"] []
                    (mkCheck "ftp://files.example.com/status" "")
                    eq_refl
                    ltac:(vm_compute; repeat constructor)
                    (fun c' H => conj eq_refl (Hstatus c' H)))).
    + reflexivity.
    + intros [_ H].
      destruct (H "ftp:" eq_refl ltac:(discriminate)); discriminate.
    + exists "status". reflexivity.
  - apply (proj1 (readChecks_stops_at_first_invalid_line
                    NodeUrl.parse Scenario.parse_throws Scenario.files
                    "./undecodable" Scenario.undecodable_checks_file
                    DEFAULT_TIMEOUT
                    [mkCheck "/status" "200 OK"] [mkCheck "status" ""]
                    (mkCheck Scenario.undecodable "")
                    eq_refl
                    ltac:(vm_compute; repeat constructor)
                    (fun c' H => conj (Hreturns c' H) (Hstatus c' H)))).
    reflexivity.
Defined.

Lemma checkFunction_resolves_witness :
  exists pf w',
    checkFunction Scenario.three_pages Scenario.clock Scenario.pretty
                  NodeUrl.parse NodeUrl.resolve Scenario.three_checks
                  Scenario.local_server None 0 = (inr pf, w').
Proof.
  apply (checkFunction_resolves
           nat Scenario.three_pages Scenario.clock Scenario.pretty
           NodeUrl.parse NodeUrl.resolve Scenario.three_checks
           Scenario.local_server None 0).
  intros key [<-|[<-|[<-|[]]]]; eexists; vm_compute; reflexivity.
Defined.
